(** * A minimal Unix-like shell: model and verified properties

    Shallow embedding of [shell.py]: the parsing layer (pipeline split,
    tokenizer, redirection parser, background detector), the command
    resolver, the builtins and the pipeline executor, followed by the
    properties of the command execution engine.

    Modelling conventions.
    - A Python [str] is a [list ascii]: characters with code point below 256.
      Whitespace is Python's [str.isspace] on that range, which is also what
      the regular expression class [\s] and [str.strip] use.
    - The operating system is an explicit state ([Kernel]) threaded through
      the interpreter's code; what the file system and external programs
      answer is a field of that state ([Oracle]).  A system call fails the way
      the source anticipates: with an [OSError] carrying its message.
      [os.execve] refuses some arguments before it asks the system, with a
      [ValueError]; this is part of the model ([execve_value_error]).  The
      paths handed to [os.stat], [os.access], [os.chdir] and [os.open] hold
      no NUL character, and the environment is the one the interpreter was
      started with, so no name in it holds [=] or NUL and no value holds
      NUL.  A write to a descriptor succeeds.  Resource exhaustion in
      [os.fork] and [os.pipe] is outside the model.
    - Numbers are those of CPython on Linux: a C [long] has 64 bits, and
      [int] refuses a text with more than 4300 digits.
    - [fork] is modelled from the parent's side: the child's code runs on a
      copy of the kernel state and its wait status is entered in the table of
      children.  Every child terminates.  A child whose code is left by an
      exception goes on in the loop of [main]; what it does there is not
      followed, and the status it finally ends with is an answer of the
      oracle. *)

From Stdlib Require Import List Ascii ZArith Bool Arith Lia Permutation.
From Stdlib Require String DecimalString DecimalPos DecimalZ.
Import ListNotations String.StringSyntax.
Local Open Scope string_scope.
Local Open Scope list_scope.

Set Implicit Arguments.

(* ================================================================= *)
(** ** Strings *)

Definition str := list ascii.

(** A string literal. *)
Definition lit (x : String.string) : str := String.list_ascii_of_string x.

Definition squote : ascii := ascii_of_nat 39.
Definition dquote : ascii := ascii_of_nat 34.
Definition pipe_ch : ascii := ascii_of_nat 124.
Definition amp_ch : ascii := ascii_of_nat 38.
Definition slash_ch : ascii := ascii_of_nat 47.
Definition colon_ch : ascii := ascii_of_nat 58.
Definition newline_ch : ascii := ascii_of_nat 10.
Definition nul_ch : ascii := ascii_of_nat 0.

Fixpoint str_eqb (a b : str) : bool :=
  match a, b with
  | [], [] => true
  | x :: a', y :: b' => Ascii.eqb x y && str_eqb a' b'
  | _, _ => false
  end.

(** [str.isspace] for one character with code point below 256: the ASCII
    controls TAB, LF, VT, FF, CR, FS, GS, RS, US, the space, NEL and NBSP. *)
Definition isspace (c : ascii) : bool :=
  let n := nat_of_ascii c in
  ((9 <=? n) && (n <=? 13)) || ((28 <=? n) && (n <=? 32))
  || (n =? 133) || (n =? 160).

Fixpoint lstrip (l : str) : str :=
  match l with
  | c :: t => if isspace c then lstrip t else l
  | [] => []
  end.

Definition rstrip (l : str) : str := rev (lstrip (rev l)).

Definition strip (l : str) : str := rstrip (lstrip l).

(** [l.endswith(c)] for a one-character suffix. *)
Definition endswith_ch (l : str) (c : ascii) : bool :=
  match rev l with
  | x :: _ => Ascii.eqb x c
  | [] => false
  end.

(** [c in l]. *)
Definition contains_ch (c : ascii) (l : str) : bool :=
  existsb (Ascii.eqb c) l.

(** The longest prefix whose characters satisfy [p], and the rest. *)
Fixpoint span (p : ascii -> bool) (l : str) : str * str :=
  match l with
  | c :: t =>
      if p c then let (a, b) := span p t in (c :: a, b) else ([], l)
  | [] => ([], [])
  end.

(** The text before the first occurrence of [q], and the text after it. *)
Fixpoint until_ch (q : ascii) (l : str) : option (str * str) :=
  match l with
  | c :: t =>
      if Ascii.eqb c q then Some ([], t)
      else match until_ch q t with
           | Some (a, b) => Some (c :: a, b)
           | None => None
           end
  | [] => None
  end.

(* ================================================================= *)
(** ** Parsing *)

(** [split_pipeline]: the character loop, with the quoting flags [in_s] and
    [in_d], the current buffer [buf] and the segments found so far. *)
Fixpoint split_pipeline_loop (line : str) (in_s in_d : bool)
    (buf : str) (segs : list str) : list str * str :=
  match line with
  | [] => (segs, buf)
  | ch :: rest =>
      if Ascii.eqb ch squote && negb in_d then
        split_pipeline_loop rest (negb in_s) in_d (buf ++ [ch]) segs
      else if Ascii.eqb ch dquote && negb in_s then
        split_pipeline_loop rest in_s (negb in_d) (buf ++ [ch]) segs
      else if Ascii.eqb ch pipe_ch && negb in_s && negb in_d then
        split_pipeline_loop rest in_s in_d [] (segs ++ [strip buf])
      else
        split_pipeline_loop rest in_s in_d (buf ++ [ch]) segs
  end.

Definition nonempty (x : str) : bool :=
  match x with [] => false | _ :: _ => true end.

Definition split_pipeline (line : str) : list str :=
  let (segs, buf) := split_pipeline_loop line false false [] [] in
  let segs' := if nonempty buf then segs ++ [strip buf] else segs in
  filter nonempty segs'.

(** The character class of a bare token: anything but the space, TAB, CR,
    LF and the two quote characters. *)
Definition is_bare (c : ascii) : bool :=
  let n := nat_of_ascii c in
  negb ((n =? 32) || (n =? 9) || (n =? 13) || (n =? 10)
        || (n =? 39) || (n =? 34)).

(** The four characters that the class of a bare token names beside the
    quotes. *)
Definition is_blank (c : ascii) : bool :=
  let n := nat_of_ascii c in
  (n =? 32) || (n =? 9) || (n =? 13) || (n =? 10).

Definition is_quote (c : ascii) : bool :=
  Ascii.eqb c squote || Ascii.eqb c dquote.

(** Group 1 of [_token_re] at the head of [u]: a single-quoted run, a
    double-quoted run or a bare token, tried in this order.  The result is
    the matched text, delimiters included, and what follows it. *)
Definition match_group (u : str) : option (str * str) :=
  match u with
  | [] => None
  | c :: t =>
      if Ascii.eqb c squote then
        match until_ch squote t with
        | Some (body, rest) => Some (squote :: body ++ [squote], rest)
        | None => None
        end
      else if Ascii.eqb c dquote then
        match until_ch dquote t with
        | Some (body, rest) => Some (dquote :: body ++ [dquote], rest)
        | None => None
        end
      else if is_bare c then Some (span is_bare u)
      else None
  end.

(** [_token_re.match(cmd, i)] on the suffix [u = cmd[i:]]: the greedy [\s*]
    takes as much white space as it can and gives characters back, one at a
    time, while group 1 does not match after it. *)
Fixpoint token_re_match (u : str) : option (str * str) :=
  match u with
  | [] => None
  | c :: t =>
      if isspace c then
        match token_re_match t with
        | Some r => Some r
        | None => match_group u
        end
      else match_group u
  end.

(** The test on [tok[0]] and [tok[-1]] and the slice [tok[1:-1]]. *)
Definition strip_quotes (tok : str) : str :=
  match tok with
  | c :: t =>
      if (2 <=? length tok)
         && ((Ascii.eqb c squote && Ascii.eqb (last tok c) squote)
             || (Ascii.eqb c dquote && Ascii.eqb (last tok c) dquote))
      then removelast t
      else tok
  | [] => tok
  end.

(** The [while i < len(cmd)] loop of [tokenize] on the suffix [cmd[i:]];
    every round consumes at least one character, so [length cmd] rounds are
    enough. *)
Fixpoint tokenize_loop (fuel : nat) (cmd : str) : list str :=
  match fuel with
  | 0 => []
  | S fuel' =>
      match cmd with
      | [] => []
      | c :: t =>
          match token_re_match cmd with
          | None =>
              if isspace c then tokenize_loop fuel' t
              else [c] :: tokenize_loop fuel' t
          | Some (tok, rest) => strip_quotes tok :: tokenize_loop fuel' rest
          end
      end
  end.

Definition tokenize (cmd : str) : list str :=
  tokenize_loop (length cmd) cmd.

Definition lt_tok : str := lit "<".
Definition gt_tok : str := lit ">".

(** The index loop of [parse_redirections], on the tokens not yet scanned. *)
Fixpoint parse_redirections_loop (argv : list str) (out : list str)
    (infile outfile : option str) : list str * option str * option str :=
  match argv with
  | [] => (out, infile, outfile)
  | t :: rest =>
      match rest with
      | nxt :: rest' =>
          if str_eqb t lt_tok then
            parse_redirections_loop rest' out (Some nxt) outfile
          else if str_eqb t gt_tok then
            parse_redirections_loop rest' out infile (Some nxt)
          else parse_redirections_loop rest (out ++ [t]) infile outfile
      | [] => parse_redirections_loop rest (out ++ [t]) infile outfile
      end
  end.

Definition parse_redirections (argv : list str)
  : list str * option str * option str :=
  parse_redirections_loop argv [] None None.

Definition parse_background (line : str) : str * bool :=
  let stripped := rstrip line in
  if endswith_ch stripped amp_ch then (rstrip (removelast stripped), true)
  else (line, false).

(** A pipeline stage, the dictionary with keys [argv], [in] and [out]. *)
Record Stage := mkStage {
  st_argv : list str;
  st_in : option str;
  st_out : option str
}.

Fixpoint stages_of_segments (segs : list str) : list Stage :=
  match segs with
  | [] => []
  | seg :: more =>
      let argv := tokenize seg in
      match argv with
      | [] => stages_of_segments more
      | _ :: _ =>
          match parse_redirections argv with
          | (argv', infile, outfile) =>
              mkStage argv' infile outfile :: stages_of_segments more
          end
      end
  end.

Definition parse_line_into_stages (line : str) : list Stage * bool :=
  let (line2, is_bg) := parse_background line in
  (stages_of_segments (split_pipeline line2), is_bg).

(* ================================================================= *)
(** ** The operating system as seen by one process *)

Inductive FdObj :=
| Inherited (n : nat)
| PipeRead (id : nat)
| PipeWrite (id : nat)
| FileRead (path : str)
| FileWrite (path : str).

(** What a process does that others can observe: text written to a
    descriptor, a child created, a child waited for. *)
Inductive Event :=
| EvWrite (fd : nat) (text : str)
| EvFork (pid : nat)
| EvWait (pid : nat).

(** How a piece of interpreter code ends: it returns a value, an exception
    other than [SystemExit] leaves it, the process ends with a status
    ([sys.exit], [os._exit]), or the process image is replaced. *)
Inductive Outcome (A : Type) :=
| Ret (a : A)
| Raised (msg : str)
| Exited (code : Z)
| Execed (path : str) (argv : list str).

Arguments Ret {A} a.
Arguments Raised {A} msg.
Arguments Exited {A} code.
Arguments Execed {A} path argv.

(** The answers of the file system and of external programs.  Paths are
    interpreted relative to the working directory given first. *)
Record Oracle := mkOracle {
  fs_stat : str -> str -> bool;
  fs_access_x : str -> str -> bool;
  (** the new working directory, or the text of the [OSError] *)
  fs_chdir : str -> str -> str + str;
  (** [None] when the file opens (for writing when the flag is set), else
      the text of the [OSError] *)
  fs_open : str -> str -> bool -> option str;
  (** [None] when the image is replaced, else the text of the [OSError] *)
  sys_execve : str -> str -> list str -> option str;
  (** the wait status with which the program run by a child ends *)
  prog_status : nat -> str -> list str -> Z;
  (** the wait status of a child that an exception has brought back into
      the interpreter loop *)
  stray_status : nat -> Z
}.

(** A child as the kernel remembers it: the wait status it ends with, how
    its interpreter code ended and what it did before. *)
Record ChildRec := mkChildRec {
  c_pid : nat;
  c_status : Z;
  c_end : Outcome Empty_set;
  c_trace : list Event
}.

Record Kernel := mkKernel {
  k_cwd : str;
  k_environ : str -> option str;
  k_fds : list (nat * FdObj);
  k_next_pid : nat;
  (** terminated or running children not yet waited for, in the order in
      which they finish *)
  k_children : list (nat * Z);
  (** for each coming [fork], the rank of the new child in that order *)
  k_sched : list nat;
  (** every child created so far, in creation order *)
  k_spawned : list ChildRec;
  k_trace : list Event;
  k_oracle : Oracle
}.

Definition M (A : Type) : Type := Kernel -> Outcome A * Kernel.

Definition ret {A : Type} (a : A) : M A := fun k => (Ret a, k).

Definition bind {A B : Type} (m : M A) (f : A -> M B) : M B :=
  fun k =>
    match m k with
    | (Ret a, k') => f a k'
    | (Raised e, k') => (Raised e, k')
    | (Exited c, k') => (Exited c, k')
    | (Execed p a, k') => (Execed p a, k')
    end.

Notation "x <- m ;; f" := (bind m (fun x => f))
  (at level 61, m at next level, right associativity).
Notation "m ;;; f" := (bind m (fun _ => f))
  (at level 61, right associativity).

Definition set_cwd (d : str) (k : Kernel) : Kernel :=
  mkKernel d (k_environ k) (k_fds k) (k_next_pid k) (k_children k)
    (k_sched k) (k_spawned k) (k_trace k) (k_oracle k).

Definition set_fds (t : list (nat * FdObj)) (k : Kernel) : Kernel :=
  mkKernel (k_cwd k) (k_environ k) t (k_next_pid k) (k_children k)
    (k_sched k) (k_spawned k) (k_trace k) (k_oracle k).

Definition set_children (c : list (nat * Z)) (k : Kernel) : Kernel :=
  mkKernel (k_cwd k) (k_environ k) (k_fds k) (k_next_pid k) c
    (k_sched k) (k_spawned k) (k_trace k) (k_oracle k).

Definition set_sched (s : list nat) (k : Kernel) : Kernel :=
  mkKernel (k_cwd k) (k_environ k) (k_fds k) (k_next_pid k) (k_children k)
    s (k_spawned k) (k_trace k) (k_oracle k).

Definition add_event (e : Event) (k : Kernel) : Kernel :=
  mkKernel (k_cwd k) (k_environ k) (k_fds k) (k_next_pid k) (k_children k)
    (k_sched k) (k_spawned k) (k_trace k ++ [e]) (k_oracle k).

(** *** Descriptor table *)

Fixpoint fd_lookup (fd : nat) (t : list (nat * FdObj)) : option FdObj :=
  match t with
  | (n, o) :: t' => if n =? fd then Some o else fd_lookup fd t'
  | [] => None
  end.

Definition fd_remove (fd : nat) (t : list (nat * FdObj))
  : list (nat * FdObj) :=
  filter (fun e => negb (fst e =? fd)) t.

Definition fd_set (fd : nat) (o : FdObj) (t : list (nat * FdObj))
  : list (nat * FdObj) :=
  (fd, o) :: fd_remove fd t.

Definition fd_is_free (t : list (nat * FdObj)) (fd : nat) : bool :=
  match fd_lookup fd t with None => true | Some _ => false end.

(** The lowest descriptor number not in use. *)
Definition lowest_free (t : list (nat * FdObj)) : nat :=
  match find (fd_is_free t) (seq 0 (S (length t))) with
  | Some n => n
  | None => S (list_max (map fst t))
  end.

(** *** Table of children *)

Definition insert_at {A : Type} (pos : nat) (x : A) (l : list A) : list A :=
  firstn pos l ++ x :: skipn pos l.

Fixpoint child_lookup (pid : nat) (t : list (nat * Z)) : option Z :=
  match t with
  | (p, s) :: t' => if p =? pid then Some s else child_lookup pid t'
  | [] => None
  end.

Definition child_remove (pid : nat) (t : list (nat * Z)) : list (nat * Z) :=
  filter (fun e => negb (fst e =? pid)) t.

(** *** Wait statuses (Linux encoding) *)

(** The status of a process that ended with [exit(code)]. *)
Definition W_EXITCODE (code : Z) : Z := Z.shiftl (Z.land code 255) 8.

(** The status of a process killed by signal [sig], with or without a core
    dump. *)
Definition W_SIGNALED (sig : Z) (core : bool) : Z :=
  Z.lor (Z.land sig 127) (if core then 128 else 0).

Definition WTERMSIG (status : Z) : Z := Z.land status 127.

Definition WIFEXITED (status : Z) : bool := (WTERMSIG status =? 0)%Z.

Definition WEXITSTATUS (status : Z) : Z := Z.shiftr (Z.land status 65280) 8.

(** [((signed char) ((status & 0x7f) + 1) >> 1) > 0] *)
Definition WIFSIGNALED (status : Z) : bool :=
  let v := (Z.land status 127 + 1)%Z in
  let sc := if (128 <=? v)%Z then (v - 256)%Z else v in
  (0 <? Z.shiftr sc 1)%Z.

(** *** System calls *)

Definition emit (e : Event) : M unit := fun k => (Ret tt, add_event e k).

Definition os_exit {A : Type} (code : Z) : M A := fun k => (Exited code, k).

Definition raise {A : Type} (msg : str) : M A := fun k => (Raised msg, k).

Definition environ_get (name : str) : M (option str) :=
  fun k => (Ret (k_environ k name), k).

(** [os.chdir]: [None] on success, else the text of the [OSError]. *)
Definition os_chdir (path : str) : M (option str) :=
  fun k =>
    match fs_chdir (k_oracle k) (k_cwd k) path with
    | inl d => (Ret None, set_cwd d k)
    | inr e => (Ret (Some e), k)
    end.

(** [os.open]: the new descriptor, or the text of the [OSError]. *)
Definition os_open (path : str) (for_writing : bool) : M (str + nat) :=
  fun k =>
    match fs_open (k_oracle k) (k_cwd k) path for_writing with
    | Some e => (Ret (inl e), k)
    | None =>
        let fd := lowest_free (k_fds k) in
        let o := if for_writing then FileWrite path else FileRead path in
        (Ret (inr fd), set_fds (fd_set fd o (k_fds k)) k)
    end.

Definition os_dup2 (fd fd2 : nat) : M unit :=
  fun k =>
    match fd_lookup fd (k_fds k) with
    | Some o => (Ret tt, set_fds (fd_set fd2 o (k_fds k)) k)
    | None => (Raised (lit "[Errno 9] Bad file descriptor"), k)
    end.

(** [os.close] where a failure is ignored or cannot happen. *)
Definition os_close (fd : nat) : M unit :=
  fun k => (Ret tt, set_fds (fd_remove fd (k_fds k)) k).

Definition os_pipe (id : nat) : M (nat * nat) :=
  fun k =>
    let r := lowest_free (k_fds k) in
    let t1 := fd_set r (PipeRead id) (k_fds k) in
    let w := lowest_free t1 in
    (Ret (r, w), set_fds (fd_set w (PipeWrite id) t1) k).

(** The kernel state a new child starts with: a copy of the parent's, with
    no children and nothing done yet. *)
Definition child_view (k : Kernel) : Kernel :=
  mkKernel (k_cwd k) (k_environ k) (k_fds k) (k_next_pid k) []
    [] [] [] (k_oracle k).

(** What the process hands to [exit] when it ends with [sys.exit(code)] or
    [os._exit(code)]: the code itself when it fits a C [long], and -1
    otherwise. *)
Definition exit_argument (code : Z) : Z :=
  if ((- 2 ^ 63 <=? code) && (code <? 2 ^ 63))%Z then code else (-1)%Z.

Definition wait_status (o : Oracle) (pid : nat) (fin : Outcome Empty_set)
  : Z :=
  match fin with
  | Ret a => match a with end
  | Raised _ => stray_status o pid
  | Exited code => W_EXITCODE (exit_argument code)
  | Execed path argv => prog_status o pid path argv
  end.

(** The life of a child that runs [child] from the state [v]. *)
Definition child_record (child : M Empty_set) (v : Kernel) : ChildRec :=
  let (fin, kc) := child v in
  mkChildRec (k_next_pid v) (wait_status (k_oracle v) (k_next_pid v) fin)
    fin (k_trace kc).

(** The parent's kernel state once the child [r] exists. *)
Definition after_fork (r : ChildRec) (k : Kernel) : Kernel :=
  mkKernel (k_cwd k) (k_environ k) (k_fds k) (S (k_next_pid k))
    (insert_at (hd 0 (k_sched k)) (c_pid r, c_status r) (k_children k))
    (tl (k_sched k))
    (k_spawned k ++ [r])
    (k_trace k ++ [EvFork (c_pid r)]) (k_oracle k).

(** [os.fork] in the parent, for a child that runs [child]. *)
Definition os_fork (child : M Empty_set) : M nat :=
  fun k =>
    let r := child_record child (child_view k) in
    (Ret (c_pid r), after_fork r k).

(** [os.waitpid(pid, 0)]: blocks until that child has finished, whatever
    finishes before it, and removes it from the table. *)
Definition os_waitpid (pid : nat) : M Z :=
  fun k =>
    match child_lookup pid (k_children k) with
    | Some status =>
        (Ret status,
         add_event (EvWait pid)
           (set_children (child_remove pid (k_children k)) k))
    | None => (Raised (lit "[Errno 10] No child processes"), k)
    end.

Definition read {A : Type} (f : Kernel -> A) : M A := fun k => (Ret (f k), k).

(** [try: body except Exception as ex: handler(ex)] *)
Definition try_except {A : Type} (body : M A) (handler : str -> M A) : M A :=
  fun k =>
    match body k with
    | (Raised e, k') => handler e k'
    | r => r
    end.

(* ================================================================= *)
(** ** Numbers and text *)

(** [str(n)] for an integer. *)
Definition str_of_Z (n : Z) : str :=
  lit (DecimalString.NilZero.string_of_int (Z.to_int n)).

Definition is_digit (c : ascii) : bool :=
  let n := nat_of_ascii c in (48 <=? n) && (n <=? 57).

(** Decimal digits, single underscores allowed between them. *)
Fixpoint int_digits (l : str) (acc : Z) (after_digit : bool) : option Z :=
  match l with
  | [] => if after_digit then Some acc else None
  | c :: t =>
      if is_digit c then
        int_digits t (10 * acc + Z.of_nat (nat_of_ascii c - 48))%Z true
      else if Ascii.eqb c (ascii_of_nat 95) && after_digit then
        int_digits t acc false
      else None
  end.

(** The white space that [int] accepts around a number: TAB, LF, VT, FF,
    CR and the space, as C's [isspace] has it, and NEL and NBSP; not FS,
    GS, RS and US. *)
Definition int_space (c : ascii) : bool :=
  let n := nat_of_ascii c in
  ((9 <=? n) && (n <=? 13)) || (n =? 32) || (n =? 133) || (n =? 160).

Fixpoint int_lstrip (l : str) : str :=
  match l with
  | c :: t => if int_space c then int_lstrip t else l
  | [] => []
  end.

Definition int_strip (l : str) : str :=
  rev (int_lstrip (rev (int_lstrip l))).

(** [sys.get_int_max_str_digits()], CPython's default. *)
Definition int_max_str_digits : nat := 4300.

(** [int(text)]; [None] stands for [ValueError]: the text is no number, or
    it has more digits than the limit allows. *)
Definition py_int (text : str) : option Z :=
  let body := int_strip text in
  if int_max_str_digits <? length (filter is_digit body) then None
  else
    match body with
    | c :: t =>
        if Ascii.eqb c (ascii_of_nat 45) then
          option_map Z.opp (int_digits t 0%Z false)
        else if Ascii.eqb c (ascii_of_nat 43) then int_digits t 0%Z false
        else int_digits (c :: t) 0%Z false
    | [] => None
    end.

(** [text.split(sep)] for a one-character separator. *)
Fixpoint split_on (sep : ascii) (l : str) : list str :=
  match l with
  | [] => [[]]
  | c :: t =>
      if Ascii.eqb c sep then [] :: split_on sep t
      else match split_on sep t with
           | h :: r => (c :: h) :: r
           | [] => [[c]]
           end
  end.

(** [os.path.join(a, b)] *)
Definition path_join (a b : str) : str :=
  match b with
  | c :: _ =>
      if Ascii.eqb c slash_ch then b
      else if negb (nonempty a) || endswith_ch a slash_ch then a ++ b
      else a ++ slash_ch :: b
  | [] =>
      if negb (nonempty a) || endswith_ch a slash_ch then a
      else a ++ [slash_ch]
  end.

(* ================================================================= *)
(** ** The shell *)

Definition eprint (msg : str) : M unit := emit (EvWrite 2 (msg ++ [newline_ch])).

(** *** PATH lookup *)

Definition is_executable (k : Kernel) (fp : str) : bool :=
  if fs_stat (k_oracle k) (k_cwd k) fp
  then fs_access_x (k_oracle k) (k_cwd k) fp
  else false.

Definition path_dir (d : str) : str :=
  if nonempty d then d else lit ".".

Fixpoint search_path (k : Kernel) (dirs : list str) (prog : str)
  : option str :=
  match dirs with
  | [] => None
  | d :: more =>
      let cand := path_join (path_dir d) prog in
      if is_executable k cand then Some cand else search_path k more prog
  end.

Definition resolve_command (k : Kernel) (prog : str) : option str :=
  if contains_ch slash_ch prog then
    if is_executable k prog then Some prog else None
  else
    let path := match k_environ k (lit "PATH") with
                | Some p => p
                | None => []
                end in
    search_path k (split_on colon_ch path) prog.

(** *** Builtins *)

Definition is_builtin (argv : list str) : bool :=
  match argv with
  | a0 :: _ => str_eqb a0 (lit "exit") || str_eqb a0 (lit "cd")
  | [] => false
  end.

Definition run_builtin (argv : list str) : M Z :=
  match argv with
  | [] => ret 0%Z
  | cmd :: args =>
      if str_eqb cmd (lit "exit") then
        let code := match args with
                    | a1 :: _ => match py_int a1 with
                                 | Some n => n
                                 | None => 1%Z
                                 end
                    | [] => 0%Z
                    end in
        os_exit code
      else if str_eqb cmd (lit "cd") then
        path <- match args with
                | a1 :: _ => ret (Some a1)
                | [] => environ_get (lit "HOME")
                end ;;
        match path with
        | None => eprint (lit "cd: HOME not set") ;;; ret 1%Z
        | Some p =>
            r <- os_chdir p ;;
            match r with
            | None => ret 0%Z
            | Some e => eprint (lit "cd: " ++ e) ;;; ret 1%Z
            end
        end
      else ret 0%Z
  end.

(** *** Execution *)

Definition redirect_one (file : option str) (for_writing : bool) (target : nat)
    (next : M bool) : M bool :=
  match file with
  | None => next
  | Some f =>
      r <- os_open f for_writing ;;
      match r with
      | inl e => eprint (f ++ lit ": " ++ e) ;;; ret false
      | inr fd => os_dup2 fd target ;;; os_close fd ;;; next
      end
  end.

Definition setup_redirection (infile outfile : option str) : M bool :=
  redirect_one infile false 0 (redirect_one outfile true 1 (ret true)).

(** The [ValueError] with which [os.execve(path, argv, os.environ)] refuses
    its arguments before it asks the system: a NUL character in the path, an
    empty vector, a NUL character in an argument, an empty first argument,
    a variable with an empty name in the environment; checked in this
    order. *)
Definition execve_value_error (k : Kernel) (path : str) (argv : list str)
  : option str :=
  if contains_ch nul_ch path then Some (lit "embedded null byte")
  else
    match argv with
    | [] => Some (lit "execve: argv must not be empty")
    | a0 :: _ =>
        if existsb (contains_ch nul_ch) argv
        then Some (lit "embedded null byte")
        else if negb (nonempty a0)
        then Some (lit "execve: argv first element cannot be empty")
        else match k_environ k [] with
             | Some _ => Some (lit "illegal environment variable name")
             | None => None
             end
    end.

(** [except OSError] catches what the system answers, not the
    [ValueError] of [os.execve], which leaves [exec_program]. *)
Definition exec_program (argv : list str) : M unit :=
  match argv with
  | [] => os_exit 0%Z
  | prog :: _ =>
      path <- read (fun k => resolve_command k prog) ;;
      match path with
      | None => eprint (prog ++ lit ": command not found") ;;; os_exit 127%Z
      | Some p =>
          bad <- read (fun k => execve_value_error k p argv) ;;
          match bad with
          | Some msg => raise msg
          | None =>
              r <- read (fun k => sys_execve (k_oracle k) (k_cwd k) p argv) ;;
              match r with
              | None => fun k => (Execed p argv, k)
              | Some e => eprint (prog ++ lit ": " ++ e) ;;; os_exit 126%Z
              end
          end
      end
  end.

Definition status_to_exitcode (status : Z) : Z :=
  if WIFEXITED status then WEXITSTATUS status
  else if WIFSIGNALED status then (128 + WTERMSIG status)%Z
  else 1%Z.

Fixpoint make_pipes (count : nat) (pipes : list (nat * nat))
  : M (list (nat * nat)) :=
  match count with
  | 0 => ret pipes
  | S count' =>
      p <- os_pipe (length pipes) ;;
      make_pipes count' (pipes ++ [p])
  end.

Fixpoint close_pipes (pipes : list (nat * nat)) : M unit :=
  match pipes with
  | [] => ret tt
  | (pr, pw) :: more => os_close pr ;;; os_close pw ;;; close_pipes more
  end.

(** In the child of stage [i] of [n]: the standard streams are connected to
    the neighbouring pipes, then every pipe descriptor is closed. *)
Definition wire_pipes (i n : nat) (pipes : list (nat * nat)) : M unit :=
  (if 0 <? i then os_dup2 (fst (nth (i - 1) pipes (0, 0))) 0 else ret tt) ;;;
  (if i <? n - 1 then os_dup2 (snd (nth i pipes (0, 0))) 1 else ret tt) ;;;
  close_pipes pipes.

(** In the child, after the wiring: the stage's own redirections, then the
    program. *)
Definition stage_body (st : Stage) : M Empty_set :=
  ok <- setup_redirection (st_in st) (st_out st) ;;
  if negb ok then os_exit 1%Z
  else exec_program (st_argv st) ;;; os_exit 127%Z.

(** The child created for stage [i] of [n]. *)
Definition child_stage (i n : nat) (pipes : list (nat * nat)) (st : Stage)
  : M Empty_set :=
  wire_pipes i n pipes ;;; stage_body st.

(** The child created for a builtin that stands alone with a redirection. *)
Definition child_builtin (st : Stage) : M Empty_set :=
  ok <- setup_redirection (st_in st) (st_out st) ;;
  if negb ok then os_exit 1%Z
  else code <- run_builtin (st_argv st) ;; os_exit code.

Fixpoint spawn_loop (i n : nat) (pipes : list (nat * nat))
    (stages : list Stage) (pids : list nat) : M (list nat) :=
  match stages with
  | [] => ret pids
  | st :: more =>
      pid <- os_fork (child_stage i n pipes st) ;;
      spawn_loop (S i) n pipes more (pids ++ [pid])
  end.

Fixpoint wait_loop (todo : list nat) (last_pid : nat) (last_status : Z)
  : M Z :=
  match todo with
  | [] => ret last_status
  | pid :: more =>
      status <- os_waitpid pid ;;
      wait_loop more last_pid (if pid =? last_pid then status else last_status)
  end.

(** The part of [run_pipeline] after the builtin special case. *)
Definition run_stages (stages : list Stage) (is_background : bool) : M Z :=
  let n := length stages in
  pipes <- make_pipes (n - 1) [] ;;
  pids <- spawn_loop 0 n pipes stages [] ;;
  close_pipes pipes ;;;
  if is_background then ret 0%Z
  else
    last_status <- wait_loop pids (last pids 0) 0%Z ;;
    ret (status_to_exitcode last_status).

Definition no_redirection (st : Stage) : bool :=
  match st_in st, st_out st with
  | None, None => true
  | _, _ => false
  end.

(** The case in which [run_pipeline] and [main] call the builtin in the
    interpreter itself. *)
Definition runs_in_process (stages : list Stage) : bool :=
  match stages with
  | [st] => is_builtin (st_argv st) && no_redirection st
  | _ => false
  end.

Definition run_pipeline (stages : list Stage) (is_background : bool) : M Z :=
  match stages with
  | [st] =>
      if is_builtin (st_argv st) then
        if no_redirection st then run_builtin (st_argv st)
        else
          pid <- os_fork (child_builtin st) ;;
          if is_background then ret 0%Z
          else
            status <- os_waitpid pid ;;
            ret (status_to_exitcode status)
      else run_stages stages is_background
  | _ => run_stages stages is_background
  end.

(** *** One round of the loop of [main], from the line read *)

Definition report (rc : Z) : M unit :=
  eprint (lit "Program terminated with exit code " ++ str_of_Z rc ++ lit ".").

(** What [main] does with the stages of a line. *)
Definition dispatch (stages : list Stage) (is_bg : bool) : M unit :=
  match stages with
  | [] => ret tt
  | st :: _ =>
      if (length stages =? 1) && is_builtin (st_argv st)
         && no_redirection st
      then
        rc <- run_builtin (st_argv st) ;;
        if negb (rc =? 0)%Z then report rc else ret tt
      else
        rc <- run_pipeline stages is_bg ;;
        if negb is_bg && negb (rc =? 0)%Z then report rc else ret tt
  end.

Definition main_step (line : str) : M unit :=
  try_except
    (let line := strip line in
     if negb (nonempty line) then ret tt
     else
       let (stages, is_bg) := parse_line_into_stages line in
       dispatch stages is_bg)
    (fun ex => eprint (lit "error: " ++ ex)).

(* ================================================================= *)
(** ** Auxiliary notions for the statements *)

(** The later value, when there is one. *)
Definition or_earlier (later earlier : option str) : option str :=
  match later with
  | Some x => Some x
  | None => earlier
  end.

(** The identifiers in the table of children are older than the next one
    the kernel hands out. *)
Definition kernel_wf (k : Kernel) : Prop :=
  Forall (fun e => fst e < k_next_pid k) (k_children k).

(** The children that [spawn_loop] creates, one after the other. *)
Fixpoint spawn_recs (i n : nat) (pipes : list (nat * nat))
    (stages : list Stage) (k : Kernel) : list ChildRec :=
  match stages with
  | [] => []
  | st :: more =>
      let r := child_record (child_stage i n pipes st) (child_view k) in
      r :: spawn_recs (S i) n pipes more (after_fork r k)
  end.

Definition after_forks (recs : list ChildRec) (k : Kernel) : Kernel :=
  fold_left (fun k r => after_fork r k) recs k.

(** The parent's kernel state once it has waited for [pid]. *)
Definition after_wait (pid : nat) (k : Kernel) : Kernel :=
  add_event (EvWait pid) (set_children (child_remove pid (k_children k)) k).

Definition after_waits (pids : list nat) (k : Kernel) : Kernel :=
  fold_left (fun k p => after_wait p k) pids k.

(** The children that [run_stages] creates. *)
Definition pipeline_children (stages : list Stage) (k : Kernel)
  : list ChildRec :=
  match make_pipes (length stages - 1) [] k with
  | (Ret pipes, k1) => spawn_recs 0 (length stages) pipes stages k1
  | _ => []
  end.

(** The children that [run_pipeline] creates, in creation order. *)
Definition spawned_by (stages : list Stage) (k : Kernel) : list ChildRec :=
  match stages with
  | [st] =>
      if is_builtin (st_argv st) then
        if no_redirection st then []
        else [child_record (child_builtin st) (child_view k)]
      else pipeline_children stages k
  | _ => pipeline_children stages k
  end.

(** The interpreter's own process is untouched: same working directory,
    same environment, same open descriptors. *)
Definition same_process (k k' : Kernel) : Prop :=
  k_cwd k' = k_cwd k /\ k_environ k' = k_environ k /\
  (forall fd, fd_lookup fd (k_fds k') = fd_lookup fd (k_fds k)).

(** [k'] is [k] after the children [recs] were created and every one of
    them was waited for, in creation order. *)
Definition reaped (k : Kernel) (recs : list ChildRec) (k' : Kernel) : Prop :=
  same_process k k' /\
  k_spawned k' = k_spawned k ++ recs /\
  k_trace k' = k_trace k ++ map EvFork (map c_pid recs)
                         ++ map EvWait (map c_pid recs) /\
  k_children k' = k_children k /\
  kernel_wf k'.

(** [k'] is [k] after the children [recs] were created and left alone:
    no wait, and the children stay in the table. *)
Definition detached (k : Kernel) (recs : list ChildRec) (k' : Kernel)
  : Prop :=
  same_process k k' /\
  k_spawned k' = k_spawned k ++ recs /\
  k_trace k' = k_trace k ++ map EvFork (map c_pid recs) /\
  (forall e, In e (k_children k') <->
             In e (k_children k)
             \/ In e (map (fun r => (c_pid r, c_status r)) recs)).

(** The entries of the table of children that are not for [pids]. *)
Definition not_among (pids : list nat) (e : nat * Z) : bool :=
  negb (existsb (Nat.eqb (fst e)) pids).

(** Whatever [m] writes, it writes to descriptor 2. *)
Definition writes_only_stderr {A : Type} (m : M A) : Prop :=
  forall k fd text,
    In (EvWrite fd text) (k_trace (snd (m k))) ->
    In (EvWrite fd text) (k_trace k) \/ fd = 2.

(** [sep.join(parts)] for a one-character separator. *)
Fixpoint str_join (sep : ascii) (parts : list str) : str :=
  match parts with
  | [] => []
  | [x] => x
  | x :: more => x ++ sep :: str_join sep more
  end.



Definition pipe_fds (pipes : list (nat * nat)) : list nat :=
  flat_map (fun p => [fst p; snd p]) pipes.

Definition VT : ascii := ascii_of_nat 11.

(** A small world: three programs in [/bin], of which [false] ends with
    exit code 1 and the others with 0; a directory [/tmp]; a readable file
    [f]; everything can be opened for writing. *)
Definition demo_oracle : Oracle :=
  mkOracle
    (fun _ p => str_eqb p (lit "/bin/true") || str_eqb p (lit "/bin/false")
                || str_eqb p (lit "/bin/echo"))
    (fun _ _ => true)
    (fun _ p => if str_eqb p (lit "/tmp") then inl p
                else inr (lit "[Errno 2] No such file or directory"))
    (fun _ p w => if w || str_eqb p (lit "f") then None
                  else Some (lit "[Errno 2] No such file or directory"))
    (fun _ _ _ => None)
    (fun _ p _ => if str_eqb p (lit "/bin/false") then 256%Z else 0%Z)
    (fun _ => 0%Z).

Definition demo_environ (name : str) : option str :=
  if str_eqb name (lit "PATH") then Some (lit "/bin")
  else if str_eqb name (lit "HOME") then Some (lit "/tmp")
  else None.

Definition demo_kernel : Kernel :=
  mkKernel (lit "/home") demo_environ
    [(0, Inherited 0); (1, Inherited 1); (2, Inherited 2)]
    100 [] [] [] [] demo_oracle.

(* ================================================================= *)
(** ** The prompt and the loop of [main] *)

Definition prompt_string (k : Kernel) : str :=
  match k_environ k (lit "PS1") with
  | Some ps1 => ps1
  | None => lit "$ "
  end.

Definition print_prompt : M unit :=
  ps1 <- read prompt_string ;;
  if nonempty ps1 then emit (EvWrite 1 ps1) else ret tt.

(** What one call of [sys.stdin.readline] in the loop of [main] does: it
    returns a line, the empty text at the end of the input, or an exception
    leaves it: [KeyboardInterrupt], or one that [except Exception]
    catches, such as the [UnicodeDecodeError] of an input that is not
    text. *)
Inductive Readline :=
| Line (text : str)
| Interrupt
| ReadError (msg : str).

(** The [while True] loop of [main], on what the calls of
    [sys.stdin.readline] do one after the other; an empty line, or the
    end of the list, is the end of the input.  A [KeyboardInterrupt] is
    followed where it arrives while the interpreter waits for a line, not
    at another point of the loop; the banner that [main] prints before the
    loop is left out. *)
Fixpoint main_loop (input : list Readline) : M unit :=
  match input with
  | [] => print_prompt
  | Line line :: more =>
      print_prompt ;;;
      if negb (nonempty line) then ret tt
      else main_step line ;;; main_loop more
  | Interrupt :: more =>
      print_prompt ;;; emit (EvWrite 1 [newline_ch]) ;;; main_loop more
  | ReadError msg :: more =>
      print_prompt ;;; eprint (lit "error: " ++ msg) ;;; main_loop more
  end.

(* ================================================================= *)
(** ** More auxiliary notions *)

(** What no token can start with: the end of the segment, or a quote that
    is never closed. *)
Definition no_token_start (rest : str) : Prop :=
  match rest with
  | [] => True
  | q :: t => is_quote q = true /\ ~ In q t
  end.

(** The quoting flags of [split_pipeline] after it has read [line]. *)
Fixpoint quote_flags (line : str) (in_s in_d : bool) : bool * bool :=
  match line with
  | [] => (in_s, in_d)
  | ch :: rest =>
      if Ascii.eqb ch squote && negb in_d then
        quote_flags rest (negb in_s) in_d
      else if Ascii.eqb ch dquote && negb in_s then
        quote_flags rest in_s (negb in_d)
      else quote_flags rest in_s in_d
  end.

(** A text that starts and ends with a character that is not white space,
    or is empty. *)
Definition trimmed (l : str) : Prop :=
  match l with
  | [] => True
  | c :: _ => isspace c = false /\ isspace (last l c) = false
  end.

(** The two tokens that [parse_redirections] looks for. *)
Definition is_operator (t : str) : bool :=
  str_eqb t lt_tok || str_eqb t gt_tok.

(** The descriptor table after [path] was opened and put at [target]. *)
Definition redirected (path : str) (for_writing : bool) (target : nat)
    (t : list (nat * FdObj)) : list (nat * FdObj) :=
  let fd := lowest_free t in
  let o := if for_writing then FileWrite path else FileRead path in
  fd_remove fd (fd_set target o (fd_set fd o t)).

(** The small world with the standard input closed. *)
Definition demo_kernel_no_stdin : Kernel :=
  set_fds [(1, Inherited 1); (2, Inherited 2)] demo_kernel.

(** The small world with its directory: [/bin/] answers [os.stat] and
    may be searched, but is no program. *)
Definition demo_oracle_dirs : Oracle :=
  mkOracle
    (fun c p => fs_stat demo_oracle c p || str_eqb p (lit "/bin/"))
    (fs_access_x demo_oracle)
    (fs_chdir demo_oracle)
    (fs_open demo_oracle)
    (fun _ p _ => if str_eqb p (lit "/bin/")
                  then Some (lit "[Errno 13] Permission denied: '/bin/'")
                  else None)
    (prog_status demo_oracle)
    (stray_status demo_oracle).

Definition demo_kernel_dirs : Kernel :=
  mkKernel (lit "/home") demo_environ
    [(0, Inherited 0); (1, Inherited 1); (2, Inherited 2)]
    100 [] [] [] [] demo_oracle_dirs.

(** From [k] to [k'] the environment is kept and whatever was written
    went to descriptor 2. *)
Definition tidy_step (k k' : Kernel) : Prop :=
  k_environ k' = k_environ k /\
  forall fd text,
    In (EvWrite fd text) (k_trace k') ->
    In (EvWrite fd text) (k_trace k) \/ fd = 2.

Definition tidy {A : Type} (m : M A) : Prop :=
  forall k, tidy_step k (snd (m k)).

(** The line that [main] writes for the status [rc]. *)
Definition report_line (rc : Z) : Event :=
  EvWrite 2
    ((lit "Program terminated with exit code " ++ str_of_Z rc ++ lit ".")
     ++ [newline_ch]).

(** What [print_prompt] writes. *)
Definition prompt_events (k : Kernel) : list Event :=
  if nonempty (prompt_string k) then [EvWrite 1 (prompt_string k)] else [].

(** From [k] to [k'] the environment is kept and whatever was written
    went to descriptor 2, or is the prompt on descriptor 1, or, when
    [interrupted] holds, a newline on descriptor 1. *)
Definition prompted (interrupted : Prop) (k k' : Kernel) : Prop :=
  k_environ k' = k_environ k /\
  forall fd text,
    In (EvWrite fd text) (k_trace k') ->
    In (EvWrite fd text) (k_trace k) \/ fd = 2 \/
    (fd = 1 /\ text = prompt_string k /\ text <> []) \/
    (fd = 1 /\ text = [newline_ch] /\ interrupted).

(* ================================================================= *)
(** ** Strings: basic facts *)

Lemma str_eqb_eq (a b : str) : str_eqb a b = true <-> a = b.
Proof.
  revert b; induction a as [|x a IH]; intros [|y b]; simpl; split;
    try congruence; try reflexivity.
  - rewrite andb_true_iff, Ascii.eqb_eq, IH. intros [-> ->]. reflexivity.
  - intros E; injection E as -> ->.
    rewrite Ascii.eqb_refl. simpl. apply IH. reflexivity.
Qed.

Lemma str_eqb_refl (a : str) : str_eqb a a = true.
Proof. apply str_eqb_eq. reflexivity. Qed.

Lemma str_eqb_neq (a b : str) : a <> b -> str_eqb a b = false.
Proof.
  intros N. destruct (str_eqb a b) eqn:E; [|reflexivity].
  apply str_eqb_eq in E. contradiction.
Qed.

Lemma until_ch_sound (q : ascii) (l a b : str) :
  until_ch q l = Some (a, b) -> l = a ++ q :: b /\ ~ In q a.
Proof.
  revert a b; induction l as [|c t IH]; simpl; intros a b H; [discriminate|].
  destruct (Ascii.eqb c q) eqn:E.
  - apply Ascii.eqb_eq in E. injection H as <- <-. subst. simpl. auto.
  - destruct (until_ch q t) as [[a' b']|]; [|discriminate].
    injection H as <- <-. destruct (IH a' b' eq_refl) as [-> N].
    split; [reflexivity|]. simpl. intros [->|I]; [|auto].
    rewrite Ascii.eqb_refl in E. discriminate.
Qed.

Lemma until_ch_found (q : ascii) (a b : str) :
  ~ In q a -> until_ch q (a ++ q :: b) = Some (a, b).
Proof.
  induction a as [|c a IH]; simpl; intros N.
  - rewrite Ascii.eqb_refl. reflexivity.
  - destruct (Ascii.eqb c q) eqn:E.
    + apply Ascii.eqb_eq in E. exfalso. auto.
    + rewrite IH by auto. reflexivity.
Qed.

Lemma until_ch_absent (q : ascii) (l : str) :
  ~ In q l -> until_ch q l = None.
Proof.
  induction l as [|c t IH]; simpl; intros N; [reflexivity|].
  destruct (Ascii.eqb c q) eqn:E.
  - apply Ascii.eqb_eq in E. exfalso. auto.
  - rewrite IH by auto. reflexivity.
Qed.

Lemma span_app (p : ascii -> bool) (l a b : str) :
  span p l = (a, b) -> l = a ++ b.
Proof.
  revert a b; induction l as [|c t IH]; simpl; intros a b H.
  - injection H as <- <-. reflexivity.
  - destruct (p c).
    + destruct (span p t) as [a' b']. injection H as <- <-.
      simpl. f_equal. apply IH. reflexivity.
    + injection H as <- <-. reflexivity.
Qed.

Lemma span_all (p : ascii -> bool) (l a b : str) :
  span p l = (a, b) -> forallb p a = true.
Proof.
  revert a b; induction l as [|c t IH]; simpl; intros a b H.
  - injection H as <- <-. reflexivity.
  - destruct (p c) eqn:E.
    + destruct (span p t) as [a' b']. injection H as <- <-.
      simpl. rewrite E. simpl. eapply IH. reflexivity.
    + injection H as <- <-. reflexivity.
Qed.

Lemma span_maximal (p : ascii -> bool) (l a b : str) :
  span p l = (a, b) -> match b with [] => True | c :: _ => p c = false end.
Proof.
  revert a b; induction l as [|c t IH]; simpl; intros a b H.
  - injection H as <- <-. exact I.
  - destruct (p c) eqn:E.
    + destruct (span p t) as [a' b']. injection H as <- <-.
      eapply IH. reflexivity.
    + injection H as <- <-. exact E.
Qed.

Lemma span_head (p : ascii -> bool) (c : ascii) (t : str) :
  p c = true -> exists a b, span p (c :: t) = (c :: a, b).
Proof.
  intros E. simpl. rewrite E. destruct (span p t) as [a b]. eauto.
Qed.

Lemma span_exact (p : ascii -> bool) (w r : str) :
  forallb p w = true ->
  match r with [] => True | c :: _ => p c = false end ->
  span p (w ++ r) = (w, r).
Proof.
  intros F R. induction w as [|c w IH]; simpl.
  - destruct r as [|x r]; [reflexivity|]. simpl. rewrite R. reflexivity.
  - simpl in F. apply andb_true_iff in F as [-> F]. rewrite IH by exact F.
    reflexivity.
Qed.

Lemma until_ch_present (q : ascii) (l : str) :
  In q l -> exists a b, until_ch q l = Some (a, b).
Proof.
  induction l as [|c t IH]; simpl; [contradiction|].
  destruct (Ascii.eqb c q) eqn:E; [eauto|].
  intros [->|I]; [rewrite Ascii.eqb_refl in E; discriminate|].
  destruct (IH I) as (a & b & ->). eauto.
Qed.

(* ================================================================= *)
(** ** The tokenizer: what a match consumes, and the loop's equations *)

Lemma match_group_shape (u tok rest : str) :
  match_group u = Some (tok, rest) -> u = tok ++ rest /\ tok <> [].
Proof.
  destruct u as [|c t]; [discriminate|]. unfold match_group.
  destruct (Ascii.eqb c squote) eqn:E1.
  { apply Ascii.eqb_eq in E1. subst c.
    destruct (until_ch squote t) as [[body r]|] eqn:U; [|discriminate].
    intros H; injection H as <- <-. apply until_ch_sound in U as [-> _].
    split; [|discriminate]. simpl. rewrite <- app_assoc. reflexivity. }
  destruct (Ascii.eqb c dquote) eqn:E2.
  { apply Ascii.eqb_eq in E2. subst c.
    destruct (until_ch dquote t) as [[body r]|] eqn:U; [|discriminate].
    intros H; injection H as <- <-. apply until_ch_sound in U as [-> _].
    split; [|discriminate]. simpl. rewrite <- app_assoc. reflexivity. }
  destruct (is_bare c) eqn:E3; [|discriminate].
  destruct (span_head is_bare c t E3) as (a & b & S).
  rewrite S. intros H; injection H as <- <-.
  apply span_app in S. split; [exact S|discriminate].
Qed.

Lemma token_re_match_shorter (u tok rest : str) :
  token_re_match u = Some (tok, rest) -> length rest < length u.
Proof.
  revert tok rest; induction u as [|c t IH]; intros tok rest; [discriminate|].
  assert (G : match_group (c :: t) = Some (tok, rest) ->
              length rest < length (c :: t)).
  { intros H. apply match_group_shape in H as [E N]. rewrite E.
    rewrite length_app. destruct tok; [congruence|simpl; lia]. }
  cbn [token_re_match]. destruct (isspace c); [|exact G].
  destruct (token_re_match t) as [[tok' rest']|] eqn:T; [|exact G].
  intros H; injection H as <- <-. specialize (IH _ _ eq_refl). simpl. lia.
Qed.

Lemma tokenize_loop_fuel (f1 f2 : nat) (cmd : str) :
  length cmd <= f1 -> length cmd <= f2 ->
  tokenize_loop f1 cmd = tokenize_loop f2 cmd.
Proof.
  revert f2 cmd; induction f1 as [|f1 IH]; intros f2 cmd L1 L2.
  - destruct cmd; [|simpl in L1; lia]. destruct f2; reflexivity.
  - destruct cmd as [|c t]; [destruct f2; reflexivity|].
    destruct f2 as [|f2]; [simpl in L2; lia|].
    simpl in L1, L2. cbn [tokenize_loop].
    destruct (token_re_match (c :: t)) as [[tok rest]|] eqn:T.
    + apply token_re_match_shorter in T. simpl in T.
      f_equal. apply IH; lia.
    + destruct (isspace c); [|f_equal]; apply IH; lia.
Qed.

(** One round of the loop of [tokenize]. *)
Lemma tokenize_cons (c : ascii) (t : str) :
  tokenize (c :: t) =
  match token_re_match (c :: t) with
  | None => if isspace c then tokenize t else [c] :: tokenize t
  | Some (tok, rest) => strip_quotes tok :: tokenize rest
  end.
Proof.
  unfold tokenize. cbn [length tokenize_loop].
  destruct (token_re_match (c :: t)) as [[tok rest]|] eqn:T.
  - apply token_re_match_shorter in T. simpl in T.
    f_equal. apply tokenize_loop_fuel; lia.
  - reflexivity.
Qed.

(** Facts about single characters are decided by trying all 256 of them. *)
Ltac all_chars c :=
  destruct c as [[] [] [] [] [] [] [] []]; vm_compute; try reflexivity;
  try discriminate; auto.

Lemma is_blank_isspace (c : ascii) : is_blank c = true -> isspace c = true.
Proof. all_chars c. Qed.

Lemma is_quote_not_space (c : ascii) : is_quote c = true -> isspace c = false.
Proof. all_chars c. Qed.

Lemma is_bare_classes (c : ascii) :
  is_bare c = negb (is_blank c) && negb (is_quote c).
Proof. all_chars c. Qed.

Lemma is_quote_cases (c : ascii) :
  is_quote c = true -> c = squote \/ c = dquote.
Proof.
  unfold is_quote. rewrite orb_true_iff, !Ascii.eqb_eq. tauto.
Qed.

Lemma strip_quotes_quoted (q : ascii) (body : str) :
  is_quote q = true -> strip_quotes (q :: body ++ [q]) = body.
Proof.
  intros Q. unfold strip_quotes.
  assert (L : last (q :: body ++ [q]) q = q).
  { change (q :: body ++ [q]) with ((q :: body) ++ [q]). apply last_last. }
  rewrite L, removelast_last.
  assert (N : (2 <=? length (q :: body ++ [q])) = true).
  { apply Nat.leb_le. simpl. rewrite length_app. simpl. lia. }
  rewrite N. simpl. unfold is_quote in Q.
  destruct (Ascii.eqb q squote), (Ascii.eqb q dquote);
    simpl in *; congruence.
Qed.

Lemma strip_quotes_plain (c : ascii) (t : str) :
  is_quote c = false -> strip_quotes (c :: t) = c :: t.
Proof.
  unfold is_quote, strip_quotes. intros Q.
  apply orb_false_iff in Q as [-> ->].
  rewrite andb_false_r. reflexivity.
Qed.

Lemma match_group_blank (c : ascii) (t : str) :
  is_blank c = true -> match_group (c :: t) = None.
Proof.
  intros B. unfold match_group.
  replace (Ascii.eqb c squote) with false by (revert B; all_chars c).
  replace (Ascii.eqb c dquote) with false by (revert B; all_chars c).
  replace (is_bare c) with false by (revert B; all_chars c).
  reflexivity.
Qed.

Lemma match_group_quoted (q : ascii) (body rest : str) :
  is_quote q = true -> ~ In q body ->
  match_group (q :: body ++ q :: rest) = Some (q :: body ++ [q], rest).
Proof.
  intros Q N. unfold match_group.
  destruct (is_quote_cases q Q) as [-> | ->].
  - rewrite Ascii.eqb_refl, until_ch_found by exact N. reflexivity.
  - replace (Ascii.eqb dquote squote) with false by reflexivity.
    rewrite Ascii.eqb_refl, until_ch_found by exact N. reflexivity.
Qed.

Lemma match_group_unmatched (q : ascii) (t : str) :
  is_quote q = true -> ~ In q t -> match_group (q :: t) = None.
Proof.
  intros Q N. unfold match_group.
  destruct (is_quote_cases q Q) as [-> | ->].
  - rewrite Ascii.eqb_refl, until_ch_absent by exact N. reflexivity.
  - replace (Ascii.eqb dquote squote) with false by reflexivity.
    rewrite Ascii.eqb_refl, until_ch_absent by exact N. reflexivity.
Qed.

Lemma match_group_bare (c : ascii) (t : str) :
  is_quote c = false -> is_bare c = true ->
  match_group (c :: t) = Some (span is_bare (c :: t)).
Proof.
  intros Q B. unfold match_group. unfold is_quote in Q.
  apply orb_false_iff in Q as [-> ->]. rewrite B. reflexivity.
Qed.

Lemma tokenize_nil : tokenize [] = [].
Proof. reflexivity. Qed.

(** A space, TAB, CR or LF before a token is skipped. *)
Lemma tokenize_blank (c : ascii) (t : str) :
  is_blank c = true -> tokenize (c :: t) = tokenize t.
Proof.
  intros B. rewrite tokenize_cons. cbn [token_re_match].
  rewrite (is_blank_isspace c B), (match_group_blank c t B).
  destruct (token_re_match t) as [[tok rest]|] eqn:T; [|reflexivity].
  destruct t as [|c' t']; [discriminate|].
  rewrite (tokenize_cons c' t'), T. reflexivity.
Qed.

(** A quoted run gives its text without the delimiters. *)
Lemma tokenize_quoted (q : ascii) (body rest : str) :
  is_quote q = true -> ~ In q body ->
  tokenize (q :: body ++ q :: rest) = body :: tokenize rest.
Proof.
  intros Q N. rewrite tokenize_cons. cbn [token_re_match].
  rewrite (is_quote_not_space q Q), (match_group_quoted q body rest Q N).
  rewrite strip_quotes_quoted by exact Q. reflexivity.
Qed.

(** A quote that is never closed is a token of one character. *)
Lemma tokenize_unmatched (q : ascii) (t : str) :
  is_quote q = true -> ~ In q t -> tokenize (q :: t) = [q] :: tokenize t.
Proof.
  intros Q N. rewrite tokenize_cons. cbn [token_re_match].
  rewrite (is_quote_not_space q Q), (match_group_unmatched q t Q N).
  reflexivity.
Qed.

(** At a character that is neither white space nor a quote, the token is
    the longest run of bare characters. *)
Lemma tokenize_bare (c : ascii) (t run rest : str) :
  isspace c = false -> is_quote c = false ->
  span is_bare (c :: t) = (run, rest) ->
  tokenize (c :: t) = run :: tokenize rest.
Proof.
  intros W Q S. rewrite tokenize_cons. cbn [token_re_match]. rewrite W.
  assert (B : is_bare c = true).
  { rewrite is_bare_classes, Q.
    destruct (is_blank c) eqn:E; [|reflexivity].
    apply is_blank_isspace in E. congruence. }
  rewrite (match_group_bare c t Q B), S.
  destruct (span_head is_bare c t B) as (a & b & S').
  rewrite S in S'. injection S' as -> ->.
  rewrite strip_quotes_plain by exact Q. reflexivity.
Qed.

(* ================================================================= *)
(** ** White space in front of a token, and white space left over *)

Lemma tokenize_match (l tok rest : str) :
  token_re_match l = Some (tok, rest) ->
  tokenize l = strip_quotes tok :: tokenize rest.
Proof.
  destruct l as [|c t]; [discriminate|]. intros T.
  rewrite tokenize_cons, T. reflexivity.
Qed.

(** The greedy [\s*] stops where group 1 matches. *)
Lemma token_re_match_skip (ws : str) (c : ascii) (t : str)
    (r : str * str) :
  forallb isspace ws = true -> isspace c = false ->
  match_group (c :: t) = Some r ->
  token_re_match (ws ++ c :: t) = Some r.
Proof.
  intros F W G. induction ws as [|w ws IH]; simpl.
  - rewrite W. exact G.
  - simpl in F. apply andb_true_iff in F as [-> F].
    rewrite (IH F). reflexivity.
Qed.

Lemma match_group_starts (c : ascii) (t : str) :
  isspace c = false -> (is_quote c = true -> In c t) ->
  exists r, match_group (c :: t) = Some r.
Proof.
  intros W Q. destruct (is_quote c) eqn:E.
  - destruct (until_ch_present c t (Q eq_refl)) as (a & b & U).
    apply until_ch_sound in U as [-> N].
    rewrite (match_group_quoted c a b E N). eauto.
  - assert (B : is_bare c = true).
    { rewrite is_bare_classes, E.
      destruct (is_blank c) eqn:Bl; [|reflexivity].
      apply is_blank_isspace in Bl. congruence. }
    rewrite (match_group_bare c t E B). eauto.
Qed.

(** White space of any kind in front of a token is skipped. *)
Lemma tokenize_skip (ws : str) (c : ascii) (t : str) :
  forallb isspace ws = true -> isspace c = false ->
  (is_quote c = true -> In c t) ->
  tokenize (ws ++ c :: t) = tokenize (c :: t).
Proof.
  intros F W Q. destruct (match_group_starts c t W Q) as ([tok rest] & G).
  rewrite (tokenize_match _ (token_re_match_skip ws c t F W G)).
  pose proof (token_re_match_skip [] c t eq_refl W G) as G0.
  rewrite (tokenize_match (c :: t) G0). reflexivity.
Qed.

Lemma tokenize_blanks (ws rest : str) :
  forallb is_blank ws = true -> tokenize (ws ++ rest) = tokenize rest.
Proof.
  intros F. induction ws as [|w ws IH]; [reflexivity|].
  simpl in F. apply andb_true_iff in F as [B F].
  simpl. rewrite (tokenize_blank w _ B). apply IH, F.
Qed.

Lemma token_re_match_nothing (ws rest : str) :
  forallb is_blank ws = true -> no_token_start rest ->
  token_re_match (ws ++ rest) = None.
Proof.
  intros F N. induction ws as [|w ws IH]; simpl.
  - destruct rest as [|q t]; [reflexivity|]. destruct N as [Q N].
    cbn [token_re_match].
    rewrite (is_quote_not_space q Q). apply match_group_unmatched; assumption.
  - simpl in F. apply andb_true_iff in F as [B F].
    rewrite (is_blank_isspace w B), (IH F).
    apply match_group_blank, B.
Qed.

Lemma not_bare_start (ws rest : str) :
  forallb is_blank ws = true -> no_token_start rest ->
  match ws ++ rest with [] => True | c :: _ => is_bare c = false end.
Proof.
  intros F N. destruct ws as [|w ws]; simpl.
  - destruct rest as [|q t]; [exact I|]. destruct N as [Q _].
    rewrite is_bare_classes, Q. apply andb_false_r.
  - simpl in F. apply andb_true_iff in F as [B _].
    rewrite is_bare_classes, B. reflexivity.
Qed.

(** White space with nothing to skip to: the last of its characters that
    the class of a bare token takes is a token. *)
Lemma tokenize_stray_space (ws1 : str) (x : ascii) (ws2 rest : str) :
  forallb isspace ws1 = true ->
  isspace x = true -> is_blank x = false ->
  forallb is_blank ws2 = true -> no_token_start rest ->
  tokenize (ws1 ++ x :: ws2 ++ rest) = [x] :: tokenize rest.
Proof.
  intros F1 S B F2 N.
  assert (Q : is_quote x = false).
  { destruct (is_quote x) eqn:Q; [|reflexivity].
    apply is_quote_not_space in Q. congruence. }
  assert (Bare : is_bare x = true)
    by (rewrite is_bare_classes, B, Q; reflexivity).
  assert (M : token_re_match (x :: ws2 ++ rest) = Some ([x], ws2 ++ rest)).
  { cbn [token_re_match]. rewrite S, (token_re_match_nothing ws2 rest F2 N).
    rewrite (match_group_bare x _ Q Bare).
    change (x :: ws2 ++ rest) with ([x] ++ ws2 ++ rest).
    rewrite (span_exact is_bare [x] (ws2 ++ rest)); [reflexivity| |].
    - simpl. rewrite Bare. reflexivity.
    - apply not_bare_start; assumption. }
  assert (T : token_re_match (ws1 ++ x :: ws2 ++ rest)
              = Some ([x], ws2 ++ rest)).
  { clear - F1 M. induction ws1 as [|w ws IH]; [exact M|].
    simpl in F1. apply andb_true_iff in F1 as [W F1].
    simpl. rewrite W, (IH F1). reflexivity. }
  rewrite (tokenize_match _ T), (tokenize_blanks ws2 rest F2).
  rewrite strip_quotes_plain by exact Q. reflexivity.
Qed.

(* ================================================================= *)
(** ** The redirection parser *)

Lemma parse_redirections_loop_step (t nxt : str) (rest out : list str)
    (infile outfile : option str) :
  parse_redirections_loop (t :: nxt :: rest) out infile outfile =
  if str_eqb t lt_tok then
    parse_redirections_loop rest out (Some nxt) outfile
  else if str_eqb t gt_tok then
    parse_redirections_loop rest out infile (Some nxt)
  else parse_redirections_loop (nxt :: rest) (out ++ [t]) infile outfile.
Proof. reflexivity. Qed.

(** The loop, started in any state, adds to that state what it finds when
    started afresh. *)
Lemma parse_redirections_loop_acc (n : nat) :
  forall argv, length argv <= n ->
  forall out infile outfile,
    parse_redirections_loop argv out infile outfile =
    let '(out', in', out_f') := parse_redirections argv in
    (out ++ out', or_earlier in' infile, or_earlier out_f' outfile).
Proof.
  unfold parse_redirections.
  induction n as [|n IH]; intros argv L out infile outfile.
  - destruct argv; [|simpl in L; lia]. simpl. rewrite app_nil_r. reflexivity.
  - destruct argv as [|t [|nxt rest]].
    + simpl. rewrite app_nil_r. reflexivity.
    + simpl. reflexivity.
    + simpl in L. rewrite !parse_redirections_loop_step.
      destruct (str_eqb t lt_tok).
      { rewrite (IH rest ltac:(lia) out (Some nxt) outfile).
        rewrite (IH rest ltac:(lia) [] (Some nxt) None).
        destruct (parse_redirections_loop rest [] None None) as [[o i] f].
        destruct i, f; reflexivity. }
      destruct (str_eqb t gt_tok).
      { rewrite (IH rest ltac:(lia) out infile (Some nxt)).
        rewrite (IH rest ltac:(lia) [] None (Some nxt)).
        destruct (parse_redirections_loop rest [] None None) as [[o i] f].
        destruct i, f; reflexivity. }
      rewrite (IH (nxt :: rest) ltac:(simpl; lia) (out ++ [t]) infile outfile).
      rewrite (IH (nxt :: rest) ltac:(simpl; lia) ([] ++ [t]) None None).
      destruct (parse_redirections_loop (nxt :: rest) [] None None)
        as [[o i] f].
      rewrite <- app_assoc. simpl. destruct i, f; reflexivity.
Qed.

Lemma parse_redirections_in (f : str) (rest : list str) :
  parse_redirections (lt_tok :: f :: rest) =
  let '(out, infile, outfile) := parse_redirections rest in
  (out, Some (match infile with Some x => x | None => f end), outfile).
Proof.
  unfold parse_redirections at 1. rewrite parse_redirections_loop_step.
  rewrite str_eqb_refl.
  rewrite (parse_redirections_loop_acc (n := length rest)) by lia.
  destruct (parse_redirections rest) as [[o i] g]. destruct i, g; reflexivity.
Qed.

Lemma parse_redirections_out (f : str) (rest : list str) :
  parse_redirections (gt_tok :: f :: rest) =
  let '(out, infile, outfile) := parse_redirections rest in
  (out, infile, Some (match outfile with Some x => x | None => f end)).
Proof.
  unfold parse_redirections at 1. rewrite parse_redirections_loop_step.
  replace (str_eqb gt_tok lt_tok) with false by reflexivity.
  rewrite str_eqb_refl.
  rewrite (parse_redirections_loop_acc (n := length rest)) by lia.
  destruct (parse_redirections rest) as [[o i] g]. destruct i, g; reflexivity.
Qed.

Lemma parse_redirections_other (t : str) (rest : list str) :
  t <> lt_tok -> t <> gt_tok ->
  parse_redirections (t :: rest) =
  let '(out, infile, outfile) := parse_redirections rest in
  (t :: out, infile, outfile).
Proof.
  intros N1 N2.
  assert (E : parse_redirections_loop rest ([] ++ [t]) None None =
              let '(out, infile, outfile) := parse_redirections rest in
              (t :: out, infile, outfile)).
  { rewrite (parse_redirections_loop_acc (n := length rest)) by lia.
    destruct (parse_redirections rest) as [[o i] g].
    destruct i, g; reflexivity. }
  destruct rest as [|nxt rest]; [exact E|].
  unfold parse_redirections at 1. rewrite parse_redirections_loop_step.
  rewrite (str_eqb_neq N1), (str_eqb_neq N2). exact E.
Qed.



(* ================================================================= *)
(** ** The descriptor table *)

Lemma fd_lookup_remove (x fd : nat) (t : list (nat * FdObj)) :
  fd_lookup fd (fd_remove x t) = if x =? fd then None else fd_lookup fd t.
Proof.
  induction t as [|[n o] t IH]; simpl.
  - destruct (x =? fd); reflexivity.
  - destruct (n =? x) eqn:E1; simpl.
    + apply Nat.eqb_eq in E1. subst n. rewrite IH.
      destruct (x =? fd); reflexivity.
    + rewrite IH. destruct (n =? fd) eqn:E2; [|reflexivity].
      apply Nat.eqb_eq in E2. subst n. rewrite Nat.eqb_sym, E1. reflexivity.
Qed.

Lemma fd_lookup_set (x fd : nat) (o : FdObj) (t : list (nat * FdObj)) :
  fd_lookup fd (fd_set x o t) = if x =? fd then Some o else fd_lookup fd t.
Proof.
  unfold fd_set. simpl. rewrite fd_lookup_remove.
  destruct (x =? fd); reflexivity.
Qed.

Lemma fd_lookup_in (fd : nat) (o : FdObj) (t : list (nat * FdObj)) :
  fd_lookup fd t = Some o -> In fd (map fst t).
Proof.
  induction t as [|[n o'] t IH]; simpl; [discriminate|].
  destruct (n =? fd) eqn:E.
  - apply Nat.eqb_eq in E. auto.
  - auto.
Qed.

Lemma lowest_free_is_free (t : list (nat * FdObj)) :
  fd_lookup (lowest_free t) t = None.
Proof.
  unfold lowest_free.
  destruct (find (fd_is_free t) (seq 0 (S (length t)))) as [n|] eqn:F.
  - apply find_some in F as [_ F]. unfold fd_is_free in F.
    destruct (fd_lookup n t); [discriminate|reflexivity].
  - destruct (fd_lookup (S (list_max (map fst t))) t) as [o|] eqn:L;
      [|reflexivity].
    apply fd_lookup_in in L.
    assert (B : Forall (fun x => x <= list_max (map fst t)) (map fst t))
      by (apply list_max_le; lia).
    rewrite Forall_forall in B. apply B in L. lia.
Qed.

(* ================================================================= *)
(** ** Running interpreter code *)

Lemma bind_ret {A B : Type} (m : M A) (f : A -> M B) (k k' : Kernel) (a : A) :
  m k = (Ret a, k') -> bind m f k = f a k'.
Proof. unfold bind. intros ->. reflexivity. Qed.

Lemma set_fds_twice (t t' : list (nat * FdObj)) (k : Kernel) :
  set_fds t' (set_fds t k) = set_fds t' k.
Proof. reflexivity. Qed.

(** The pipes of a pipeline occupy descriptors that were free, and leave
    the others as they were. *)
Lemma make_pipes_fresh (count : nat) :
  forall pipes k, exists fresh t,
    make_pipes count pipes k = (Ret (pipes ++ fresh), set_fds t k) /\
    length fresh = count /\
    (forall fd, ~ In fd (pipe_fds fresh) ->
                fd_lookup fd t = fd_lookup fd (k_fds k)) /\
    (forall fd, In fd (pipe_fds fresh) -> fd_lookup fd (k_fds k) = None).
Proof.
  induction count as [|count IH]; intros pipes k.
  - exists [], (k_fds k). simpl. rewrite app_nil_r.
    repeat split; try tauto. destruct k; reflexivity.
  - cbn [make_pipes].
    set (r := lowest_free (k_fds k)).
    set (t1 := fd_set r (PipeRead (length pipes)) (k_fds k)).
    set (w := lowest_free t1).
    set (t2 := fd_set w (PipeWrite (length pipes)) t1).
    assert (P : os_pipe (length pipes) k = (Ret (r, w), set_fds t2 k))
      by reflexivity.
    erewrite bind_ret by exact P.
    destruct (IH (pipes ++ [(r, w)]) (set_fds t2 k))
      as (fresh & t & E & L & Keep & Free).
    assert (Fr : fd_lookup r (k_fds k) = None)
      by apply lowest_free_is_free.
    assert (Fw : fd_lookup w t1 = None) by apply lowest_free_is_free.
    unfold t1 in Fw. rewrite fd_lookup_set in Fw.
    destruct (r =? w) eqn:Erw; [discriminate|].
    exists ((r, w) :: fresh), t. rewrite E, set_fds_twice, <- app_assoc.
    split; [reflexivity|]. split; [simpl; lia|]. split.
    + intros fd N. simpl in N. rewrite Keep by tauto.
      change (k_fds (set_fds t2 k)) with t2.
      unfold t2, t1. rewrite !fd_lookup_set.
      destruct (w =? fd) eqn:E1; [apply Nat.eqb_eq in E1; tauto|].
      destruct (r =? fd) eqn:E2; [apply Nat.eqb_eq in E2; tauto|].
      reflexivity.
    + intros fd I. simpl in I. destruct I as [<- | [<- | I]];
        [exact Fr | exact Fw |].
      apply Free in I. change (k_fds (set_fds t2 k)) with t2 in I.
      unfold t2, t1 in I.
      rewrite !fd_lookup_set in I.
      destruct (w =? fd); [discriminate|].
      destruct (r =? fd); [discriminate|]. exact I.
Qed.

Lemma close_pipes_closed (pipes : list (nat * nat)) :
  forall k, exists t,
    close_pipes pipes k = (Ret tt, set_fds t k) /\
    (forall fd, In fd (pipe_fds pipes) -> fd_lookup fd t = None) /\
    (forall fd, ~ In fd (pipe_fds pipes) ->
                fd_lookup fd t = fd_lookup fd (k_fds k)).
Proof.
  induction pipes as [|[pr pw] more IH]; intros k.
  - exists (k_fds k). simpl. repeat split; try tauto.
    destruct k; reflexivity.
  - cbn [close_pipes].
    set (t2 := fd_remove pw (fd_remove pr (k_fds k))).
    destruct (IH (set_fds t2 k)) as (t & E & Closed & Keep).
    exists t. split.
    + unfold bind, os_close. simpl. exact E.
    + split; intros fd H; simpl in H.
      * destruct (in_dec Nat.eq_dec fd (pipe_fds more)) as [I|N];
          [apply Closed, I|].
        rewrite Keep by exact N. change (k_fds (set_fds t2 k)) with t2.
        unfold t2. rewrite !fd_lookup_remove.
        destruct H as [<- | [<- | I]]; [| |contradiction].
        -- rewrite Nat.eqb_refl. destruct (pw =? pr); reflexivity.
        -- rewrite Nat.eqb_refl. reflexivity.
      * rewrite Keep by tauto. change (k_fds (set_fds t2 k)) with t2.
        unfold t2. rewrite !fd_lookup_remove.
        destruct (pw =? fd) eqn:E1; [apply Nat.eqb_eq in E1; tauto|].
        destruct (pr =? fd) eqn:E2; [apply Nat.eqb_eq in E2; tauto|].
        reflexivity.
Qed.

(* ================================================================= *)
(** ** The table of children *)

Lemma child_lookup_app (p : nat) (l1 l2 : list (nat * Z)) :
  child_lookup p (l1 ++ l2) =
  match child_lookup p l1 with
  | Some s => Some s
  | None => child_lookup p l2
  end.
Proof.
  induction l1 as [|[q s] l1 IH]; simpl; [reflexivity|].
  destruct (q =? p); [reflexivity|exact IH].
Qed.

Lemma child_lookup_insert_other (p q pos : nat) (s : Z) (l : list (nat * Z)) :
  q <> p ->
  child_lookup p (insert_at pos (q, s) l) = child_lookup p l.
Proof.
  intros N. unfold insert_at.
  rewrite <- (firstn_skipn pos l) at 3. rewrite !child_lookup_app. simpl.
  apply Nat.eqb_neq in N. rewrite N. reflexivity.
Qed.

Lemma child_lookup_older (p : nat) (l : list (nat * Z)) :
  Forall (fun e => fst e < p) l -> child_lookup p l = None.
Proof.
  induction 1 as [|[q s] l H _ IH]; simpl; [reflexivity|].
  simpl in H. destruct (q =? p) eqn:E; [|exact IH].
  apply Nat.eqb_eq in E. lia.
Qed.

Lemma child_lookup_insert_same (p pos : nat) (s : Z) (l : list (nat * Z)) :
  Forall (fun e => fst e < p) l ->
  child_lookup p (insert_at pos (p, s) l) = Some s.
Proof.
  intros F. unfold insert_at. rewrite child_lookup_app.
  rewrite child_lookup_older.
  - simpl. rewrite Nat.eqb_refl. reflexivity.
  - rewrite Forall_forall in *. intros e I. apply F.
    rewrite <- (firstn_skipn pos l). apply in_or_app. auto.
Qed.

Lemma child_lookup_remove_other (p q : nat) (l : list (nat * Z)) :
  q <> p -> child_lookup p (child_remove q l) = child_lookup p l.
Proof.
  intros N. induction l as [|[x s] l IH]; simpl; [reflexivity|].
  destruct (x =? q) eqn:E1; simpl.
  - apply Nat.eqb_eq in E1. subst x. apply Nat.eqb_neq in N. rewrite N.
    exact IH.
  - rewrite IH. reflexivity.
Qed.

Lemma in_insert_at {A : Type} (pos : nat) (x y : A) (l : list A) :
  In y (insert_at pos x l) <-> y = x \/ In y l.
Proof.
  unfold insert_at. rewrite <- (firstn_skipn pos l) at 3.
  rewrite !in_app_iff. simpl. intuition congruence.
Qed.

Lemma filter_insert_at_out {A : Type} (f : A -> bool) (pos : nat) (x : A)
    (l : list A) :
  f x = false -> filter f (insert_at pos x l) = filter f l.
Proof.
  intros E. unfold insert_at. rewrite <- (firstn_skipn pos l) at 3.
  rewrite !filter_app. simpl. rewrite E. reflexivity.
Qed.

Lemma filter_all {A : Type} (f : A -> bool) (l : list A) :
  (forall x, In x l -> f x = true) -> filter f l = l.
Proof.
  induction l as [|x l IH]; simpl; intros H; [reflexivity|].
  rewrite (H x) by auto. f_equal. apply IH. auto.
Qed.

(* ================================================================= *)
(** ** Creating children *)

Lemma child_record_pid (child : M Empty_set) (v : Kernel) :
  c_pid (child_record child v) = k_next_pid v.
Proof. unfold child_record. destruct (child v). reflexivity. Qed.

Lemma spawn_recs_length (stages : list Stage) :
  forall i n pipes k,
    length (spawn_recs i n pipes stages k) = length stages.
Proof.
  induction stages as [|st more IH]; intros; simpl; [reflexivity|].
  rewrite IH. reflexivity.
Qed.

Lemma spawn_recs_pids (stages : list Stage) :
  forall i n pipes k,
    map c_pid (spawn_recs i n pipes stages k) =
    seq (k_next_pid k) (length stages).
Proof.
  induction stages as [|st more IH]; intros; simpl; [reflexivity|].
  rewrite child_record_pid, IH. reflexivity.
Qed.

Lemma spawn_loop_eq (stages : list Stage) :
  forall i n pipes pids k,
    spawn_loop i n pipes stages pids k =
    (Ret (pids ++ map c_pid (spawn_recs i n pipes stages k)),
     after_forks (spawn_recs i n pipes stages k) k).
Proof.
  induction stages as [|st more IH]; intros; simpl.
  - rewrite app_nil_r. reflexivity.
  - unfold bind at 1. unfold os_fork at 1. rewrite IH, <- app_assoc.
    reflexivity.
Qed.

(** A child's life depends on the parent's state only through what the
    child inherits. *)
Lemma spawn_recs_view (stages : list Stage) :
  forall i n pipes k1 k2,
    child_view k1 = child_view k2 ->
    spawn_recs i n pipes stages k1 = spawn_recs i n pipes stages k2.
Proof.
  induction stages as [|st more IH]; intros i n pipes k1 k2 V; simpl;
    [reflexivity|].
  rewrite V. f_equal. apply IH.
  unfold child_view in *. simpl. injection V as -> -> -> -> ->. reflexivity.
Qed.

Lemma after_forks_frame (recs : list ChildRec) : forall k,
  k_cwd (after_forks recs k) = k_cwd k /\
  k_environ (after_forks recs k) = k_environ k /\
  k_fds (after_forks recs k) = k_fds k /\
  k_oracle (after_forks recs k) = k_oracle k /\
  k_next_pid (after_forks recs k) = k_next_pid k + length recs /\
  k_spawned (after_forks recs k) = k_spawned k ++ recs /\
  k_trace (after_forks recs k) = k_trace k ++ map EvFork (map c_pid recs).
Proof.
  unfold after_forks. induction recs as [|r rs IH]; intros k; simpl.
  - rewrite !app_nil_r, Nat.add_0_r. tauto.
  - destruct (IH (after_fork r k)) as (-> & -> & -> & -> & -> & -> & ->).
    simpl. rewrite <- !app_assoc. simpl.
    repeat split; try reflexivity. lia.
Qed.

(** The table holds the children it held and the new ones. *)
Lemma after_forks_in (recs : list ChildRec) : forall k e,
  In e (k_children (after_forks recs k)) <->
  In e (k_children k) \/ In e (map (fun r => (c_pid r, c_status r)) recs).
Proof.
  unfold after_forks. induction recs as [|r rs IH]; intros k e; simpl.
  - tauto.
  - rewrite IH. simpl. rewrite in_insert_at. intuition congruence.
Qed.

Lemma after_fork_wf (r : ChildRec) (k : Kernel) :
  c_pid r = k_next_pid k -> kernel_wf k -> kernel_wf (after_fork r k).
Proof.
  unfold kernel_wf. intros P W. simpl. rewrite Forall_forall in *.
  intros e I. apply in_insert_at in I as [-> | I]; simpl; [lia|].
  specialize (W e I). lia.
Qed.

Lemma after_forks_wf (recs : list ChildRec) : forall k,
  map c_pid recs = seq (k_next_pid k) (length recs) ->
  kernel_wf k -> kernel_wf (after_forks recs k).
Proof.
  unfold after_forks.
  induction recs as [|r rs IH]; intros k P W; simpl; [exact W|].
  simpl in P. injection P as P1 P2.
  apply IH; [exact P2|apply after_fork_wf; assumption].
Qed.

Lemma after_forks_older (recs : list ChildRec) : forall k p,
  map c_pid recs = seq (k_next_pid k) (length recs) ->
  p < k_next_pid k ->
  child_lookup p (k_children (after_forks recs k)) =
  child_lookup p (k_children k).
Proof.
  unfold after_forks.
  induction recs as [|r rs IH]; intros k p P L; simpl; [reflexivity|].
  simpl in P. injection P as P1 P2.
  rewrite IH; [|exact P2|simpl; lia].
  simpl. apply child_lookup_insert_other. lia.
Qed.

(** Each new child is found in the table with its own status. *)
Lemma after_forks_lookup (recs : list ChildRec) : forall k r,
  map c_pid recs = seq (k_next_pid k) (length recs) ->
  kernel_wf k -> In r recs ->
  child_lookup (c_pid r) (k_children (after_forks recs k)) =
  Some (c_status r).
Proof.
  induction recs as [|r0 rs IH]; intros k r P W I; [contradiction|].
  simpl in P. injection P as P1 P2.
  change (after_forks (r0 :: rs) k) with (after_forks rs (after_fork r0 k)).
  destruct I as [<- | I].
  - rewrite after_forks_older; [|exact P2|simpl; lia].
    simpl. apply child_lookup_insert_same. rewrite P1. exact W.
  - apply IH; [exact P2|apply after_fork_wf; assumption|exact I].
Qed.

(** Without the new children the table is what it was. *)
Lemma after_forks_old_part (recs : list ChildRec) : forall k b,
  map c_pid recs = seq (k_next_pid k) (length recs) ->
  b <= k_next_pid k ->
  filter (fun e => fst e <? b) (k_children (after_forks recs k)) =
  filter (fun e => fst e <? b) (k_children k).
Proof.
  unfold after_forks.
  induction recs as [|r rs IH]; intros k b P L; simpl; [reflexivity|].
  simpl in P. injection P as P1 P2.
  rewrite IH; [|exact P2|simpl; lia].
  simpl. apply filter_insert_at_out. simpl. apply Nat.ltb_ge. lia.
Qed.

(* ================================================================= *)
(** ** Waiting for children *)

Lemma after_waits_frame (pids : list nat) : forall k,
  k_cwd (after_waits pids k) = k_cwd k /\
  k_environ (after_waits pids k) = k_environ k /\
  k_fds (after_waits pids k) = k_fds k /\
  k_next_pid (after_waits pids k) = k_next_pid k /\
  k_spawned (after_waits pids k) = k_spawned k /\
  k_trace (after_waits pids k) = k_trace k ++ map EvWait pids /\
  k_children (after_waits pids k) = filter (not_among pids) (k_children k).
Proof.
  unfold after_waits. induction pids as [|p ps IH]; intros k; simpl.
  - rewrite app_nil_r. repeat split; try reflexivity.
    symmetry. apply filter_all. reflexivity.
  - destruct (IH (after_wait p k)) as (-> & -> & -> & -> & -> & -> & ->).
    simpl. rewrite <- app_assoc. repeat split; try reflexivity.
    unfold child_remove. clear IH. induction (k_children k) as [|e l IHl];
      simpl; [reflexivity|].
    unfold not_among at 2. simpl.
    destruct (fst e =? p); simpl; [exact IHl|].
    fold (not_among ps e). destruct (not_among ps e); [f_equal|]; exact IHl.
Qed.

Lemma wait_loop_all (todo : list nat) :
  forall last_pid acc k,
    NoDup todo ->
    (forall p, In p todo -> child_lookup p (k_children k) <> None) ->
    wait_loop todo last_pid acc k =
    (Ret (if existsb (Nat.eqb last_pid) todo
          then match child_lookup last_pid (k_children k) with
               | Some s => s
               | None => acc
               end
          else acc),
     after_waits todo k).
Proof.
  induction todo as [|p more IH]; intros last_pid acc k D H; [reflexivity|].
  inversion D as [|? ? Np D']; subst.
  cbn [wait_loop]. unfold bind at 1. unfold os_waitpid at 1.
  destruct (child_lookup p (k_children k)) as [s|] eqn:L;
    [|exfalso; apply (H p); [simpl; auto|exact L]].
  fold (after_wait p k).
  rewrite IH; [|exact D'|].
  - change (after_waits more (after_wait p k))
      with (after_waits (p :: more) k).
    f_equal. f_equal. cbn [existsb].
    change (k_children (after_wait p k))
      with (child_remove p (k_children k)).
    destruct (existsb (Nat.eqb last_pid) more) eqn:X.
    + apply existsb_exists in X as (q & I & E). apply Nat.eqb_eq in E.
      subst q. assert (N : p <> last_pid) by (intros ->; contradiction).
      rewrite child_lookup_remove_other by exact N.
      rewrite orb_true_r.
      destruct (child_lookup last_pid (k_children k)) eqn:L2; [reflexivity|].
      exfalso. apply (H last_pid); [simpl; auto|exact L2].
    + rewrite orb_false_r, (Nat.eqb_sym last_pid p).
      destruct (p =? last_pid) eqn:E; [|reflexivity].
      apply Nat.eqb_eq in E. subst p. rewrite L. reflexivity.
  - intros q I.
    change (k_children (after_wait p k))
      with (child_remove p (k_children k)).
    rewrite child_lookup_remove_other.
    + apply H. simpl. auto.
    + intros ->. contradiction.
Qed.

Lemma last_of_records (recs : list ChildRec) :
  recs <> [] ->
  exists r, In r recs /\
            last (map c_pid recs) 0 = c_pid r /\
            last (map c_status recs) 0%Z = c_status r.
Proof.
  intros N. destruct (exists_last N) as (l & r & ->).
  exists r. rewrite !map_app. simpl. rewrite !last_last.
  split; [apply in_or_app; simpl; auto|split; reflexivity].
Qed.

(** Creating [recs] and waiting for each of them: the table of children is
    back to what it was, and the status kept is that of the last one. *)
Lemma fork_then_wait (recs : list ChildRec) (k k1 : Kernel) :
  map c_pid recs = seq (k_next_pid k) (length recs) ->
  kernel_wf k ->
  k_children k1 = k_children (after_forks recs k) ->
  let pids := map c_pid recs in
  wait_loop pids (last pids 0) 0%Z k1 =
  (Ret (last (map c_status recs) 0%Z), after_waits pids k1)
  /\ k_children (after_waits pids k1) = k_children k.
Proof.
  intros P W C pids. split.
  - rewrite wait_loop_all.
    + f_equal. f_equal. destruct recs as [|r0 rs]; [reflexivity|].
      destruct (@last_of_records (r0 :: rs)) as (r & I & Lp & Ls);
        [discriminate|].
      fold pids in Lp. rewrite Lp, Ls, C.
      rewrite (after_forks_lookup _ _ P W I).
      replace (existsb (Nat.eqb (c_pid r)) pids) with true; [reflexivity|].
      symmetry. apply existsb_exists. exists (c_pid r).
      split; [apply in_map, I|apply Nat.eqb_refl].
    + unfold pids. rewrite P. apply seq_NoDup.
    + intros p I. apply in_map_iff in I as (r & <- & I).
      rewrite C, (after_forks_lookup _ _ P W I). discriminate.
  - destruct (after_waits_frame pids k1) as (_ & _ & _ & _ & _ & _ & ->).
    rewrite C.
    pose proof (after_forks_wf _ P W) as W'.
    destruct (after_forks_frame recs k) as (_ & _ & _ & _ & Np & _ & _).
    rewrite (filter_ext_in (not_among pids)
               (fun e => fst e <? k_next_pid k)).
    + rewrite (@after_forks_old_part recs k (k_next_pid k) P (le_n _)).
      apply filter_all. intros e I. apply Nat.ltb_lt.
      unfold kernel_wf in W. rewrite Forall_forall in W. exact (W e I).
    + intros e I. unfold kernel_wf in W'. rewrite Forall_forall in W'.
      specialize (W' e I). rewrite Np in W'. unfold not_among, pids.
      rewrite P. destruct (fst e <? k_next_pid k) eqn:E.
      * apply Nat.ltb_lt in E.
        destruct (existsb (Nat.eqb (fst e)) (seq (k_next_pid k) (length recs)))
          eqn:X; [|reflexivity].
        apply existsb_exists in X as (q & Iq & Eq).
        apply Nat.eqb_eq in Eq. subst q. apply in_seq in Iq. lia.
      * apply Nat.ltb_ge in E.
        replace (existsb (Nat.eqb (fst e))
                   (seq (k_next_pid k) (length recs))) with true;
          [reflexivity|].
        symmetry. apply existsb_exists. exists (fst e).
        split; [apply in_seq; lia|apply Nat.eqb_refl].
Qed.

(* ================================================================= *)
(** ** The pipeline executor *)

Lemma wf_set_fds (t : list (nat * FdObj)) (k : Kernel) :
  kernel_wf (set_fds t k) <-> kernel_wf k.
Proof. reflexivity. Qed.

(** What [run_stages] does up to the point where it looks at the
    background flag. *)
Lemma run_stages_spawn (stages : list Stage) (k : Kernel) :
  exists pipes t t',
    make_pipes (length stages - 1) [] k = (Ret pipes, set_fds t k) /\
    let recs := spawn_recs 0 (length stages) pipes stages (set_fds t k) in
    pipeline_children stages k = recs /\
    (forall (is_background : bool),
       run_stages stages is_background k =
       (if is_background then ret 0%Z
        else last_status <- wait_loop (map c_pid recs)
                              (last (map c_pid recs) 0) 0%Z ;;
             ret (status_to_exitcode last_status))
         (set_fds t' (after_forks recs (set_fds t k)))) /\
    (forall fd, fd_lookup fd t' = fd_lookup fd (k_fds k)).
Proof.
  destruct (make_pipes_fresh (length stages - 1) [] k)
    as (pipes & t & E & _ & Keep & Free).
  simpl in E.
  set (recs := spawn_recs 0 (length stages) pipes stages (set_fds t k)).
  destruct (close_pipes_closed pipes (after_forks recs (set_fds t k)))
    as (t' & C & Closed & Kept).
  exists pipes, t, t'. split; [exact E|]. split; [|split].
  - unfold pipeline_children. rewrite E. reflexivity.
  - intros bg. unfold run_stages.
    erewrite bind_ret by exact E.
    erewrite bind_ret by apply spawn_loop_eq.
    fold recs. erewrite bind_ret by exact C. reflexivity.
  - intros fd. destruct (in_dec Nat.eq_dec fd (pipe_fds pipes)) as [I|N].
    + rewrite Closed, Free by exact I. reflexivity.
    + rewrite Kept by exact N.
      destruct (after_forks_frame recs (set_fds t k)) as (_ & _ & -> & _).
      apply Keep, N.
Qed.

Lemma spawn_recs_pids_from (stages : list Stage) i n pipes k :
  let recs := spawn_recs i n pipes stages k in
  map c_pid recs = seq (k_next_pid k) (length recs).
Proof.
  simpl. rewrite spawn_recs_pids, spawn_recs_length. reflexivity.
Qed.

(** The state after the children [recs] of [k] were created and waited
    for, whatever happened to the descriptors meanwhile. *)
Lemma reaped_after (recs : list ChildRec) (k k0 : Kernel)
    (t t' : list (nat * FdObj)) :
  map c_pid recs = seq (k_next_pid k) (length recs) ->
  kernel_wf k ->
  k0 = set_fds t k ->
  (forall fd, fd_lookup fd t' = fd_lookup fd (k_fds k)) ->
  let k1 := set_fds t' (after_forks recs k0) in
  wait_loop (map c_pid recs) (last (map c_pid recs) 0) 0%Z k1 =
  (Ret (last (map c_status recs) 0%Z), after_waits (map c_pid recs) k1)
  /\ reaped k recs (after_waits (map c_pid recs) k1).
Proof.
  intros P W -> FD k1.
  assert (P0 : map c_pid recs
               = seq (k_next_pid (set_fds t k)) (length recs)) by exact P.
  destruct (@fork_then_wait recs (set_fds t k) k1 P0 W eq_refl) as [WL CH].
  split; [exact WL|].
  destruct (after_waits_frame (map c_pid recs) k1)
    as (F1 & F2 & F3 & F4 & F5 & F6 & _).
  destruct (after_forks_frame recs (set_fds t k))
    as (G1 & G2 & _ & _ & G5 & G6 & G7).
  unfold reaped, same_process.
  split; [split; [|split]|split; [|split; [|split]]].
  - rewrite F1. exact G1.
  - rewrite F2. exact G2.
  - intros fd. rewrite F3. exact (FD fd).
  - rewrite F5. exact G6.
  - rewrite F6. change (k_trace k1) with
      (k_trace (after_forks recs (set_fds t k))).
    rewrite G7, <- app_assoc. reflexivity.
  - exact CH.
  - unfold kernel_wf in *. rewrite CH, F4.
    change (k_next_pid k1) with (k_next_pid (after_forks recs (set_fds t k))).
    rewrite G5. simpl. rewrite Forall_forall in *.
    intros e I. specialize (W e I). lia.
Qed.

Lemma run_stages_foreground (stages : list Stage) (k : Kernel) :
  kernel_wf k ->
  exists k',
    run_stages stages false k =
    (Ret (status_to_exitcode
            (last (map c_status (pipeline_children stages k)) 0%Z)), k') /\
    reaped k (pipeline_children stages k) k'.
Proof.
  intros W.
  destruct (run_stages_spawn stages k) as (pipes & t & t' & E & PC & R & FD).
  cbv zeta in PC, R. rewrite PC, R.
  set (recs := spawn_recs 0 (length stages) pipes stages (set_fds t k)) in *.
  assert (P : map c_pid recs = seq (k_next_pid k) (length recs))
    by apply (spawn_recs_pids_from stages 0 (length stages) pipes
                (set_fds t k)).
  destruct (@reaped_after recs k (set_fds t k) t t' P W eq_refl FD)
    as [WL RP].
  eexists. split; [|exact RP].
  erewrite bind_ret by exact WL. reflexivity.
Qed.

Lemma run_stages_background (stages : list Stage) (k : Kernel) :
  exists k',
    run_stages stages true k = (Ret 0%Z, k') /\
    detached k (pipeline_children stages k) k'.
Proof.
  destruct (run_stages_spawn stages k) as (pipes & t & t' & E & PC & R & FD).
  cbv zeta in PC, R. rewrite PC, R.
  set (recs := spawn_recs 0 (length stages) pipes stages (set_fds t k)) in *.
  eexists. split; [reflexivity|].
  destruct (after_forks_frame recs (set_fds t k))
    as (G1 & G2 & _ & _ & _ & G6 & G7).
  unfold detached, same_process. simpl. rewrite G1, G2, G6, G7. simpl.
  repeat split; try reflexivity; try exact FD;
    apply (after_forks_in recs (set_fds t k)).
Qed.

Lemma make_pipes_sched (count : nat) : forall pipes k s,
  make_pipes count pipes (set_sched s k) =
  (fst (make_pipes count pipes k), set_sched s (snd (make_pipes count pipes k))).
Proof.
  induction count as [|count IH]; intros pipes k s; [reflexivity|].
  cbn [make_pipes].
  set (r := lowest_free (k_fds k)).
  set (t1 := fd_set r (PipeRead (length pipes)) (k_fds k)).
  set (w := lowest_free t1).
  set (t2 := fd_set w (PipeWrite (length pipes)) t1).
  exact (IH (pipes ++ [(r, w)]) (set_fds t2 k) s).
Qed.

Lemma pipeline_children_sched (stages : list Stage) (k : Kernel)
    (s : list nat) :
  pipeline_children stages (set_sched s k) = pipeline_children stages k.
Proof.
  unfold pipeline_children. rewrite make_pipes_sched.
  destruct (make_pipes (length stages - 1) [] k) as [[pipes| | |] k1];
    try reflexivity.
  simpl. apply spawn_recs_view. reflexivity.
Qed.

Lemma pipeline_children_length (stages : list Stage) (k : Kernel) :
  length (pipeline_children stages k) = length stages.
Proof.
  destruct (run_stages_spawn stages k) as (pipes & t & t' & _ & PC & _).
  cbv zeta in PC. rewrite PC. apply spawn_recs_length.
Qed.

Lemma pipeline_children_pids (stages : list Stage) (k : Kernel) :
  map c_pid (pipeline_children stages k) =
  seq (k_next_pid k) (length stages).
Proof.
  destruct (run_stages_spawn stages k) as (pipes & t & t' & _ & PC & _).
  cbv zeta in PC. rewrite PC.
  exact (spawn_recs_pids stages 0 (length stages) pipes (set_fds t k)).
Qed.

(** The two ways in which [run_pipeline] creates children. *)
Lemma run_pipeline_cases (stages : list Stage) :
  runs_in_process stages = false ->
  (exists st, stages = [st] /\ is_builtin (st_argv st) = true
              /\ no_redirection st = false)
  \/ (forall bg, run_pipeline stages bg = run_stages stages bg)
     /\ (forall k, spawned_by stages k = pipeline_children stages k).
Proof.
  destruct stages as [|st [|st2 more]]; intros R.
  - right. split; reflexivity.
  - unfold runs_in_process in R. destruct (is_builtin (st_argv st)) eqn:B.
    + left. exists st. simpl in R. auto.
    + right. unfold run_pipeline, spawned_by. rewrite B. split; reflexivity.
  - right. split; reflexivity.
Qed.

Lemma spawned_by_length (stages : list Stage) (k : Kernel) :
  runs_in_process stages = false ->
  length (spawned_by stages k) = length stages.
Proof.
  intros R. destruct (run_pipeline_cases stages R) as [(st & -> & B & N)|[_ S]].
  - unfold spawned_by. rewrite B, N. reflexivity.
  - rewrite S. apply pipeline_children_length.
Qed.

Lemma spawned_by_pids (stages : list Stage) (k : Kernel) :
  runs_in_process stages = false ->
  map c_pid (spawned_by stages k) = seq (k_next_pid k) (length stages).
Proof.
  intros R. destruct (run_pipeline_cases stages R) as [(st & -> & B & N)|[_ S]].
  - unfold spawned_by. rewrite B, N. simpl. rewrite child_record_pid.
    reflexivity.
  - rewrite S. apply pipeline_children_pids.
Qed.

Lemma spawned_by_sched (stages : list Stage) (k : Kernel) (s : list nat) :
  spawned_by stages (set_sched s k) = spawned_by stages k.
Proof.
  unfold spawned_by.
  destruct stages as [|st [|st2 more]];
    try apply pipeline_children_sched.
  destruct (is_builtin (st_argv st)); [|apply pipeline_children_sched].
  reflexivity.
Qed.

Lemma set_fds_same (k : Kernel) : set_fds (k_fds k) k = k.
Proof. destruct k. reflexivity. Qed.

Lemma run_pipeline_foreground (stages : list Stage) (k : Kernel) :
  kernel_wf k -> runs_in_process stages = false ->
  exists k',
    run_pipeline stages false k =
    (Ret (status_to_exitcode
            (last (map c_status (spawned_by stages k)) 0%Z)), k') /\
    reaped k (spawned_by stages k) k'.
Proof.
  intros W R.
  destruct (run_pipeline_cases stages R) as [(st & -> & B & N)|[E S]].
  - unfold run_pipeline, spawned_by. rewrite B, N.
    set (r := child_record (child_builtin st) (child_view k)).
    assert (P : map c_pid [r] = seq (k_next_pid k) (length [r])).
    { simpl. unfold r. rewrite child_record_pid. reflexivity. }
    destruct (@reaped_after [r] k (set_fds (k_fds k) k) (k_fds k) (k_fds k)
                P W eq_refl (fun _ => eq_refl)) as [WL RP].
    rewrite set_fds_same in WL, RP.
    change (set_fds (k_fds k) (after_forks [r] k))
      with (set_fds (k_fds (after_fork r k)) (after_fork r k)) in WL, RP.
    rewrite set_fds_same in WL, RP.
    eexists. split; [|exact RP].
    unfold bind at 1. unfold os_fork at 1. fold r.
    cbn [map wait_loop last] in WL. unfold bind in WL |- *.
    destruct (os_waitpid (c_pid r) (after_fork r k)) as [[s| | |] k2];
      try discriminate.
    rewrite Nat.eqb_refl in WL. unfold ret in WL |- *.
    injection WL as -> ->. reflexivity.
  - rewrite E, S. apply run_stages_foreground, W.
Qed.

Lemma run_pipeline_background (stages : list Stage) (k : Kernel) :
  runs_in_process stages = false ->
  exists k',
    run_pipeline stages true k = (Ret 0%Z, k') /\
    detached k (spawned_by stages k) k'.
Proof.
  intros R.
  destruct (run_pipeline_cases stages R) as [(st & -> & B & N)|[E S]].
  - unfold run_pipeline, spawned_by. rewrite B, N.
    set (r := child_record (child_builtin st) (child_view k)).
    eexists. split; [reflexivity|].
    unfold detached, same_process. simpl.
    repeat split; try reflexivity.
    + intros I. apply in_insert_at in I as [-> | I]; auto.
    + intros [I | [<- | []]]; apply in_insert_at; auto.
  - rewrite E, S. apply run_stages_background.
Qed.

(** In which order the children finish has no influence on what a
    foreground pipeline reports. *)
Lemma run_pipeline_any_order (stages : list Stage) (k : Kernel)
    (s : list nat) :
  kernel_wf k -> runs_in_process stages = false ->
  fst (run_pipeline stages false (set_sched s k)) =
  fst (run_pipeline stages false k).
Proof.
  intros W R.
  destruct (@run_pipeline_foreground stages k W R) as (k1 & -> & _).
  assert (W' : kernel_wf (set_sched s k)) by exact W.
  destruct (@run_pipeline_foreground stages _ W' R) as (k2 & -> & _).
  rewrite spawned_by_sched. reflexivity.
Qed.

(* ================================================================= *)
(** ** What a child writes *)

Lemma wos_bind {A B : Type} (m : M A) (f : A -> M B) :
  writes_only_stderr m -> (forall a, writes_only_stderr (f a)) ->
  writes_only_stderr (bind m f).
Proof.
  intros Hm Hf k fd text I. unfold bind in I.
  specialize (Hm k fd text).
  destruct (m k) as [[a|e|c|p a] k']; simpl in *; auto.
  destruct (Hf a k' fd text I); auto.
Qed.

Lemma wos_silent {A : Type} (m : M A) :
  (forall k, k_trace (snd (m k)) = k_trace k) -> writes_only_stderr m.
Proof. intros H k fd text I. rewrite H in I. auto. Qed.

Lemma wos_eprint (msg : str) : writes_only_stderr (eprint msg).
Proof.
  intros k fd text I. simpl in I. apply in_app_or in I as [I|I]; auto.
  destruct I as [E|[]]. injection E as <- _. auto.
Qed.

Lemma wos_ret {A : Type} (a : A) : writes_only_stderr (ret a).
Proof. apply wos_silent. reflexivity. Qed.

Lemma wos_os_exit {A : Type} (c : Z) : writes_only_stderr (@os_exit A c).
Proof. apply wos_silent. reflexivity. Qed.

Lemma wos_raise {A : Type} (msg : str) : writes_only_stderr (@raise A msg).
Proof. apply wos_silent. reflexivity. Qed.

Lemma wos_os_dup2 (a b : nat) : writes_only_stderr (os_dup2 a b).
Proof.
  apply wos_silent. intros k. unfold os_dup2.
  destruct (fd_lookup a (k_fds k)); reflexivity.
Qed.

Lemma wos_os_close (a : nat) : writes_only_stderr (os_close a).
Proof. apply wos_silent. reflexivity. Qed.

Lemma wos_os_open (p : str) (w : bool) : writes_only_stderr (os_open p w).
Proof.
  apply wos_silent. intros k. unfold os_open.
  destruct (fs_open (k_oracle k) (k_cwd k) p w); reflexivity.
Qed.

Lemma wos_os_chdir (p : str) : writes_only_stderr (os_chdir p).
Proof.
  apply wos_silent. intros k. unfold os_chdir.
  destruct (fs_chdir (k_oracle k) (k_cwd k) p); reflexivity.
Qed.

Lemma wos_read {A : Type} (f : Kernel -> A) : writes_only_stderr (read f).
Proof. apply wos_silent. reflexivity. Qed.

Create HintDb wos.

#[local] Hint Resolve wos_eprint wos_ret wos_os_exit wos_raise wos_os_dup2
  wos_os_close wos_os_open wos_os_chdir wos_read : wos.

Ltac wos_step :=
  first [ apply wos_bind; [|intros ?] | solve [auto with wos] ].

Lemma wos_close_pipes (pipes : list (nat * nat)) :
  writes_only_stderr (close_pipes pipes).
Proof.
  induction pipes as [|[pr pw] more IH]; simpl; [auto with wos|].
  repeat wos_step.
Qed.

Lemma wos_redirect_one (file : option str) (w : bool) (target : nat)
    (next : M bool) :
  writes_only_stderr next ->
  writes_only_stderr (redirect_one file w target next).
Proof.
  intros N. unfold redirect_one. destruct file as [f|]; [|exact N].
  apply wos_bind; [auto with wos|]. intros [e|fd]; repeat wos_step.
Qed.

Lemma wos_setup_redirection (infile outfile : option str) :
  writes_only_stderr (setup_redirection infile outfile).
Proof.
  unfold setup_redirection. repeat apply wos_redirect_one. auto with wos.
Qed.

Lemma wos_exec_program (argv : list str) :
  writes_only_stderr (exec_program argv).
Proof.
  unfold exec_program. destruct argv as [|prog args]; [auto with wos|].
  wos_step; [auto with wos|]. destruct a as [p|]; repeat wos_step.
  destruct a as [msg|]; repeat wos_step.
  destruct a as [e|]; repeat wos_step.
  apply wos_silent. reflexivity.
Qed.

Lemma wos_run_builtin (argv : list str) :
  writes_only_stderr (run_builtin argv).
Proof.
  unfold run_builtin. destruct argv as [|cmd args]; [auto with wos|].
  destruct (str_eqb cmd (lit "exit")); [auto with wos|].
  destruct (str_eqb cmd (lit "cd")); [|auto with wos].
  wos_step.
  - destruct args; [apply wos_silent; reflexivity|auto with wos].
  - destruct a as [p|]; repeat wos_step.
    destruct a as [e|]; repeat wos_step.
Qed.

Lemma wos_stage_body (st : Stage) : writes_only_stderr (stage_body st).
Proof.
  unfold stage_body. wos_step; [apply wos_setup_redirection|].
  destruct a; simpl; [|auto with wos].
  wos_step; [apply wos_exec_program|auto with wos].
Qed.

Lemma wos_child_stage (i n : nat) (pipes : list (nat * nat)) (st : Stage) :
  writes_only_stderr (child_stage i n pipes st).
Proof.
  unfold child_stage, wire_pipes.
  wos_step; [|apply wos_stage_body].
  wos_step; [destruct (0 <? i); auto with wos|].
  wos_step; [destruct (i <? n - 1); auto with wos|].
  apply wos_close_pipes.
Qed.

Lemma wos_child_builtin (st : Stage) : writes_only_stderr (child_builtin st).
Proof.
  unfold child_builtin. wos_step; [apply wos_setup_redirection|].
  destruct a; simpl; [|auto with wos].
  wos_step; [apply wos_run_builtin|auto with wos].
Qed.

(* ================================================================= *)
(** ** Redirections *)

(** The second redirection starts where the first one ends well. *)
Lemma redirect_one_next (file : option str) (w : bool) (target : nat)
    (next : M bool) (k : Kernel) :
  redirect_one file w target next k =
  match redirect_one file w target (ret true) k with
  | (Ret true, k') => next k'
  | r => r
  end.
Proof.
  unfold redirect_one. destruct file as [f|]; [|reflexivity].
  unfold bind, os_open.
  destruct (fs_open (k_oracle k) (k_cwd k) f w); [reflexivity|].
  unfold os_dup2. cbn [k_fds set_fds].
  destruct (fd_lookup (lowest_free (k_fds k)) _); reflexivity.
Qed.

Lemma stage_body_input_fails (st : Stage) (k : Kernel) (f e : str) :
  st_in st = Some f ->
  fs_open (k_oracle k) (k_cwd k) f false = Some e ->
  stage_body st k =
  (Exited 1%Z, add_event (EvWrite 2 ((f ++ lit ": " ++ e) ++ [newline_ch])) k).
Proof.
  intros I O. unfold stage_body, setup_redirection, redirect_one.
  rewrite I. unfold bind, os_open. rewrite O. reflexivity.
Qed.

Lemma stage_body_output_fails (st : Stage) (k k2 : Kernel) (g e : str) :
  st_out st = Some g ->
  setup_redirection (st_in st) None k = (Ret true, k2) ->
  fs_open (k_oracle k2) (k_cwd k2) g true = Some e ->
  stage_body st k =
  (Exited 1%Z, add_event (EvWrite 2 ((g ++ lit ": " ++ e) ++ [newline_ch])) k2).
Proof.
  intros G I O. unfold stage_body, setup_redirection in *. rewrite G.
  unfold bind at 1. rewrite redirect_one_next.
  cbn [redirect_one] in I. rewrite I.
  unfold redirect_one, bind, os_open. rewrite O. reflexivity.
Qed.

Lemma stage_body_not_found (st : Stage) (k k2 : Kernel) (prog : str)
    (args : list str) :
  setup_redirection (st_in st) (st_out st) k = (Ret true, k2) ->
  st_argv st = prog :: args ->
  resolve_command k2 prog = None ->
  stage_body st k =
  (Exited 127%Z,
   add_event (EvWrite 2 ((prog ++ lit ": command not found") ++ [newline_ch]))
     k2).
Proof.
  intros S A R. unfold stage_body. erewrite bind_ret by exact S.
  rewrite A. cbn [negb]. unfold exec_program, bind, read. cbv beta.
  rewrite R. reflexivity.
Qed.

Lemma stage_body_exec_fails (st : Stage) (k k2 : Kernel) (prog p e : str)
    (args : list str) :
  setup_redirection (st_in st) (st_out st) k = (Ret true, k2) ->
  st_argv st = prog :: args ->
  resolve_command k2 prog = Some p ->
  execve_value_error k2 p (prog :: args) = None ->
  sys_execve (k_oracle k2) (k_cwd k2) p (prog :: args) = Some e ->
  stage_body st k =
  (Exited 126%Z,
   add_event (EvWrite 2 ((prog ++ lit ": " ++ e) ++ [newline_ch])) k2).
Proof.
  intros S A R V X. unfold stage_body. erewrite bind_ret by exact S.
  rewrite A. cbn [negb]. unfold exec_program, bind, read. cbv beta.
  rewrite R, V, X. reflexivity.
Qed.


(** The [ValueError] of [os.execve] leaves the code of the child. *)
Lemma stage_body_exec_refused (st : Stage) (k k2 : Kernel)
    (prog p msg : str) (args : list str) :
  setup_redirection (st_in st) (st_out st) k = (Ret true, k2) ->
  st_argv st = prog :: args ->
  resolve_command k2 prog = Some p ->
  execve_value_error k2 p (prog :: args) = Some msg ->
  stage_body st k = (Raised msg, k2).
Proof.
  intros S A R V. unfold stage_body. erewrite bind_ret by exact S.
  rewrite A. cbn [negb]. unfold exec_program, bind, read. cbv beta.
  rewrite R, V. reflexivity.
Qed.


(* ================================================================= *)
(** ** Properties of the parsing layer *)

(** C8. [parse_redirections] scans the argument vector from left to right.
    A [<] (a [>]) that has a following token consumes both tokens and
    records the follower as the input (output) path, and a later occurrence
    replaces the path recorded by an earlier one.  Every other token is kept,
    in its original order, in the cleaned argument vector.  A [<] or [>] at
    the very end, with no following token, stays in the cleaned vector. *)
Theorem parse_redirections_scan :
  parse_redirections [] = ([], None, None) /\
  (forall f rest,
     parse_redirections (lt_tok :: f :: rest) =
     let '(out, infile, outfile) := parse_redirections rest in
     (out, Some (match infile with Some later => later | None => f end),
      outfile)) /\
  (forall f rest,
     parse_redirections (gt_tok :: f :: rest) =
     let '(out, infile, outfile) := parse_redirections rest in
     (out, infile,
      Some (match outfile with Some later => later | None => f end))) /\
  (forall t rest,
     t <> lt_tok -> t <> gt_tok ->
     parse_redirections (t :: rest) =
     let '(out, infile, outfile) := parse_redirections rest in
     (t :: out, infile, outfile)) /\
  parse_redirections [lt_tok] = ([lt_tok], None, None) /\
  parse_redirections [gt_tok] = ([gt_tok], None, None).
Proof.
  split; [reflexivity|].
  split; [exact parse_redirections_in|].
  split; [exact parse_redirections_out|].
  split; [exact parse_redirections_other|].
  split; reflexivity.
Qed.

(** [sort < in > out -r] gives the arguments [sort -r] and both paths. *)
Lemma parse_redirections_scan_witness :
  lit "sort" <> lt_tok /\ lit "sort" <> gt_tok /\
  parse_redirections
    [lit "sort"; lt_tok; lit "in"; gt_tok; lit "out"; lit "-r"] =
  ([lit "sort"; lit "-r"], Some (lit "in"), Some (lit "out")).
Proof.
  destruct parse_redirections_scan as (_ & _ & _ & Other & _).
  split; [discriminate|]. split; [discriminate|].
  rewrite (Other (lit "sort")) by discriminate. reflexivity.
Defined.

(** C9, as stated, fails: the bare token of [a<VT>b] contains the white
    space character VT, while the same character in front of a token is
    skipped as white space. *)
Lemma tokenize_vertical_tab :
  tokenize (lit "a" ++ VT :: lit "b") = [lit "a" ++ VT :: lit "b"] /\
  existsb isspace (lit "a" ++ VT :: lit "b") = true /\
  tokenize (VT :: lit " a") = [lit "a"].
Proof. repeat split; reflexivity. Qed.

(** C9, amended.  [tokenize] splits a segment into tokens by repeatedly
    matching a single-quoted run, a double-quoted run, or the longest run of
    characters other than the space, TAB, CR, LF and the two quotes.  White
    space of any kind in front of a token is skipped, the delimiters of a
    quoted run are removed, and a backslash is an ordinary character.  A
    run that starts at a character that is not white space may contain the
    white space characters VT, FF, FS, GS, RS, US, NEL and NBSP.  Where no
    token follows, at the end of the segment or before a quote that is never
    closed, the white space is dropped, but for the last of these eight
    characters in it, which is a token; a quote that is never closed is a
    token of one character.  The segment ['a b' "c d" e] gives the three
    tokens [a b], [c d], [e]. *)
Theorem tokenize_contract :
  tokenize [] = [] /\
  (forall ws c t,
     forallb isspace ws = true -> isspace c = false ->
     (is_quote c = true -> In c t) ->
     tokenize (ws ++ c :: t) = tokenize (c :: t)) /\
  (forall c t, is_blank c = true -> tokenize (c :: t) = tokenize t) /\
  (forall q body rest,
     is_quote q = true -> ~ In q body ->
     tokenize (q :: body ++ q :: rest) = body :: tokenize rest) /\
  (forall q t,
     is_quote q = true -> ~ In q t -> tokenize (q :: t) = [q] :: tokenize t) /\
  (forall c t run rest,
     isspace c = false -> is_quote c = false ->
     span is_bare (c :: t) = (run, rest) ->
     tokenize (c :: t) = run :: tokenize rest /\
     c :: t = run ++ rest /\
     forallb is_bare run = true /\
     match rest with [] => True | x :: _ => is_bare x = false end) /\
  (forall ws1 x ws2 rest,
     forallb isspace ws1 = true ->
     isspace x = true -> is_blank x = false ->
     forallb is_blank ws2 = true -> no_token_start rest ->
     tokenize (ws1 ++ x :: ws2 ++ rest) = [x] :: tokenize rest) /\
  (forall c, is_bare c = negb (is_blank c) && negb (is_quote c)) /\
  (forall c, isspace c = true -> is_blank c = false ->
             In (nat_of_ascii c) [11; 12; 28; 29; 30; 31; 133; 160]) /\
  is_bare (ascii_of_nat 92) = true /\
  tokenize (lit "'a\' b\ c") = [lit "a\"; lit "b\"; lit "c"] /\
  tokenize (lit "'a b' " ++ dquote :: lit "c d" ++ dquote :: lit " e") =
  [lit "a b"; lit "c d"; lit "e"].
Proof.
  split; [reflexivity|].
  split; [exact tokenize_skip|].
  split; [exact tokenize_blank|].
  split; [exact tokenize_quoted|].
  split; [exact tokenize_unmatched|].
  split.
  { intros c t run rest W Q S.
    split; [exact (tokenize_bare c t W Q S)|].
    split; [exact (span_app _ _ S)|].
    split; [exact (span_all _ _ S)|exact (span_maximal _ _ S)]. }
  split; [exact tokenize_stray_space|].
  split; [exact is_bare_classes|].
  split; [intros c; all_chars c; intros _ _; tauto|].
  repeat split; reflexivity.
Qed.

(** [<VT> ls<FF> -l]: the white space in front of [ls] is skipped, VT
    included; the bare run [ls<FF>] takes the FF in; the space is skipped
    and [-l] is the last token. *)
Lemma tokenize_contract_witness :
  tokenize (VT :: lit " ls" ++ ascii_of_nat 12 :: lit " -l") =
  [lit "ls" ++ [ascii_of_nat 12]; lit "-l"].
Proof.
  destruct tokenize_contract as (Nil & Skip & Blank & _ & _ & Bare & _).
  change (VT :: lit " ls" ++ ascii_of_nat 12 :: lit " -l")
    with ([VT; " "%char] ++ "l"%char :: "s"%char :: ascii_of_nat 12
            :: lit " -l").
  rewrite (Skip [VT; " "%char] "l"%char
             ("s"%char :: ascii_of_nat 12 :: lit " -l") eq_refl eq_refl)
    by discriminate.
  rewrite (proj1 (Bare "l"%char ("s"%char :: ascii_of_nat 12 :: lit " -l")
                    (lit "ls" ++ [ascii_of_nat 12]) (lit " -l")
                    eq_refl eq_refl eq_refl)).
  change (lit " -l") with (" "%char :: "-"%char :: lit "l").
  rewrite (Blank " "%char ("-"%char :: lit "l") eq_refl).
  rewrite (proj1 (Bare "-"%char (lit "l") (lit "-l") []
                    eq_refl eq_refl eq_refl)).
  rewrite Nil. reflexivity.
Defined.

(** C10. The delimiters are removed from every quoted run, whatever stands
    between them and whatever white space stands in front, an empty run
    included: [''] and the empty double-quoted run are each one token, the
    empty string.  So the argument vector of a stage may hold empty strings;
    an empty string after the first argument does not keep [os.execve] from
    starting the program, and the vector handed to the program is the
    stage's vector unchanged.  Only as the first argument, the name of the
    program, is the empty string refused by [os.execve]. *)
Theorem tokenize_empty_quotes :
  (forall ws q body rest,
     forallb isspace ws = true -> is_quote q = true -> ~ In q body ->
     tokenize (ws ++ q :: body ++ q :: rest) = body :: tokenize rest) /\
  tokenize (lit "''") = [[]] /\
  tokenize [dquote; dquote] = [[]] /\
  (forall q rest,
     is_quote q = true -> tokenize (q :: q :: rest) = [] :: tokenize rest) /\
  parse_line_into_stages (lit "echo ''") =
  ([mkStage [lit "echo"; []] None None], false) /\
  (forall k p prog args,
     execve_value_error k p (prog :: [] :: args)
     = execve_value_error k p (prog :: args)) /\
  (forall k p args, execve_value_error k p ([] :: args) <> None) /\
  (forall k prog args p,
     resolve_command k prog = Some p ->
     execve_value_error k p (prog :: args) = None ->
     sys_execve (k_oracle k) (k_cwd k) p (prog :: args) = None ->
     exec_program (prog :: args) k = (Execed p (prog :: args), k)) /\
  map c_end (k_spawned (snd (main_step (lit "echo ''") demo_kernel))) =
  [Execed (lit "/bin/echo") [lit "echo"; []]].
Proof.
  split.
  { intros ws q body rest F Q N.
    assert (S : isspace q = false) by apply (is_quote_not_space q Q).
    rewrite (tokenize_skip ws q (body ++ q :: rest) F S)
      by (intros _; apply in_or_app; right; left; reflexivity).
    apply tokenize_quoted; assumption. }
  split; [reflexivity|]. split; [reflexivity|].
  split.
  { intros q rest Q. apply (tokenize_quoted q [] rest Q). simpl. tauto. }
  split; [reflexivity|].
  split.
  { intros k p prog args. unfold execve_value_error. reflexivity. }
  split.
  { intros k p args. unfold execve_value_error.
    destruct (contains_ch nul_ch p); [discriminate|].
    destruct (existsb (contains_ch nul_ch) ([] :: args)); discriminate. }
  split; [|reflexivity].
  intros k prog args p R V X. unfold exec_program.
  unfold bind, read. cbv beta. rewrite R, V, X. reflexivity.
Qed.

(** The argument vector [echo ''] reaches [/bin/echo] with its empty
    string. *)
Lemma tokenize_empty_quotes_witness :
  exec_program [lit "echo"; []] demo_kernel =
  (Execed (lit "/bin/echo") [lit "echo"; []], demo_kernel).
Proof.
  destruct tokenize_empty_quotes as (_ & _ & _ & _ & _ & _ & _ & Exec & _).
  apply Exec; reflexivity.
Defined.

(* ================================================================= *)
(** ** The command resolver *)







Lemma search_path_found (k : Kernel) (prog p : str) (dirs : list str) :
  search_path k dirs prog = Some p ->
  exists before d after,
    dirs = before ++ d :: after /\
    (forall d', In d' before ->
                is_executable k (path_join (path_dir d') prog) = false) /\
    is_executable k (path_join (path_dir d) prog) = true /\
    p = path_join (path_dir d) prog.
Proof.
  induction dirs as [|d dirs IH]; simpl; [discriminate|].
  destruct (is_executable k (path_join (path_dir d) prog)) eqn:X.
  - intros E. injection E as <-. exists [], d, dirs.
    repeat split; auto. simpl. tauto.
  - intros E. destruct (IH E) as (before & d0 & after & -> & B & X0 & ->).
    exists (d :: before), d0, after. repeat split; auto.
    intros d' [<-|I]; auto.
Qed.



(* ================================================================= *)
(** ** The status translator *)

Lemma byte_cases (P : Z -> Prop) (c : Z) :
  (0 <= c < 256)%Z ->
  Forall P (map Z.of_nat (seq 0 256)) -> P c.
Proof.
  intros B F. rewrite Forall_forall in F. apply F.
  apply in_map_iff. exists (Z.to_nat c). split; [lia|].
  apply in_seq. lia.
Qed.

Lemma exit_codes_checked :
  forallb (fun c => (status_to_exitcode (Z.shiftl c 8) =? c)%Z)
    (map Z.of_nat (seq 0 256)) = true.
Proof. vm_compute. reflexivity. Qed.

Lemma signals_checked :
  forallb (fun s => (status_to_exitcode (W_SIGNALED s false) =? 128 + s)%Z
                    && (status_to_exitcode (W_SIGNALED s true) =? 128 + s)%Z
                    || (s =? 0)%Z || (126 <? s)%Z)
    (map Z.of_nat (seq 0 256)) = true.
Proof. vm_compute. reflexivity. Qed.

Lemma land_255_range (code : Z) : (0 <= Z.land code 255 < 256)%Z.
Proof.
  change 255%Z with (Z.ones 8). rewrite Z.land_ones by lia.
  apply Z.mod_pos_bound. reflexivity.
Qed.

Lemma status_to_exitcode_exited (code : Z) :
  status_to_exitcode (W_EXITCODE code) = Z.land code 255.
Proof.
  unfold W_EXITCODE.
  apply (@byte_cases (fun c => status_to_exitcode (Z.shiftl c 8) = c)
           (Z.land code 255) (land_255_range code)).
  apply Forall_forall. intros c I.
  pose proof exit_codes_checked as H. rewrite forallb_forall in H.
  apply Z.eqb_eq, H, I.
Qed.

Lemma status_to_exitcode_signaled (sig : Z) (core : bool) :
  (1 <= sig <= 126)%Z ->
  status_to_exitcode (W_SIGNALED sig core) = (128 + sig)%Z.
Proof.
  intros B.
  assert (H : Forall (fun s => (1 <= s <= 126)%Z ->
                forall b, status_to_exitcode (W_SIGNALED s b) = (128 + s)%Z)
                (map Z.of_nat (seq 0 256))).
  { apply Forall_forall. intros s I R b.
    pose proof signals_checked as H. rewrite forallb_forall in H.
    specialize (H s I). rewrite !orb_true_iff, andb_true_iff in H.
    destruct H as [[[H1 H2]|H]|H].
    - apply Z.eqb_eq in H1, H2. destruct b; assumption.
    - apply Z.eqb_eq in H. lia.
    - apply Z.ltb_lt in H. lia. }
  apply (@byte_cases _ sig ltac:(lia) H B).
Qed.

Lemma status_to_exitcode_unknown (status : Z) :
  WIFEXITED status = false -> WIFSIGNALED status = false ->
  status_to_exitcode status = 1%Z.
Proof. unfold status_to_exitcode. intros -> ->. reflexivity. Qed.

(* ================================================================= *)
(** ** The status of a child *)

Lemma child_record_status (child : M Empty_set) (v : Kernel) :
  c_status (child_record child v) =
  wait_status (k_oracle v) (c_pid (child_record child v))
    (c_end (child_record child v)).
Proof. unfold child_record. destruct (child v). reflexivity. Qed.

Lemma spawn_recs_status (stages : list Stage) :
  forall i n pipes k r,
    In r (spawn_recs i n pipes stages k) ->
    c_status r = wait_status (k_oracle k) (c_pid r) (c_end r).
Proof.
  induction stages as [|st more IH]; intros i n pipes k r I; simpl in I;
    [contradiction|].
  destruct I as [<- | I].
  - exact (child_record_status (child_stage i n pipes st) (child_view k)).
  - apply IH in I. exact I.
Qed.

Lemma spawned_by_status (stages : list Stage) (k : Kernel) (r : ChildRec) :
  In r (spawned_by stages k) ->
  c_status r = wait_status (k_oracle k) (c_pid r) (c_end r).
Proof.
  assert (P : In r (pipeline_children stages k) ->
              c_status r = wait_status (k_oracle k) (c_pid r) (c_end r)).
  { destruct (run_stages_spawn stages k) as (pipes & t & t' & _ & PC & _).
    cbv zeta in PC. rewrite PC. intros I.
    apply spawn_recs_status in I. exact I. }
  unfold spawned_by. destruct stages as [|st [|st2 more]]; try exact P.
  destruct (is_builtin (st_argv st)); [|exact P].
  destruct (no_redirection st); [contradiction|].
  intros [<- | []].
  exact (child_record_status (child_builtin st) (child_view k)).
Qed.

(* ================================================================= *)
(** ** Properties of the builtins and of the children *)



(** C3 at the line ['']: the empty name is looked up as [/bin/], which
    is found; [os.execve] refuses the empty first argument with a
    [ValueError], which [except OSError] does not catch.  The child
    has written nothing and has not ended with status 126; the exception
    takes it back into the loop of [main]. *)
Lemma empty_command_name_child :
  fst (parse_line_into_stages (lit "''")) = [mkStage [[]] None None] /\
  resolve_command demo_kernel_dirs [] = Some (lit "/bin/") /\
  map c_end (spawned_by [mkStage [[]] None None] demo_kernel_dirs) =
  [Raised (lit "execve: argv first element cannot be empty")] /\
  map c_trace (spawned_by [mkStage [[]] None None] demo_kernel_dirs) = [[]].
Proof. repeat split; reflexivity. Qed.

(** C3. In a child created for a stage, once the pipes are wired: when a
    redirection file cannot be opened the child writes the error of the
    operating system to the error stream and ends with status 1; when the
    command cannot be resolved it writes [<name>: command not found] to the
    error stream and ends with status 127; when [os.execve] has accepted
    its arguments and the system call fails after the command was resolved,
    it writes the error to the error stream and ends with status 126.
    When [os.execve] refuses its arguments, as it does for an empty first
    argument, the child writes nothing and does not end: the exception
    leaves its code.  Whenever setting up the redirections fails, the child
    of a stage and the child of a builtin end with status 1.  Nothing that
    the code of a child writes goes anywhere but to the error stream. *)
Theorem child_failures (i n : nat) (pipes : list (nat * nat)) (st : Stage)
    (k k1 : Kernel) :
  wire_pipes i n pipes k = (Ret tt, k1) ->
  (forall f e,
     st_in st = Some f ->
     fs_open (k_oracle k1) (k_cwd k1) f false = Some e ->
     child_stage i n pipes st k =
     (Exited 1%Z,
      add_event (EvWrite 2 ((f ++ lit ": " ++ e) ++ [newline_ch])) k1)) /\
  (forall g e k2,
     st_out st = Some g ->
     setup_redirection (st_in st) None k1 = (Ret true, k2) ->
     fs_open (k_oracle k2) (k_cwd k2) g true = Some e ->
     child_stage i n pipes st k =
     (Exited 1%Z,
      add_event (EvWrite 2 ((g ++ lit ": " ++ e) ++ [newline_ch])) k2)) /\
  (forall k2 prog args,
     setup_redirection (st_in st) (st_out st) k1 = (Ret true, k2) ->
     st_argv st = prog :: args ->
     (resolve_command k2 prog = None ->
      child_stage i n pipes st k =
      (Exited 127%Z,
       add_event
         (EvWrite 2 ((prog ++ lit ": command not found") ++ [newline_ch]))
         k2)) /\
     (forall p e,
        resolve_command k2 prog = Some p ->
        execve_value_error k2 p (prog :: args) = None ->
        sys_execve (k_oracle k2) (k_cwd k2) p (prog :: args) = Some e ->
        child_stage i n pipes st k =
        (Exited 126%Z,
         add_event (EvWrite 2 ((prog ++ lit ": " ++ e) ++ [newline_ch]))
           k2)) /\
     (forall p msg,
        resolve_command k2 prog = Some p ->
        execve_value_error k2 p (prog :: args) = Some msg ->
        child_stage i n pipes st k = (Raised msg, k2))) /\
  (forall k0 p args, execve_value_error k0 p ([] :: args) <> None) /\
  (forall k0 k2,
     setup_redirection (st_in st) (st_out st) k0 = (Ret false, k2) ->
     stage_body st k0 = (Exited 1%Z, k2) /\
     child_builtin st k0 = (Exited 1%Z, k2)) /\
  writes_only_stderr (child_stage i n pipes st) /\
  writes_only_stderr (child_builtin st).
Proof.
  intros Wi.
  assert (E : child_stage i n pipes st k = stage_body st k1).
  { unfold child_stage. erewrite bind_ret by exact Wi. reflexivity. }
  rewrite E.
  split; [intros f e; apply stage_body_input_fails|].
  split; [intros g e k2; apply stage_body_output_fails|].
  split.
  { intros k2 prog args S A. split; [|split].
    - intros R. eapply stage_body_not_found; eassumption.
    - intros p e R V X. eapply stage_body_exec_fails; eassumption.
    - intros p msg R V. eapply stage_body_exec_refused; eassumption. }
  split.
  { intros k0 p args. unfold execve_value_error.
    destruct (contains_ch nul_ch p); [discriminate|].
    destruct (existsb (contains_ch nul_ch) ([] :: args)); discriminate. }
  split; [|split; [apply wos_child_stage|apply wos_child_builtin]].
  intros k0 k2 S. unfold stage_body, child_builtin.
  erewrite !bind_ret by exact S. split; reflexivity.
Qed.

(** The child of the line [''] in the small world with its directory: the
    exception leaves its code. *)
Lemma child_failures_witness :
  child_stage 0 1 [] (mkStage [[]] None None) (child_view demo_kernel_dirs) =
  (Raised (lit "execve: argv first element cannot be empty"),
   child_view demo_kernel_dirs).
Proof.
  set (st := mkStage [[]] None None).
  assert (Wi : wire_pipes 0 1 [] (child_view demo_kernel_dirs) =
               (Ret tt, child_view demo_kernel_dirs)) by reflexivity.
  destruct (@child_failures 0 1 [] st _ _ Wi) as (_ & _ & Prog & _).
  destruct (Prog (child_view demo_kernel_dirs) [] [] eq_refl eq_refl)
    as (_ & _ & Refused).
  exact (Refused (lit "/bin/") _ eq_refl eq_refl).
Defined.

(* ================================================================= *)
(** ** Properties of the pipeline executor *)




(** C2. A foreground pipeline whose stages run in children: [run_pipeline]
    waits for every child it created and returns the translation of the wait
    status of the child created last, that of the last stage.  The
    translation is the exit code, between 0 and 255, of a child that exited;
    128 plus the signal number for a child killed by a signal; and 1
    otherwise.  The order in which the children finish plays no part; in
    particular [false | true] reports status 0. *)
Theorem run_pipeline_reports_last_stage (stages : list Stage) (k : Kernel) :
  kernel_wf k -> runs_in_process stages = false ->
  (exists k',
     run_pipeline stages false k =
     (Ret (status_to_exitcode (last (map c_status (spawned_by stages k)) 0%Z)),
      k') /\
     reaped k (spawned_by stages k) k') /\
  length (spawned_by stages k) = length stages /\
  map c_pid (spawned_by stages k) = seq (k_next_pid k) (length stages) /\
  (forall r, In r (spawned_by stages k) ->
             c_status r = wait_status (k_oracle k) (c_pid r) (c_end r)) /\
  (forall sched,
     fst (run_pipeline stages false (set_sched sched k)) =
     fst (run_pipeline stages false k)) /\
  (forall code,
     status_to_exitcode (W_EXITCODE code) = Z.land code 255 /\
     (0 <= Z.land code 255 <= 255)%Z) /\
  (forall code, (0 <= code <= 255)%Z ->
                status_to_exitcode (W_EXITCODE code) = code) /\
  (forall sig core, (1 <= sig <= 126)%Z ->
                    status_to_exitcode (W_SIGNALED sig core) = (128 + sig)%Z) /\
  (forall status, WIFEXITED status = false -> WIFSIGNALED status = false ->
                  status_to_exitcode status = 1%Z) /\
  fst (run_pipeline (fst (parse_line_into_stages (lit "false | true")))
         false demo_kernel) = Ret 0%Z.
Proof.
  intros W R.
  split; [apply run_pipeline_foreground; assumption|].
  split; [apply spawned_by_length, R|].
  split; [apply spawned_by_pids, R|].
  split; [intros r; apply spawned_by_status|].
  split; [intros s; apply run_pipeline_any_order; assumption|].
  split.
  { intros code. split; [apply status_to_exitcode_exited|].
    pose proof (land_255_range code). lia. }
  split.
  { intros code B. rewrite status_to_exitcode_exited.
    change 255%Z with (Z.ones 8). rewrite Z.land_ones by lia.
    apply Z.mod_small. lia. }
  split; [exact status_to_exitcode_signaled|].
  split; [exact status_to_exitcode_unknown|].
  vm_compute. reflexivity.
Qed.

(** [true | false], whichever of the two finishes first: the wait status
    256 of [false], the last stage, is reported as 1. *)
Lemma run_pipeline_reports_last_stage_witness :
  fst (run_pipeline [mkStage [lit "true"] None None;
                     mkStage [lit "false"] None None]
         false (set_sched [0; 0] demo_kernel)) = Ret 1%Z /\
  fst (run_pipeline [mkStage [lit "true"] None None;
                     mkStage [lit "false"] None None]
         false (set_sched [0; 1] demo_kernel)) = Ret 1%Z.
Proof.
  set (stages := [mkStage [lit "true"] None None;
                  mkStage [lit "false"] None None]).
  assert (W : kernel_wf demo_kernel) by constructor.
  destruct (@run_pipeline_reports_last_stage stages demo_kernel W eq_refl)
    as ((k' & E & _) & _ & _ & _ & Order & _).
  rewrite !Order, E. split; reflexivity.
Defined.




(** C5, as stated, fails: [cd /nonexistent] with the background flag is
    run in the interpreter and its status 1 is returned; [main], which makes
    the same choice, reports that status. *)
Lemma background_builtin_status :
  parse_line_into_stages (lit "cd /nonexistent &") =
  ([mkStage [lit "cd"; lit "/nonexistent"] None None], true) /\
  fst (run_pipeline [mkStage [lit "cd"; lit "/nonexistent"] None None]
         true demo_kernel) = Ret 1%Z /\
  k_trace (snd (main_step (lit "cd /nonexistent &") demo_kernel)) =
  [EvWrite 2 (lit "cd: [Errno 2] No such file or directory" ++ [newline_ch]);
   EvWrite 2 (lit "Program terminated with exit code 1." ++ [newline_ch])].
Proof. repeat split; reflexivity. Qed.

(** C5, amended.  For every pipeline with the background flag set whose
    stages run in children, that is every pipeline but a builtin that
    stands alone without redirection, [run_pipeline] returns status 0
    without waiting: it creates the children, waits for none of them, and
    they stay in the table of children.  The builtin that stands alone
    without redirection is run in the interpreter whatever the flag says,
    and its own status is returned. *)
Theorem background_returns_at_once (stages : list Stage) (k : Kernel) :
  (runs_in_process stages = false ->
   exists k',
     run_pipeline stages true k = (Ret 0%Z, k') /\
     detached k (spawned_by stages k) k' /\
     length (spawned_by stages k) = length stages /\
     (forall pid, ~ In (EvWait pid) (k_trace k) ->
                  ~ In (EvWait pid) (k_trace k'))) /\
  (forall st, stages = [st] -> runs_in_process stages = true ->
              run_pipeline stages true k = run_builtin (st_argv st) k).
Proof.
  split.
  - intros R.
    destruct (@run_pipeline_background stages k R) as (k' & E & D).
    exists k'. split; [exact E|]. split; [exact D|].
    split; [apply spawned_by_length, R|].
    destruct D as (_ & _ & T & _). intros pid N I. rewrite T in I.
    apply in_app_or in I as [I|I]; [auto|].
    apply in_map_iff in I as (p & X & _). discriminate.
  - intros st -> R. unfold runs_in_process in R.
    apply andb_true_iff in R as [B N].
    unfold run_pipeline. rewrite B, N. reflexivity.
Qed.

(** [true &] in the small world: status 0, one child created, not waited
    for. *)
Lemma background_returns_at_once_witness :
  exists k',
    run_pipeline [mkStage [lit "true"] None None] true demo_kernel
    = (Ret 0%Z, k') /\
    k_trace k' = [EvFork 100] /\ k_children k' = [(100, 0%Z)].
Proof.
  destruct (background_returns_at_once
              [mkStage [lit "true"] None None] demo_kernel) as [Bg _].
  destruct (Bg eq_refl) as (k' & E & _).
  exists k'. split; [exact E|].
  assert (V : snd (run_pipeline [mkStage [lit "true"] None None] true
                     demo_kernel) = k') by (rewrite E; reflexivity).
  rewrite <- V. split; reflexivity.
Defined.

(* ================================================================= *)
(** ** Stripping white space *)

Lemma lstrip_split (l : str) :
  exists ws, l = ws ++ lstrip l /\ forallb isspace ws = true.
Proof.
  induction l as [|c t (ws & E & F)]; simpl.
  - exists []. auto.
  - destruct (isspace c) eqn:S.
    + exists (c :: ws). simpl. rewrite S, F, <- E. auto.
    + exists []. auto.
Qed.

Lemma lstrip_head (l : str) :
  match lstrip l with
  | [] => forallb isspace l = true
  | c :: _ => isspace c = false
  end.
Proof.
  induction l as [|c t IH]; simpl; [reflexivity|].
  destruct (isspace c) eqn:S; simpl; [exact IH|exact S].
Qed.

Lemma lstrip_all_space (l : str) :
  forallb isspace l = true -> lstrip l = [].
Proof.
  induction l as [|c t IH]; simpl; [reflexivity|].
  destruct (isspace c); simpl; [exact IH|discriminate].
Qed.

Lemma lstrip_keep (c : ascii) (t : str) :
  isspace c = false -> lstrip (c :: t) = c :: t.
Proof. simpl. intros ->. reflexivity. Qed.

Lemma lstrip_app_keep (l r : str) :
  lstrip l <> [] -> lstrip (l ++ r) = lstrip l ++ r.
Proof.
  induction l as [|c t IH]; simpl; [congruence|].
  destruct (isspace c); [exact IH|reflexivity].
Qed.

Lemma rstrip_split (l : str) :
  exists ws, l = rstrip l ++ ws /\ forallb isspace ws = true.
Proof.
  unfold rstrip. destruct (lstrip_split (rev l)) as (ws & E & F).
  exists (rev ws). split.
  - rewrite <- rev_app_distr, <- E, rev_involutive. reflexivity.
  - rewrite forallb_forall in *. intros x I. apply F, in_rev, I.
Qed.

Lemma rstrip_last (l : str) (d : ascii) :
  rstrip l <> [] -> isspace (last (rstrip l) d) = false.
Proof.
  unfold rstrip. pose proof (lstrip_head (rev l)) as H.
  destruct (lstrip (rev l)) as [|c t]; [simpl; intros N; now elim N|].
  intros _. simpl. rewrite last_last. exact H.
Qed.

Lemma rstrip_all_space (l : str) :
  forallb isspace l = true -> rstrip l = [].
Proof.
  intros F. unfold rstrip. rewrite lstrip_all_space; [reflexivity|].
  rewrite forallb_forall in *. intros x I. apply F, in_rev, I.
Qed.

Lemma rstrip_keep (l : str) (c : ascii) :
  isspace c = false -> rstrip (l ++ [c]) = l ++ [c].
Proof.
  intros S. unfold rstrip. rewrite rev_app_distr. simpl. rewrite S.
  simpl. rewrite rev_involutive. reflexivity.
Qed.

Lemma rstrip_app_space (l ws : str) :
  forallb isspace ws = true -> rstrip (l ++ ws) = rstrip l.
Proof.
  intros F. unfold rstrip. rewrite rev_app_distr. f_equal.
  induction ws as [|c ws IH] using rev_ind; [reflexivity|].
  rewrite forallb_app in F. apply andb_true_iff in F as [F1 F2].
  simpl in F2. rewrite andb_true_r in F2.
  rewrite rev_app_distr. simpl. rewrite F2. apply IH, F1.
Qed.

Lemma rstrip_head (l : str) (c d : ascii) :
  isspace c = false -> hd d (rstrip (c :: l)) = c /\ rstrip (c :: l) <> [].
Proof.
  intros S. destruct (rstrip_split (c :: l)) as (ws & E & F).
  destruct (rstrip (c :: l)) as [|x r] eqn:R.
  - simpl in E. subst ws. simpl in F. rewrite S in F. discriminate.
  - simpl in E. injection E as -> _. split; [reflexivity|discriminate].
Qed.

Lemma strip_trimmed (l : str) : trimmed (strip l).
Proof.
  unfold strip, trimmed. pose proof (lstrip_head l) as H.
  destruct (lstrip l) as [|c t] eqn:L; [exact I|].
  destruct (@rstrip_head t c c H) as [Hd Ne].
  pose proof (@rstrip_last (c :: t) c Ne) as La.
  destruct (rstrip (c :: t)) as [|x r]; [exact I|].
  simpl in Hd. subst x. split; assumption.
Qed.

Lemma trimmed_strip (l : str) : trimmed l -> strip l = l.
Proof.
  unfold trimmed, strip. destruct l as [|c t]; [reflexivity|].
  intros [H L]. rewrite lstrip_keep by exact H.
  destruct (@exists_last _ (c :: t)) as (p & x & E); [discriminate|].
  rewrite E in *. rewrite last_last in L. apply rstrip_keep, L.
Qed.

Lemma strip_all_space (l : str) :
  forallb isspace l = true <-> strip l = [].
Proof.
  split.
  - intros F. unfold strip. rewrite lstrip_all_space by exact F. reflexivity.
  - unfold strip. intros E. pose proof (lstrip_head l) as H.
    destruct (lstrip l) as [|c t]; [exact H|].
    destruct (@rstrip_head t c c H) as [_ Ne]. contradiction.
Qed.

(* ================================================================= *)
(** ** The pipeline splitter *)

Lemma split_pipeline_loop_acc (l : str) :
  forall in_s in_d buf pre segs,
    split_pipeline_loop l in_s in_d buf (pre ++ segs) =
    (pre ++ fst (split_pipeline_loop l in_s in_d buf segs),
     snd (split_pipeline_loop l in_s in_d buf segs)).
Proof.
  induction l as [|ch rest IH]; intros; simpl; [reflexivity|].
  destruct (Ascii.eqb ch squote && negb in_d); [apply IH|].
  destruct (Ascii.eqb ch dquote && negb in_s); [apply IH|].
  destruct (Ascii.eqb ch pipe_ch && negb in_s && negb in_d); [|apply IH].
  rewrite <- app_assoc. apply IH.
Qed.

Lemma split_pipeline_loop_app (a b : str) :
  forall in_s in_d buf segs,
    split_pipeline_loop (a ++ b) in_s in_d buf segs =
    split_pipeline_loop b
      (fst (quote_flags a in_s in_d)) (snd (quote_flags a in_s in_d))
      (snd (split_pipeline_loop a in_s in_d buf segs))
      (fst (split_pipeline_loop a in_s in_d buf segs)).
Proof.
  induction a as [|ch rest IH]; intros; simpl; [reflexivity|].
  destruct (Ascii.eqb ch squote && negb in_d); [apply IH|].
  destruct (Ascii.eqb ch dquote && negb in_s); [apply IH|].
  destruct (Ascii.eqb ch pipe_ch && negb in_s && negb in_d); apply IH.
Qed.

Lemma split_pipeline_loop_trimmed (l : str) :
  forall in_s in_d buf segs,
    Forall trimmed segs ->
    Forall trimmed (fst (split_pipeline_loop l in_s in_d buf segs)).
Proof.
  induction l as [|ch rest IH]; intros in_s in_d buf segs F; simpl;
    [exact F|].
  destruct (Ascii.eqb ch squote && negb in_d); [apply IH, F|].
  destruct (Ascii.eqb ch dquote && negb in_s); [apply IH, F|].
  destruct (Ascii.eqb ch pipe_ch && negb in_s && negb in_d);
    [|apply IH, F].
  apply IH, Forall_app. split; [exact F|].
  constructor; [apply strip_trimmed|constructor].
Qed.

Lemma split_pipeline_loop_no_pipe (l : str) :
  forall in_s in_d buf segs,
    ~ In pipe_ch l ->
    split_pipeline_loop l in_s in_d buf segs = (segs, buf ++ l).
Proof.
  induction l as [|ch rest IH]; intros in_s in_d buf segs N; simpl.
  - rewrite app_nil_r. reflexivity.
  - assert (E : Ascii.eqb ch pipe_ch = false).
    { destruct (Ascii.eqb ch pipe_ch) eqn:E; [|reflexivity].
      apply Ascii.eqb_eq in E. subst ch. exfalso. apply N. simpl. auto. }
    rewrite E. simpl.
    assert (N' : ~ In pipe_ch rest) by (intros I; apply N; simpl; auto).
    destruct (Ascii.eqb ch squote && negb in_d);
      [|destruct (Ascii.eqb ch dquote && negb in_s)];
      rewrite IH by exact N'; rewrite <- app_assoc; reflexivity.
Qed.

Lemma not_in_cons (q ch : ascii) (rest : str) :
  ~ In q (ch :: rest) -> Ascii.eqb ch q = false /\ ~ In q rest.
Proof.
  intros N. split.
  - destruct (Ascii.eqb ch q) eqn:E; [|reflexivity].
    apply Ascii.eqb_eq in E. subst ch. exfalso. apply N. simpl. auto.
  - intros I. apply N. simpl. auto.
Qed.

(** Inside a quoted span every character but the closing quote is text. *)
Lemma split_pipeline_loop_single (body : str) :
  ~ In squote body ->
  forall buf segs,
    split_pipeline_loop body true false buf segs = (segs, buf ++ body) /\
    quote_flags body true false = (true, false).
Proof.
  induction body as [|ch rest IH]; intros N buf segs; simpl.
  - rewrite app_nil_r. auto.
  - destruct (not_in_cons N) as [Nq N']. rewrite Nq.
    cbn [andb negb]. rewrite !andb_false_r. cbn [andb].
    destruct (IH N' (buf ++ [ch]) segs) as [-> ->].
    rewrite <- app_assoc. auto.
Qed.

Lemma split_pipeline_loop_double (body : str) :
  ~ In dquote body ->
  forall buf segs,
    split_pipeline_loop body false true buf segs = (segs, buf ++ body) /\
    quote_flags body false true = (false, true).
Proof.
  induction body as [|ch rest IH]; intros N buf segs; simpl.
  - rewrite app_nil_r. auto.
  - destruct (not_in_cons N) as [Nq N']. rewrite Nq.
    cbn [andb negb]. rewrite !andb_false_r. cbn [andb].
    destruct (IH N' (buf ++ [ch]) segs) as [-> ->].
    rewrite <- app_assoc. auto.
Qed.

Lemma nonempty_true (x : str) : nonempty x = true <-> x <> [].
Proof. destruct x; simpl; split; congruence. Qed.

(** X1. Every segment that [split_pipeline] returns is non-empty and has
    no white space at either end. *)
Theorem split_pipeline_segments (line seg : str) :
  In seg (split_pipeline line) ->
  seg <> [] /\ trimmed seg /\ strip seg = seg.
Proof.
  unfold split_pipeline.
  pose proof (@split_pipeline_loop_trimmed line false false [] []
                (Forall_nil _)) as T.
  destruct (split_pipeline_loop line false false [] []) as [segs buf].
  simpl in T. intros I. apply filter_In in I as [I Ne].
  apply nonempty_true in Ne. split; [exact Ne|].
  assert (Tr : trimmed seg).
  { rewrite Forall_forall in T. destruct (nonempty buf); [|auto].
    apply in_app_or in I as [I|[<-|[]]]; [auto|apply strip_trimmed]. }
  split; [exact Tr|apply trimmed_strip, Tr].
Qed.

Lemma split_pipeline_segments_witness :
  lit "grep x" <> [] /\ trimmed (lit "grep x")
  /\ strip (lit "grep x") = lit "grep x".
Proof.
  apply (@split_pipeline_segments (lit " ls -l |  grep x  | wc ")).
  vm_compute. auto.
Defined.

(** X2. A quoted span is never split: a text between two quotes of the
    same kind, with no such quote inside, is one segment, whatever pipe
    characters and quotes of the other kind it contains. *)
Theorem split_pipeline_quoted (q : ascii) (body : str) :
  is_quote q = true -> ~ In q body ->
  split_pipeline (q :: body ++ [q]) = [q :: body ++ [q]].
Proof.
  intros Q N. unfold split_pipeline.
  assert (L : split_pipeline_loop (q :: body ++ [q]) false false [] [] =
              ([], q :: body ++ [q])).
  { destruct (is_quote_cases q Q) as [-> | ->].
    - change (split_pipeline_loop (squote :: body ++ [squote])
                false false [] [])
        with (split_pipeline_loop (body ++ [squote]) true false [squote] []).
      rewrite split_pipeline_loop_app.
      destruct (@split_pipeline_loop_single body N [squote] []) as [-> ->].
      reflexivity.
    - change (split_pipeline_loop (dquote :: body ++ [dquote])
                false false [] [])
        with (split_pipeline_loop (body ++ [dquote]) false true [dquote] []).
      rewrite split_pipeline_loop_app.
      destruct (@split_pipeline_loop_double body N [dquote] []) as [-> ->].
      reflexivity. }
  rewrite L. cbn [nonempty app].
  assert (T : trimmed (q :: body ++ [q])).
  { unfold trimmed.
    change (q :: body ++ [q]) with ((q :: body) ++ [q]) at 1.
    rewrite last_last. split; apply is_quote_not_space, Q. }
  rewrite (trimmed_strip _ T). reflexivity.
Qed.

Lemma split_pipeline_quoted_witness :
  split_pipeline (lit "'a | b'") = [lit "'a | b'"].
Proof.
  apply (@split_pipeline_quoted squote (lit "a | b") eq_refl).
  vm_compute. intuition discriminate.
Defined.

Lemma filter_nonempty_last (segs : list str) (buf : str) :
  filter nonempty (if nonempty buf then segs ++ [strip buf] else segs) =
  filter nonempty (segs ++ [strip buf]).
Proof.
  destruct buf as [|c t]; [|reflexivity]. simpl.
  rewrite filter_app. simpl. rewrite app_nil_r. reflexivity.
Qed.

(** X3. A pipe character outside quotes separates: when the text before
    it closes every quote it opens, the segments of the line are those of
    the text before the pipe followed by those of the text after it. *)
Theorem split_pipeline_at_pipe (a b : str) :
  quote_flags a false false = (false, false) ->
  split_pipeline (a ++ pipe_ch :: b) = split_pipeline a ++ split_pipeline b.
Proof.
  intros F. unfold split_pipeline.
  rewrite split_pipeline_loop_app, F. cbn [fst snd].
  destruct (split_pipeline_loop a false false [] []) as [sa ba].
  cbn [fst snd]. cbn [split_pipeline_loop].
  replace (Ascii.eqb pipe_ch squote) with false by reflexivity.
  replace (Ascii.eqb pipe_ch dquote) with false by reflexivity.
  rewrite Ascii.eqb_refl. cbn [andb negb].
  pose proof (split_pipeline_loop_acc b false false [] (sa ++ [strip ba]) [])
    as E.
  rewrite app_nil_r in E. rewrite E. clear E.
  destruct (split_pipeline_loop b false false [] []) as [sb bb].
  cbn [fst snd]. rewrite !filter_nonempty_last, !filter_app.
  rewrite <- !app_assoc. reflexivity.
Qed.

Lemma split_pipeline_at_pipe_witness :
  split_pipeline (lit "echo 'a|b' | wc") =
  split_pipeline (lit "echo 'a|b' ") ++ split_pipeline (lit " wc").
Proof.
  apply (@split_pipeline_at_pipe (lit "echo 'a|b' ") (lit " wc")).
  reflexivity.
Defined.

(** X4. A line without any pipe character is one segment, the line
    without the white space around it, or no segment when nothing else is
    in the line. *)
Theorem split_pipeline_no_pipe (line : str) :
  ~ In pipe_ch line ->
  split_pipeline line = if nonempty (strip line) then [strip line] else [].
Proof.
  intros N. unfold split_pipeline.
  rewrite split_pipeline_loop_no_pipe by exact N. cbn [app].
  destruct line as [|c t]; [reflexivity|]. cbn [nonempty filter].
  destruct (nonempty (strip (c :: t))); reflexivity.
Qed.

Lemma split_pipeline_no_pipe_witness :
  split_pipeline (lit "  ls -l ") = [lit "ls -l"].
Proof.
  rewrite split_pipeline_no_pipe; [reflexivity|].
  vm_compute. intuition discriminate.
Defined.

(* ================================================================= *)
(** ** The background detector *)

Lemma endswith_ch_last (l : str) (c : ascii) :
  endswith_ch l c = true <-> exists p, l = p ++ [c].
Proof.
  unfold endswith_ch. split.
  - destruct (rev l) as [|x r] eqn:R; [discriminate|].
    intros E. apply Ascii.eqb_eq in E. subst x. exists (rev r).
    rewrite <- (rev_involutive l), R. reflexivity.
  - intros (p & ->). rewrite rev_app_distr. simpl. apply Ascii.eqb_refl.
Qed.

(** X5. [parse_background] sets the flag exactly when the last character
    of the line that is not white space is [&]; it then returns what stands
    before that [&], without the white space at its end.  Otherwise the line
    comes back as it was. *)
Theorem parse_background_marker :
  (forall pre ws,
     forallb isspace ws = true ->
     parse_background (pre ++ amp_ch :: ws) = (rstrip pre, true)) /\
  (forall line,
     parse_background line = (line, false) \/
     exists pre ws,
       line = pre ++ amp_ch :: ws /\ forallb isspace ws = true /\
       parse_background line = (rstrip pre, true)).
Proof.
  assert (Marked : forall pre ws,
            forallb isspace ws = true ->
            parse_background (pre ++ amp_ch :: ws) = (rstrip pre, true)).
  { intros pre ws F. unfold parse_background.
    change (pre ++ amp_ch :: ws) with (pre ++ [amp_ch] ++ ws).
    rewrite app_assoc, (rstrip_app_space _ ws F).
    rewrite (rstrip_keep pre amp_ch eq_refl).
    replace (endswith_ch (pre ++ [amp_ch]) amp_ch) with true
      by (symmetry; apply endswith_ch_last; eauto).
    rewrite removelast_last. reflexivity. }
  split; [exact Marked|].
  intros line. unfold parse_background.
  destruct (endswith_ch (rstrip line) amp_ch) eqn:E; [right|left; reflexivity].
  apply endswith_ch_last in E as (pre & E).
  destruct (rstrip_split line) as (ws & L & F).
  exists pre, ws. rewrite E in L. rewrite <- app_assoc in L. simpl in L.
  split; [exact L|]. split; [exact F|].
  rewrite E, removelast_last. reflexivity.
Qed.

Lemma parse_background_marker_witness :
  parse_background (lit "sleep 1  &  ") = (lit "sleep 1", true).
Proof.
  destruct parse_background_marker as [Marked _].
  apply (Marked (lit "sleep 1  ") (lit "  ")). reflexivity.
Defined.

(* ================================================================= *)
(** ** More on the tokenizer *)

Lemma token_re_match_shape (u tok rest : str) :
  token_re_match u = Some (tok, rest) ->
  exists ws, u = ws ++ tok ++ rest /\ forallb isspace ws = true /\
             match_group (tok ++ rest) = Some (tok, rest).
Proof.
  revert tok rest; induction u as [|c t IH]; intros tok rest; [discriminate|].
  assert (G : match_group (c :: t) = Some (tok, rest) ->
              exists ws, c :: t = ws ++ tok ++ rest /\
                         forallb isspace ws = true /\
                         match_group (tok ++ rest) = Some (tok, rest)).
  { intros H. destruct (match_group_shape _ H) as [E _].
    exists []. rewrite <- E. auto. }
  cbn [token_re_match]. destruct (isspace c) eqn:S; [|exact G].
  destruct (token_re_match t) as [[tok' rest']|] eqn:T; [|exact G].
  intros H; injection H as <- <-.
  destruct (IH _ _ eq_refl) as (ws & -> & F & M).
  exists (c :: ws). simpl. rewrite S, F. auto.
Qed.

(** X6. A segment made of spaces, TABs, CRs and LFs has no token, and a
    segment without token is made of white space only. *)
Theorem tokenize_nothing (cmd : str) :
  (forallb is_blank cmd = true -> tokenize cmd = []) /\
  (tokenize cmd = [] -> forallb isspace cmd = true).
Proof.
  split.
  - induction cmd as [|c t IH]; [reflexivity|]. simpl. intros F.
    apply andb_true_iff in F as [B F]. rewrite tokenize_blank by exact B.
    apply IH, F.
  - induction cmd as [|c t IH]; [reflexivity|].
    rewrite tokenize_cons.
    destruct (token_re_match (c :: t)) as [[tok rest]|]; [discriminate|].
    destruct (isspace c) eqn:S; [|discriminate].
    intros E. simpl. rewrite S. apply IH, E.
Qed.

Lemma tokenize_nothing_witness :
  tokenize (lit "   ") = [] /\ forallb isspace (lit "   ") = true.
Proof.
  destruct (tokenize_nothing (lit "   ")) as [Blank Space].
  assert (E : tokenize (lit "   ") = []) by (apply Blank; reflexivity).
  split; [exact E|apply Space, E].
Defined.

(** X7. In a segment without quote characters every token is non-empty
    and holds no space, TAB, CR or LF; taken together the tokens are not
    longer than the segment. *)
Theorem tokenize_unquoted (cmd : str) :
  forallb (fun c => negb (is_quote c)) cmd = true ->
  Forall (fun tok => tok <> [] /\ forallb is_bare tok = true) (tokenize cmd)
  /\ length (concat (tokenize cmd)) <= length cmd.
Proof.
  assert (Le : length cmd <= length cmd) by lia.
  revert Le. generalize (length cmd) at 2. intros n.
  revert cmd. induction n as [|n IH]; intros cmd Le Q.
  - destruct cmd; [|simpl in Le; lia]. split; [constructor|simpl; lia].
  - destruct cmd as [|c t]; [split; [constructor|simpl; lia]|].
    simpl in Le. rewrite tokenize_cons.
    simpl in Q. apply andb_true_iff in Q as [Qc Qt].
    apply negb_true_iff in Qc.
    destruct (token_re_match (c :: t)) as [[tok rest]|] eqn:T.
    + destruct (token_re_match_shape _ T) as (ws & E & F & M).
      assert (Len : length (c :: t) = length ws + length tok + length rest).
      { rewrite E, !length_app. lia. }
      assert (Qall : forallb (fun c => negb (is_quote c)) (tok ++ rest)
                     = true).
      { assert (Qu : forallb (fun c => negb (is_quote c)) (c :: t) = true)
          by (simpl; rewrite Qc, Qt; reflexivity).
        rewrite E, !forallb_app in Qu.
        apply andb_true_iff in Qu as [_ Qu]. rewrite forallb_app.
        exact Qu. }
      destruct (match_group_shape _ M) as [_ Ne].
      destruct tok as [|x tok]; [congruence|].
      simpl in Qall. apply andb_true_iff in Qall as [Qx Qr].
      apply negb_true_iff in Qx.
      assert (Bx : is_bare x = true).
      { change ((x :: tok) ++ rest) with (x :: (tok ++ rest)) in M.
        unfold match_group in M. pose proof Qx as Qx'. unfold is_quote in Qx'.
        apply orb_false_iff in Qx' as [Q1 Q2]. rewrite Q1, Q2 in M.
        destruct (is_bare x); [reflexivity|discriminate]. }
      change ((x :: tok) ++ rest) with (x :: (tok ++ rest)) in M.
      rewrite (match_group_bare x (tok ++ rest) Qx Bx) in M.
      assert (Sp : span is_bare (x :: tok ++ rest) = (x :: tok, rest)).
      { apply (f_equal (fun o => match o with
                                 | Some v => v
                                 | None => ([], [])
                                 end)) in M. exact M. }
      clear M.
      rewrite forallb_app in Qr. apply andb_true_iff in Qr as [_ Qr].
      simpl in Len.
      destruct (IH rest ltac:(lia) Qr) as [Fa Lc].
      rewrite strip_quotes_plain by exact Qx. split.
      * constructor; [|exact Fa]. split; [discriminate|].
        exact (span_all _ _ Sp).
      * simpl. rewrite length_app. simpl. lia.
    + destruct (isspace c) eqn:S.
      * destruct (IH t ltac:(lia) Qt) as [Fa Lc]. split; [exact Fa|].
        simpl. lia.
      * exfalso. cbn [token_re_match] in T. rewrite S in T.
        assert (B : is_bare c = true).
        { rewrite is_bare_classes, Qc.
          destruct (is_blank c) eqn:B; [|reflexivity].
          apply is_blank_isspace in B. congruence. }
        rewrite (match_group_bare c t Qc B) in T. discriminate.
Qed.

Lemma tokenize_unquoted_witness :
  Forall (fun tok => tok <> [] /\ forallb is_bare tok = true)
    (tokenize (lit " ls  -l /tmp ")).
Proof.
  apply (@tokenize_unquoted (lit " ls  -l /tmp ")). reflexivity.
Defined.

(** X8. Quoting protects: words that hold no quote character of the kind
    used, each put between two such quotes and joined by single spaces,
    come back from [tokenize] as they were, empty words and words with
    spaces or pipes included. *)
Theorem tokenize_quoted_words (q : ascii) (words : list str) :
  is_quote q = true ->
  Forall (fun w => ~ In q w) words ->
  tokenize (str_join " "%char (map (fun w => q :: w ++ [q]) words)) = words.
Proof.
  intros Q F. induction F as [|w more N F IH]; [reflexivity|].
  destruct more as [|w2 more].
  - simpl. rewrite (tokenize_quoted q w [] Q N). reflexivity.
  - assert (E : str_join " "%char
                  (map (fun w => q :: w ++ [q]) (w :: w2 :: more)) =
                q :: w ++ q :: " "%char ::
                  str_join " "%char (map (fun w => q :: w ++ [q]) (w2 :: more))).
    { simpl. rewrite <- app_assoc. reflexivity. }
    rewrite E, (tokenize_quoted q w _ Q N).
    rewrite tokenize_blank by reflexivity. rewrite IH. reflexivity.
Qed.

Lemma tokenize_quoted_words_witness :
  tokenize (lit "'a b' '' 'c|d'") = [lit "a b"; []; lit "c|d"].
Proof.
  apply (@tokenize_quoted_words squote [lit "a b"; []; lit "c|d"] eq_refl).
  repeat constructor; vm_compute; intuition discriminate.
Defined.

(** X9. Plain words, each non-empty, free of space, TAB, CR, LF and
    quotes, and starting with a character that is not white space, joined
    by single spaces, come back from [tokenize] as they were. *)
Theorem tokenize_plain_words (words : list str) :
  Forall (fun w => forallb is_bare w = true /\
                   exists c t, w = c :: t /\ isspace c = false) words ->
  tokenize (str_join " "%char words) = words.
Proof.
  intros F. induction F as [|w more [B (c & t & -> & S)] F IH];
    [reflexivity|].
  assert (Q : is_quote c = false).
  { simpl in B. apply andb_true_iff in B as [B _].
    rewrite is_bare_classes in B. apply andb_true_iff in B as [_ B].
    apply negb_true_iff in B. exact B. }
  destruct more as [|w2 more].
  - simpl str_join.
    rewrite (tokenize_bare c t (run := c :: t) (rest := []) S Q).
    + reflexivity.
    + rewrite <- (app_nil_r (c :: t)) at 1. apply span_exact; auto.
  - change (str_join " "%char ((c :: t) :: w2 :: more))
      with ((c :: t) ++ " "%char :: str_join " "%char (w2 :: more)).
    change (((c :: t) ++ " "%char :: str_join " "%char (w2 :: more)))
      with (c :: (t ++ " "%char :: str_join " "%char (w2 :: more))).
    rewrite (tokenize_bare c _ (run := c :: t)
               (rest := " "%char :: str_join " "%char (w2 :: more)) S Q).
    + rewrite tokenize_blank by reflexivity. rewrite IH. reflexivity.
    + change (c :: t ++ " "%char :: str_join " "%char (w2 :: more))
        with ((c :: t) ++ " "%char :: str_join " "%char (w2 :: more)).
      apply span_exact; [exact B|reflexivity].
Qed.

Lemma tokenize_plain_words_witness :
  tokenize (lit "grep -i a\b") = [lit "grep"; lit "-i"; lit "a\b"].
Proof.
  apply (@tokenize_plain_words [lit "grep"; lit "-i"; lit "a\b"]).
  repeat constructor; eexists; eexists; split; reflexivity.
Defined.

(* ================================================================= *)
(** ** More on the redirection parser *)

Lemma is_operator_false (t : str) :
  is_operator t = false <-> t <> lt_tok /\ t <> gt_tok.
Proof.
  unfold is_operator. rewrite orb_false_iff. split.
  - intros [A B]. split; intros ->; rewrite str_eqb_refl in *; discriminate.
  - intros [A B]. split; apply str_eqb_neq; assumption.
Qed.

Lemma is_operator_true (t : str) :
  is_operator t = true <-> t = lt_tok \/ t = gt_tok.
Proof.
  unfold is_operator. rewrite orb_true_iff, !str_eqb_eq. tauto.
Qed.

(** X10. An argument vector without the tokens [<] and [>] goes through
    [parse_redirections] unchanged, with no path recorded. *)
Theorem parse_redirections_plain (argv : list str) :
  forallb (fun t => negb (is_operator t)) argv = true ->
  parse_redirections argv = (argv, None, None).
Proof.
  induction argv as [|t rest IH]; [reflexivity|]. simpl. intros F.
  apply andb_true_iff in F as [Ft Fr]. apply negb_true_iff in Ft.
  apply is_operator_false in Ft as [N1 N2].
  rewrite parse_redirections_other by assumption.
  rewrite IH by exact Fr. reflexivity.
Qed.

Lemma parse_redirections_plain_witness :
  parse_redirections [lit "ls"; lit "-l"; lit "a<b"] =
  ([lit "ls"; lit "-l"; lit "a<b"], None, None).
Proof. apply parse_redirections_plain. reflexivity. Defined.

(** What [parse_redirections] leaves: tokens of the vector, with an
    operator at most in the last place. *)
Lemma parse_redirections_leaves (n : nat) :
  forall argv, length argv <= n ->
    let '(out, infile, outfile) := parse_redirections argv in
    forallb (fun t => negb (is_operator t)) (removelast out) = true /\
    (forall t, In t out -> In t argv) /\
    (forall f, infile = Some f -> In f argv) /\
    (forall f, outfile = Some f -> In f argv) /\
    length out <= length argv.
Proof.
  induction n as [|n IH]; intros argv L.
  - destruct argv; [|simpl in L; lia]. simpl.
    repeat split; auto; discriminate.
  - destruct argv as [|t [|nxt rest]].
    + simpl. repeat split; auto; discriminate.
    + simpl. repeat split; auto; discriminate.
    + simpl in L. destruct (is_operator t) eqn:Op.
      * apply is_operator_true in Op.
        specialize (IH rest ltac:(lia)).
        destruct Op as [-> | ->];
          [rewrite parse_redirections_in|rewrite parse_redirections_out];
          destruct (parse_redirections rest) as [[o i] g];
          destruct IH as (A & B & C & D & E);
          (split; [exact A|]);
          (split; [intros x I; simpl; auto|]);
          (split; [|split; [|simpl; lia]]).
        -- intros f H. injection H as <-. destruct i; simpl; auto.
        -- intros f H. simpl. auto.
        -- intros f H. simpl. auto.
        -- intros f H. injection H as <-. destruct g; simpl; auto.
      * pose proof Op as Op'. apply is_operator_false in Op' as [N1 N2].
        rewrite parse_redirections_other by assumption.
        specialize (IH (nxt :: rest) ltac:(simpl; lia)).
        destruct (parse_redirections (nxt :: rest)) as [[o i] g].
        destruct IH as (A & B & C & D & E).
        split; [|split; [|split; [|split]]].
        -- destruct o as [|x o]; [reflexivity|].
           change (removelast (t :: x :: o)) with (t :: removelast (x :: o)).
           cbn [forallb]. rewrite Op. cbn [negb andb]. exact A.
        -- intros x [<- | I]; [left; reflexivity|right; apply B, I].
        -- intros f H. right. apply C, H.
        -- intros f H. right. apply D, H.
        -- simpl in *. lia.
Qed.

Lemma parse_redirections_settled (l : list str) :
  forallb (fun t => negb (is_operator t)) (removelast l) = true ->
  parse_redirections l = (l, None, None).
Proof.
  induction l as [|t [|t2 r] IH]; intros F; try reflexivity.
  change (removelast (t :: t2 :: r)) with (t :: removelast (t2 :: r)) in F.
  cbn [forallb] in F. apply andb_true_iff in F as [Ft Fr].
  apply negb_true_iff in Ft. apply is_operator_false in Ft as [N1 N2].
  rewrite parse_redirections_other by assumption.
  rewrite IH by exact Fr. reflexivity.
Qed.

(** X11. The cleaned vector of [parse_redirections] needs no second pass:
    parsing it again changes nothing and finds no path.  Its tokens, and
    the paths recorded, are tokens of the vector given, and it is not
    longer than that vector. *)
Theorem parse_redirections_clean (argv : list str) :
  let '(out, infile, outfile) := parse_redirections argv in
  parse_redirections out = (out, None, None) /\
  (forall t, In t out -> In t argv) /\
  (forall f, infile = Some f -> In f argv) /\
  (forall f, outfile = Some f -> In f argv) /\
  length out <= length argv.
Proof.
  pose proof (@parse_redirections_leaves (length argv) argv (le_n _)) as H.
  destruct (parse_redirections argv) as [[out i] g].
  destruct H as (A & B & C & D & E).
  split; [apply parse_redirections_settled, A|auto].
Qed.

(** [sort < f -r]: the cleaned vector [sort -r] parses to itself. *)
Lemma parse_redirections_clean_witness :
  parse_redirections [lit "sort"; lit "-r"]
  = ([lit "sort"; lit "-r"], None, None).
Proof.
  exact (proj1 (parse_redirections_clean
                  [lit "sort"; lit "<"; lit "f"; lit "-r"])).
Defined.

(* ================================================================= *)
(** ** More on the stages of a line *)

Lemma isspace_not_pipe (l : str) :
  forallb isspace l = true -> ~ In pipe_ch l.
Proof.
  intros F I. rewrite forallb_forall in F. apply F in I. discriminate.
Qed.

Lemma isspace_not_amp (l : str) :
  forallb isspace l = true -> endswith_ch (rstrip l) amp_ch = false.
Proof.
  intros F. rewrite rstrip_all_space by exact F. reflexivity.
Qed.

(** X12. A line of white space only has no stage and no background flag. *)
Theorem parse_line_into_stages_blank (line : str) :
  forallb isspace line = true ->
  parse_line_into_stages line = ([], false).
Proof.
  intros F. unfold parse_line_into_stages, parse_background.
  rewrite (isspace_not_amp line F). unfold split_pipeline.
  rewrite split_pipeline_loop_no_pipe by exact (isspace_not_pipe line F).
  cbn [app]. replace (strip line) with (@nil ascii)
    by (symmetry; apply strip_all_space, F).
  destruct line; reflexivity.
Qed.

Lemma parse_line_into_stages_blank_witness :
  parse_line_into_stages (lit "   ") = ([], false).
Proof. apply parse_line_into_stages_blank. reflexivity. Defined.

(* ================================================================= *)
(** ** More on the resolver, the builtins and the status translator *)

Lemma contains_ch_app (c : ascii) (a b : str) :
  contains_ch c (a ++ b) = contains_ch c a || contains_ch c b.
Proof. unfold contains_ch. apply existsb_app. Qed.

Lemma contains_ch_here (c : ascii) (b : str) :
  contains_ch c (c :: b) = true.
Proof. unfold contains_ch. simpl. rewrite Ascii.eqb_refl. reflexivity. Qed.

Lemma path_join_has_slash (d prog : str) :
  contains_ch slash_ch (path_join (path_dir d) prog) = true.
Proof.
  assert (N : exists c t, path_dir d = c :: t).
  { unfold path_dir. destruct d as [|c t]; simpl; eauto. }
  destruct N as (c & t & ->). unfold path_join.
  cbn [nonempty negb orb].
  assert (E : endswith_ch (c :: t) slash_ch = true ->
              forall b, contains_ch slash_ch ((c :: t) ++ b) = true).
  { intros E b. apply endswith_ch_last in E as (p & ->).
    rewrite !contains_ch_app, contains_ch_here, orb_true_r. reflexivity. }
  assert (S : forall b, contains_ch slash_ch ((c :: t) ++ slash_ch :: b)
                        = true).
  { intros b. rewrite contains_ch_app, contains_ch_here, orb_true_r.
    reflexivity. }
  destruct prog as [|x prog].
  - destruct (endswith_ch (c :: t) slash_ch) eqn:En.
    + rewrite <- (app_nil_r (c :: t)). apply E. reflexivity.
    + apply S.
  - destruct (Ascii.eqb x slash_ch) eqn:X.
    + apply Ascii.eqb_eq in X. subst x. apply contains_ch_here.
    + destruct (endswith_ch (c :: t) slash_ch) eqn:En;
        [apply E; reflexivity|apply S].
Qed.

Lemma is_executable_same (k k' : Kernel) (p : str) :
  k_cwd k' = k_cwd k -> k_oracle k' = k_oracle k ->
  is_executable k' p = is_executable k p.
Proof. unfold is_executable. intros -> ->. reflexivity. Qed.

Lemma search_path_same (k k' : Kernel) (dirs : list str) (prog : str) :
  k_cwd k' = k_cwd k -> k_oracle k' = k_oracle k ->
  search_path k' dirs prog = search_path k dirs prog.
Proof.
  intros C O. induction dirs as [|d more IH]; [reflexivity|].
  cbn [search_path]. rewrite IH.
  rewrite (@is_executable_same k k' _ C O). reflexivity.
Qed.

Lemma resolve_command_same (k k' : Kernel) (prog : str) :
  k_cwd k' = k_cwd k -> k_environ k' = k_environ k ->
  k_oracle k' = k_oracle k ->
  resolve_command k' prog = resolve_command k prog.
Proof.
  intros C E O. unfold resolve_command.
  rewrite (@is_executable_same k k' prog C O), E.
  rewrite (@search_path_same k k' _ prog C O). reflexivity.
Qed.

Lemma execve_value_error_same (k k' : Kernel) (p : str) (argv : list str) :
  k_environ k' = k_environ k ->
  execve_value_error k' p argv = execve_value_error k p argv.
Proof. unfold execve_value_error. intros ->. reflexivity. Qed.

Lemma resolve_command_found (k : Kernel) (prog p : str) :
  resolve_command k prog = Some p ->
  is_executable k p = true /\ contains_ch slash_ch p = true.
Proof.
  intros R. unfold resolve_command in R.
  destruct (contains_ch slash_ch prog) eqn:S.
  - destruct (is_executable k prog) eqn:X; [|discriminate].
    injection R as <-. auto.
  - apply search_path_found in R as (before & d & after & _ & _ & X & ->).
    split; [exact X|apply path_join_has_slash].
Qed.

(** X13. What [resolve_command] returns is executable and has a [/] in
    it, so that resolving it once more gives the same path. *)
Theorem resolve_command_sound (k : Kernel) (prog p : str) :
  resolve_command k prog = Some p ->
  is_executable k p = true /\
  contains_ch slash_ch p = true /\
  resolve_command k p = Some p.
Proof.
  intros R. destruct (resolve_command_found _ _ R) as [X S]. split; [exact X|]. split; [exact S|].
  unfold resolve_command. rewrite S, X. reflexivity.
Qed.

Lemma resolve_command_sound_witness :
  is_executable demo_kernel (lit "/bin/true") = true /\
  contains_ch slash_ch (lit "/bin/true") = true /\
  resolve_command demo_kernel (lit "/bin/true") = Some (lit "/bin/true").
Proof.
  apply (@resolve_command_sound demo_kernel (lit "true")). reflexivity.
Defined.

Lemma run_builtin_keeps (argv : list str) (k : Kernel) :
  let k' := snd (run_builtin argv k) in
  k_fds k' = k_fds k /\ k_environ k' = k_environ k /\
  k_children k' = k_children k /\ k_spawned k' = k_spawned k /\
  k_next_pid k' = k_next_pid k /\ k_oracle k' = k_oracle k.
Proof.
  unfold run_builtin.
  destruct argv as [|cmd args]; [simpl; auto 10|].
  destruct (str_eqb cmd (lit "exit")); [simpl; auto 10|].
  destruct (str_eqb cmd (lit "cd")); [|simpl; auto 10].
  unfold bind, environ_get, os_chdir, ret, eprint, emit.
  destruct args as [|a1 rest].
  - destruct (k_environ k (lit "HOME")) as [h|]; [|simpl; auto 10].
    destruct (fs_chdir (k_oracle k) (k_cwd k) h); simpl; auto 10.
  - destruct (fs_chdir (k_oracle k) (k_cwd k) a1); simpl; auto 10.
Qed.

(** X14. [run_builtin] touches nothing but the working directory and the
    error stream: descriptors, environment and children are as before and
    no child is created.  For a command that is no builtin it returns 0 and
    changes nothing at all. *)
Theorem run_builtin_frame (argv : list str) (k : Kernel) :
  (let k' := snd (run_builtin argv k) in
   k_fds k' = k_fds k /\ k_environ k' = k_environ k /\
   k_children k' = k_children k /\ k_spawned k' = k_spawned k /\
   k_next_pid k' = k_next_pid k /\ k_oracle k' = k_oracle k) /\
  (is_builtin argv = false -> run_builtin argv k = (Ret 0%Z, k)).
Proof.
  split; [apply run_builtin_keeps|].
  unfold run_builtin, is_builtin.
  destruct argv as [|cmd args]; [reflexivity|].
  destruct (str_eqb cmd (lit "exit")); [discriminate|].
  destruct (str_eqb cmd (lit "cd")); [discriminate|reflexivity].
Qed.

Lemma run_builtin_frame_witness :
  run_builtin [lit "ls"; lit "-l"] demo_kernel = (Ret 0%Z, demo_kernel).
Proof.
  destruct (run_builtin_frame [lit "ls"; lit "-l"] demo_kernel) as [_ H].
  apply H. reflexivity.
Defined.

Lemma WEXITSTATUS_range (status : Z) : (0 <= WEXITSTATUS status <= 255)%Z.
Proof.
  unfold WEXITSTATUS. rewrite Z.shiftr_land.
  change (Z.shiftr 65280 8) with (Z.ones 8).
  rewrite Z.land_ones by lia.
  pose proof (Z.mod_pos_bound (Z.shiftr status 8) (2 ^ 8) eq_refl) as H.
  generalize dependent (Z.shiftr status 8 mod 2 ^ 8)%Z. intros z H.
  change (2 ^ 8)%Z with 256%Z in H. lia.
Qed.

Lemma WTERMSIG_range (status : Z) : (0 <= WTERMSIG status <= 127)%Z.
Proof.
  unfold WTERMSIG.
  change (Z.land status 127) with (Z.land status (Z.ones 7)).
  rewrite Z.land_ones by lia.
  pose proof (Z.mod_pos_bound status (2 ^ 7) eq_refl) as H.
  generalize dependent (status mod 2 ^ 7)%Z. intros z H.
  change (2 ^ 7)%Z with 128%Z in H. lia.
Qed.

(** X15. Whatever the wait status, [status_to_exitcode] gives a number
    between 0 and 255, and it gives 0 only for a child that exited with
    code 0. *)
Theorem status_to_exitcode_range (status : Z) :
  (0 <= status_to_exitcode status <= 255)%Z /\
  (status_to_exitcode status = 0%Z <->
   WIFEXITED status = true /\ WEXITSTATUS status = 0%Z).
Proof.
  unfold status_to_exitcode.
  pose proof (WEXITSTATUS_range status) as E.
  pose proof (WTERMSIG_range status) as T.
  destruct (WIFEXITED status) eqn:X.
  - split; [exact E|]. intuition.
  - destruct (WIFSIGNALED status).
    + split; [lia|]. split; [lia|]. intros [H _]. discriminate.
    + split; [lia|]. split; [discriminate|]. intros [H _]. discriminate.
Qed.

(** The status 0 is that of a child that exited with code 0. *)
Lemma status_to_exitcode_range_witness :
  WIFEXITED 0%Z = true /\ WEXITSTATUS 0%Z = 0%Z.
Proof. apply (proj2 (status_to_exitcode_range 0%Z)). reflexivity. Defined.

(* ================================================================= *)
(** ** More on redirections and on how a child ends *)

Lemma redirect_one_cases (file : option str) (w : bool) (target : nat)
    (k : Kernel) :
  (file = None /\ redirect_one file w target (ret true) k = (Ret true, k)) \/
  (exists f e,
     file = Some f /\ fs_open (k_oracle k) (k_cwd k) f w = Some e /\
     redirect_one file w target (ret true) k =
     (Ret false,
      add_event (EvWrite 2 ((f ++ lit ": " ++ e) ++ [newline_ch])) k)) \/
  (exists f,
     file = Some f /\ fs_open (k_oracle k) (k_cwd k) f w = None /\
     redirect_one file w target (ret true) k =
     (Ret true, set_fds (redirected f w target (k_fds k)) k)).
Proof.
  destruct file as [f|]; [|left; auto]. right. unfold redirect_one.
  unfold bind, os_open.
  destruct (fs_open (k_oracle k) (k_cwd k) f w) as [e|] eqn:O.
  - left. exists f, e. auto.
  - right. exists f. split; [reflexivity|]. split; [exact O|].
    unfold os_dup2. cbn [k_fds set_fds].
    rewrite fd_lookup_set, Nat.eqb_refl. reflexivity.
Qed.

Lemma redirected_lookup (path : str) (w : bool) (target : nat)
    (t : list (nat * FdObj)) :
  fd_lookup target t <> None ->
  fd_lookup target (redirected path w target t) =
  Some (if w then FileWrite path else FileRead path) /\
  (forall fd, fd <> target ->
              fd_lookup fd (redirected path w target t) = fd_lookup fd t).
Proof.
  intros Open. unfold redirected.
  pose proof (lowest_free_is_free t) as Free.
  assert (N : lowest_free t <> target) by (intros E; rewrite E in Free; auto).
  split.
  - rewrite fd_lookup_remove, fd_lookup_set, Nat.eqb_refl.
    apply Nat.eqb_neq in N. rewrite N. reflexivity.
  - intros fd D. rewrite fd_lookup_remove, !fd_lookup_set.
    destruct (lowest_free t =? fd) eqn:E.
    + apply Nat.eqb_eq in E. subst fd. symmetry. exact Free.
    + apply Nat.eqb_neq in D. rewrite Nat.eqb_sym in D. rewrite D.
      reflexivity.
Qed.

Lemma setup_redirection_returns (infile outfile : option str) (k : Kernel) :
  exists b k',
    setup_redirection infile outfile k = (Ret b, k') /\
    k_cwd k' = k_cwd k /\ k_environ k' = k_environ k /\
    k_oracle k' = k_oracle k.
Proof.
  unfold setup_redirection. rewrite redirect_one_next.
  destruct (redirect_one_cases infile false 0 k)
    as [[-> E1]|[(f & e & -> & O & E1)|(f & -> & O & E1)]]; rewrite E1.
  - destruct (redirect_one_cases outfile true 1 k)
      as [[-> E2]|[(g & e & -> & O & E2)|(g & -> & O & E2)]]; rewrite E2;
      eexists _, _; repeat split; reflexivity.
  - eexists _, _; repeat split; reflexivity.
  - destruct (redirect_one_cases outfile true 1
                (set_fds (redirected f false 0 (k_fds k)) k))
      as [[-> E2]|[(g & e & -> & O2 & E2)|(g & -> & O2 & E2)]]; rewrite E2;
      eexists _, _; repeat split; reflexivity.
Qed.

(** X16. [setup_redirection] always returns, with [True] or [False], and
    leaves working directory, environment and children alone.  When it
    returns [True] in a process whose standard input and output are open,
    the standard input is the input file if one is given and the standard
    output is the output file if one is given, a stream without
    redirection and every other descriptor are what they were, and nothing
    was written. *)
Theorem setup_redirection_streams (infile outfile : option str)
    (k : Kernel) :
  exists b k',
    setup_redirection infile outfile k = (Ret b, k') /\
    k_cwd k' = k_cwd k /\ k_environ k' = k_environ k /\
    k_oracle k' = k_oracle k /\ k_children k' = k_children k /\
    (b = true ->
     fd_lookup 0 (k_fds k) <> None -> fd_lookup 1 (k_fds k) <> None ->
     fd_lookup 0 (k_fds k') =
       match infile with
       | Some f => Some (FileRead f)
       | None => fd_lookup 0 (k_fds k)
       end /\
     fd_lookup 1 (k_fds k') =
       match outfile with
       | Some g => Some (FileWrite g)
       | None => fd_lookup 1 (k_fds k)
       end /\
     (forall fd, 2 <= fd -> fd_lookup fd (k_fds k') = fd_lookup fd (k_fds k))
     /\ k_trace k' = k_trace k).
Proof.
  unfold setup_redirection. rewrite redirect_one_next.
  destruct (redirect_one_cases infile false 0 k)
    as [[-> E1]|[(f & e & -> & O & E1)|(f & -> & O & E1)]]; rewrite E1.
  - (* no input file *)
    destruct (redirect_one_cases outfile true 1 k)
      as [[-> E2]|[(g & e & -> & O & E2)|(g & -> & O & E2)]]; rewrite E2.
    + exists true, k. do 5 (split; [reflexivity|]). intros _ _ _.
      repeat split; reflexivity.
    + eexists false, _. do 5 (split; [reflexivity|]). discriminate.
    + eexists true, _. do 5 (split; [reflexivity|]).
      intros _ _ Open1. cbn [k_fds set_fds].
      destruct (@redirected_lookup g true 1 (k_fds k) Open1) as [A B].
      rewrite A. split; [apply B; lia|]. split; [reflexivity|].
      split; [|reflexivity]. intros fd L. apply B. lia.
  - eexists false, _. do 5 (split; [reflexivity|]). discriminate.
  - (* the input file is open on descriptor 0 *)
    set (k1 := set_fds (redirected f false 0 (k_fds k)) k).
    destruct (redirect_one_cases outfile true 1 k1)
      as [[-> E2]|[(g & e & -> & O2 & E2)|(g & -> & O2 & E2)]]; rewrite E2.
    + exists true, k1. do 5 (split; [reflexivity|]).
      intros _ Open0 _. unfold k1. cbn [k_fds set_fds].
      destruct (@redirected_lookup f false 0 (k_fds k) Open0) as [A B].
      rewrite A. split; [reflexivity|]. split; [apply B; lia|].
      split; [|reflexivity]. intros fd L. apply B. lia.
    + eexists false, _. do 5 (split; [reflexivity|]). discriminate.
    + eexists true, _. do 5 (split; [reflexivity|]).
      intros _ Open0 Open1. cbn [k_fds set_fds].
      destruct (@redirected_lookup f false 0 (k_fds k) Open0) as [A B].
      assert (Open1' : fd_lookup 1 (k_fds k1) <> None).
      { unfold k1. cbn [k_fds set_fds]. rewrite B by lia. exact Open1. }
      destruct (@redirected_lookup g true 1 (k_fds k1) Open1') as [A' B'].
      rewrite A'. rewrite B' by lia. unfold k1 at 1. cbn [k_fds set_fds].
      rewrite A. do 2 (split; [reflexivity|]). split; [|reflexivity].
      intros fd L. rewrite B' by lia. unfold k1. cbn [k_fds set_fds].
      apply B. lia.
Qed.

(** [sort < f > out] in the child of the small world. *)
Lemma setup_redirection_streams_witness :
  exists k',
    setup_redirection (Some (lit "f")) (Some (lit "out")) demo_kernel
    = (Ret true, k') /\
    fd_lookup 0 (k_fds k') = Some (FileRead (lit "f")) /\
    fd_lookup 1 (k_fds k') = Some (FileWrite (lit "out")) /\
    fd_lookup 2 (k_fds k') = Some (Inherited 2).
Proof.
  destruct (setup_redirection_streams (Some (lit "f")) (Some (lit "out"))
              demo_kernel) as (b & k' & E & _ & _ & _ & _ & S).
  assert (B : b = true).
  { assert (V : fst (setup_redirection (Some (lit "f")) (Some (lit "out"))
                       demo_kernel) = Ret true) by reflexivity.
    rewrite E in V. simpl in V. injection V as ->. reflexivity. }
  subst b. exists k'. split; [exact E|].
  destruct (S eq_refl) as (A0 & A1 & A2 & _);
    [discriminate|discriminate|].
  rewrite A0, A1, (A2 2 (le_n _)). repeat split; reflexivity.
Defined.

(** X17. The code of a stage's child comes back into the loop of [main]
    in one way only, by the [ValueError] of [os.execve].  It ends with
    status 0, 1, 126 or 127, or the command was resolved to a path that is
    executable and has a [/] in it; then [os.execve] either accepts its
    arguments and the process image is replaced, with the stage's argument
    vector, or it refuses them and its exception leaves the code of the
    child.  It accepts them exactly when the path holds no NUL, the first
    argument is not empty, no argument holds a NUL and no variable of the
    environment has an empty name.  (Paths handed to [os.stat] and
    [os.open] hold no NUL.) *)
Theorem stage_body_ends (st : Stage) (k : Kernel) :
  ((exists code,
      fst (stage_body st k) = Exited code /\
      (code = 0 \/ code = 1 \/ code = 126 \/ code = 127)%Z) \/
   (exists prog args p,
      st_argv st = prog :: args /\
      resolve_command k prog = Some p /\
      is_executable k p = true /\ contains_ch slash_ch p = true /\
      match execve_value_error k p (prog :: args) with
      | None => fst (stage_body st k) = Execed p (prog :: args)
      | Some msg => fst (stage_body st k) = Raised msg
      end)) /\
  (forall p argv,
     execve_value_error k p argv = None <->
     contains_ch nul_ch p = false /\
     (exists a0 c rest, argv = (c :: a0) :: rest) /\
     existsb (contains_ch nul_ch) argv = false /\
     k_environ k [] = None).
Proof.
  split.
  - destruct (setup_redirection_returns (st_in st) (st_out st) k)
      as (b & k' & E & Cw & En & Or).
    unfold stage_body. erewrite bind_ret by exact E.
    destruct b; cbn [negb]; [|left; exists 1%Z; simpl; auto].
    destruct (st_argv st) as [|prog args] eqn:A;
      [left; exists 0%Z; simpl; auto|].
    unfold exec_program, bind, read. cbv beta.
    rewrite (resolve_command_same k k' prog Cw En Or).
    destruct (resolve_command k prog) as [p|] eqn:R;
      [|left; exists 127%Z; simpl; auto].
    rewrite (execve_value_error_same k k' p (prog :: args) En).
    destruct (resolve_command_found _ _ R) as (X & S).
    destruct (execve_value_error k p (prog :: args)) as [msg|] eqn:V.
    + right. exists prog, args, p. rewrite V. auto 10.
    + destruct (sys_execve (k_oracle k') (k_cwd k') p (prog :: args))
        as [e|]; [left; exists 126%Z; simpl; auto|].
      right. exists prog, args, p. rewrite V. auto 10.
  - intros p argv. unfold execve_value_error.
    destruct (contains_ch nul_ch p); [intuition discriminate|].
    destruct argv as [|a0 rest].
    { split; [discriminate|]. intros (_ & (a & c & r & H) & _).
      discriminate. }
    destruct (existsb (contains_ch nul_ch) (a0 :: rest));
      [intuition discriminate|].
    destruct a0 as [|c a0]; cbn [nonempty negb].
    { split; [discriminate|]. intros (_ & (a & c & r & H) & _).
      discriminate. }
    destruct (k_environ k []); [intuition discriminate|].
    repeat split; eauto.
Qed.

Lemma lowest_free_zero (t : list (nat * FdObj)) :
  fd_lookup 0 t = None -> lowest_free t = 0.
Proof.
  intros F. unfold lowest_free. simpl. unfold fd_is_free at 1. rewrite F.
  reflexivity.
Qed.

(** X18. In a process whose standard input is closed, an input
    redirection that succeeds leaves the standard input closed: the file
    is opened on descriptor 0 itself, which is closed again right after.
    No descriptor of the process has changed. *)
Theorem setup_redirection_closed_stdin (f : str) (k : Kernel) :
  fd_lookup 0 (k_fds k) = None ->
  fs_open (k_oracle k) (k_cwd k) f false = None ->
  exists k',
    setup_redirection (Some f) None k = (Ret true, k') /\
    fd_lookup 0 (k_fds k') = None /\
    (forall fd, fd_lookup fd (k_fds k') = fd_lookup fd (k_fds k)).
Proof.
  intros Closed O. unfold setup_redirection. rewrite redirect_one_next.
  destruct (redirect_one_cases (Some f) false 0 k)
    as [[E _]|[(f' & e & E & O' & _)|(f' & E & _ & E1)]];
    [discriminate| |].
  - injection E as <-. congruence.
  - injection E as <-. rewrite E1. eexists. split; [reflexivity|].
    cbn [k_fds set_fds]. unfold redirected.
    rewrite (lowest_free_zero _ Closed).
    assert (L : forall fd,
              fd_lookup fd
                (fd_remove 0 (fd_set 0 (FileRead f)
                                (fd_set 0 (FileRead f) (k_fds k))))
              = fd_lookup fd (k_fds k)).
    { intros fd. rewrite fd_lookup_remove, !fd_lookup_set.
      destruct (0 =? fd) eqn:Z; [|reflexivity].
      apply Nat.eqb_eq in Z. subst fd. symmetry. exact Closed. }
    split; [rewrite L; exact Closed|exact L].
Qed.

Lemma setup_redirection_closed_stdin_witness :
  exists k',
    setup_redirection (Some (lit "f")) None demo_kernel_no_stdin
    = (Ret true, k') /\
    fd_lookup 0 (k_fds k') = None.
Proof.
  destruct (@setup_redirection_closed_stdin (lit "f") demo_kernel_no_stdin
              eq_refl eq_refl) as (k' & E & Z & _).
  exists k'. auto.
Defined.

(* ================================================================= *)
(** ** The pipes of a pipeline in a child *)

Lemma make_pipes_ends (count : nat) :
  forall pipes k, exists fresh t,
    make_pipes count pipes k = (Ret (pipes ++ fresh), set_fds t k) /\
    length fresh = count /\
    (forall fd, ~ In fd (pipe_fds fresh) ->
                fd_lookup fd t = fd_lookup fd (k_fds k)) /\
    (forall fd, In fd (pipe_fds fresh) -> fd_lookup fd (k_fds k) = None) /\
    (forall j r w,
       nth_error fresh j = Some (r, w) ->
       fd_lookup r t = Some (PipeRead (length pipes + j)) /\
       fd_lookup w t = Some (PipeWrite (length pipes + j))).
Proof.
  induction count as [|count IH]; intros pipes k.
  - exists [], (k_fds k). simpl. rewrite app_nil_r.
    split; [destruct k; reflexivity|]. split; [reflexivity|].
    split; [reflexivity|]. split; [tauto|].
    intros [|j] r w H; discriminate.
  - cbn [make_pipes].
    set (r := lowest_free (k_fds k)).
    set (t1 := fd_set r (PipeRead (length pipes)) (k_fds k)).
    set (w := lowest_free t1).
    set (t2 := fd_set w (PipeWrite (length pipes)) t1).
    assert (P : os_pipe (length pipes) k = (Ret (r, w), set_fds t2 k))
      by reflexivity.
    erewrite bind_ret by exact P.
    destruct (IH (pipes ++ [(r, w)]) (set_fds t2 k))
      as (fresh & t & E & L & Keep & Free & Ends).
    change (k_fds (set_fds t2 k)) with t2 in Keep, Free.
    assert (Fr : fd_lookup r (k_fds k) = None)
      by apply lowest_free_is_free.
    assert (Fw : fd_lookup w t1 = None) by apply lowest_free_is_free.
    unfold t1 in Fw. rewrite fd_lookup_set in Fw.
    destruct (r =? w) eqn:Erw; [discriminate|].
    assert (Lr : fd_lookup r t2 = Some (PipeRead (length pipes))).
    { unfold t2, t1. rewrite !fd_lookup_set.
      rewrite Nat.eqb_sym, Erw, Nat.eqb_refl. reflexivity. }
    assert (Lw : fd_lookup w t2 = Some (PipeWrite (length pipes))).
    { unfold t2. rewrite fd_lookup_set, Nat.eqb_refl. reflexivity. }
    assert (Used : forall fd o, fd_lookup fd t2 = Some o ->
                                ~ In fd (pipe_fds fresh)).
    { intros fd o H I. rewrite (Free fd I) in H. discriminate. }
    exists ((r, w) :: fresh), t. rewrite E, set_fds_twice, <- app_assoc.
    split; [reflexivity|]. split; [simpl; lia|]. split; [|split].
    + intros fd N. simpl in N. rewrite Keep by tauto.
      unfold t2, t1. rewrite !fd_lookup_set.
      destruct (w =? fd) eqn:E1; [apply Nat.eqb_eq in E1; tauto|].
      destruct (r =? fd) eqn:E2; [apply Nat.eqb_eq in E2; tauto|].
      reflexivity.
    + intros fd I. simpl in I. destruct I as [<- | [<- | I]];
        [exact Fr | exact Fw |].
      apply Free in I. unfold t2, t1 in I.
      rewrite !fd_lookup_set in I.
      destruct (w =? fd); [discriminate|].
      destruct (r =? fd); [discriminate|]. exact I.
    + intros [|j] r' w' H.
      * simpl in H. injection H as <- <-. rewrite Nat.add_0_r.
        rewrite !Keep by (eapply Used; eassumption). auto.
      * simpl in H. destruct (Ends j r' w' H) as [A B].
        rewrite length_app in A, B. simpl in A, B.
        replace (length pipes + S j) with (length pipes + 1 + j) by lia.
        auto.
Qed.

Lemma maybe_dup2 (c : bool) (src target : nat) (o : FdObj)
    (t : list (nat * FdObj)) (v : Kernel) :
  (c = true -> fd_lookup src t = Some o) ->
  (if c then os_dup2 src target else ret tt) (set_fds t v) =
  (Ret tt, set_fds (if c then fd_set target o t else t) v).
Proof.
  destruct c; [|reflexivity]. intros H. unfold os_dup2.
  cbn [k_fds set_fds]. rewrite (H eq_refl). reflexivity.
Qed.

(** X19. The wiring of a child.  In a process whose standard input and
    output are open, [run_pipeline] makes one pipe less than there are
    stages, and in the child of stage [i] the standard input is the read
    end of pipe [i - 1], or the inherited one for the first stage; the
    standard output is the write end of pipe [i], or the inherited one for
    the last stage; every pipe descriptor is closed and the other
    descriptors are what they were before the pipes were made. *)
Theorem child_wiring (n i : nat) (k k1 v : Kernel)
    (pipes : list (nat * nat)) :
  fd_lookup 0 (k_fds k) <> None -> fd_lookup 1 (k_fds k) <> None ->
  make_pipes (n - 1) [] k = (Ret pipes, k1) ->
  k_fds v = k_fds k1 -> i < n ->
  length pipes = n - 1 /\
  exists v',
    wire_pipes i n pipes v = (Ret tt, v') /\
    fd_lookup 0 (k_fds v') =
      (if 0 <? i then Some (PipeRead (i - 1)) else fd_lookup 0 (k_fds k)) /\
    fd_lookup 1 (k_fds v') =
      (if i <? n - 1 then Some (PipeWrite i) else fd_lookup 1 (k_fds k)) /\
    (forall fd, 2 <= fd -> fd_lookup fd (k_fds v') = fd_lookup fd (k_fds k)) /\
    (forall fd, In fd (pipe_fds pipes) -> fd_lookup fd (k_fds v') = None) /\
    k_trace v' = k_trace v.
Proof.
  intros Open0 Open1 MP V Lt.
  destruct (make_pipes_ends (n - 1) [] k)
    as (fresh & t & E & L & Keep & Free & Ends).
  rewrite MP in E. simpl in E. injection E as -> ->.
  change (k_fds (set_fds t k)) with t in V.
  split; [exact L|].
  assert (N0 : ~ In 0 (pipe_fds fresh))
    by (intros I; apply Open0, Free, I).
  assert (N1 : ~ In 1 (pipe_fds fresh))
    by (intros I; apply Open1, Free, I).
  set (r := fst (nth (i - 1) fresh (0, 0))).
  set (w := snd (nth i fresh (0, 0))).
  assert (Lr : (0 <? i) = true -> fd_lookup r t = Some (PipeRead (i - 1))).
  { intros P. apply Nat.ltb_lt in P. unfold r.
    assert (B : i - 1 < length fresh) by lia.
    pose proof (nth_error_nth' fresh (0, 0) B) as Nth.
    destruct (nth (i - 1) fresh (0, 0)) as [r' w'].
    destruct (Ends _ _ _ Nth) as [A _]. exact A. }
  assert (Lw : (i <? n - 1) = true -> fd_lookup w t = Some (PipeWrite i)).
  { intros P. apply Nat.ltb_lt in P. unfold w.
    assert (B : i < length fresh) by lia.
    pose proof (nth_error_nth' fresh (0, 0) B) as Nth.
    destruct (nth i fresh (0, 0)) as [r' w'].
    destruct (Ends _ _ _ Nth) as [_ A]. exact A. }
  set (t1 := if 0 <? i then fd_set 0 (PipeRead (i - 1)) t else t).
  set (t2 := if i <? n - 1 then fd_set 1 (PipeWrite i) t1 else t1).
  assert (Lw1 : (i <? n - 1) = true -> fd_lookup w t1 = Some (PipeWrite i)).
  { intros P. unfold t1. destruct (0 <? i); [|exact (Lw P)].
    rewrite fd_lookup_set.
    destruct (0 =? w) eqn:Z; [|exact (Lw P)].
    apply Nat.eqb_eq in Z. exfalso. apply Open0.
    rewrite Z. apply Free.
    apply Nat.ltb_lt in P.
    assert (B : i < length fresh) by lia.
    unfold w. clear -B. revert i B.
    induction fresh as [|[a b] fresh IH]; intros i B; [simpl in B; lia|].
    destruct i as [|i]; simpl; [auto|].
    right. right. apply IH. simpl in B. lia. }
  destruct (close_pipes_closed fresh (set_fds t2 v))
    as (t3 & C & Closed & Kept).
  change (k_fds (set_fds t2 v)) with t2 in Kept.
  exists (set_fds t3 v). split.
  - unfold wire_pipes. rewrite <- (set_fds_same v) at 1. rewrite V.
    erewrite bind_ret by (apply (@maybe_dup2 _ _ _ _ _ _ Lr)).
    fold r. fold t1.
    erewrite bind_ret by (apply (@maybe_dup2 _ _ _ _ _ _ Lw1)).
    fold t2. rewrite C. reflexivity.
  - cbn [k_fds set_fds k_trace].
    assert (Base : forall fd, ~ In fd (pipe_fds fresh) ->
              fd_lookup fd t3 =
              if (fd =? 1) && (i <? n - 1) then Some (PipeWrite i)
              else if (fd =? 0) && (0 <? i) then Some (PipeRead (i - 1))
              else fd_lookup fd (k_fds k)).
    { intros fd N. rewrite Kept by exact N. unfold t2, t1.
      destruct (i <? n - 1), (0 <? i); rewrite ?fd_lookup_set,
        ?andb_true_r, ?andb_false_r, 1?(Nat.eqb_sym 1 fd),
        1?(Nat.eqb_sym 0 fd);
        repeat match goal with
               | |- context [?a =? ?b] => destruct (a =? b)
               end; try reflexivity; apply Keep, N. }
    split; [rewrite (Base 0 N0); simpl; destruct (0 <? i); reflexivity|].
    split; [rewrite (Base 1 N1); simpl; destruct (i <? n - 1); reflexivity|].
    split; [|split; [exact Closed|reflexivity]].
    intros fd G. destruct (in_dec Nat.eq_dec fd (pipe_fds fresh)) as [I|N].
    + rewrite (Closed fd I), (Free fd I). reflexivity.
    + rewrite (Base fd N).
      replace (fd =? 1) with false by (symmetry; apply Nat.eqb_neq; lia).
      replace (fd =? 0) with false by (symmetry; apply Nat.eqb_neq; lia).
      reflexivity.
Qed.

(** The middle stage of three in the small world. *)
Lemma child_wiring_witness :
  exists v',
    wire_pipes 1 3 [(3, 4); (5, 6)]
      (snd (make_pipes 2 [] demo_kernel)) = (Ret tt, v') /\
    fd_lookup 0 (k_fds v') = Some (PipeRead 0) /\
    fd_lookup 1 (k_fds v') = Some (PipeWrite 1) /\
    fd_lookup 3 (k_fds v') = None.
Proof.
  destruct (@child_wiring 3 1 demo_kernel
              (snd (make_pipes 2 [] demo_kernel))
              (snd (make_pipes 2 [] demo_kernel)) [(3, 4); (5, 6)])
    as (_ & v' & E & A0 & A1 & _ & Cl & _);
    try reflexivity; try discriminate; [lia|].
  exists v'. split; [exact E|]. split; [exact A0|]. split; [exact A1|].
  apply Cl. simpl. auto.
Defined.

(* ================================================================= *)
(** ** The interpreter's own output *)

Lemma tidy_step_refl (k : Kernel) : tidy_step k k.
Proof. split; auto. Qed.

Lemma tidy_step_trans (k1 k2 k3 : Kernel) :
  tidy_step k1 k2 -> tidy_step k2 k3 -> tidy_step k1 k3.
Proof.
  intros [E1 W1] [E2 W2]. split; [congruence|].
  intros fd text I. destruct (W2 fd text I) as [I2|]; auto.
Qed.

Lemma tidy_bind {A B : Type} (m : M A) (f : A -> M B) :
  tidy m -> (forall a, tidy (f a)) -> tidy (bind m f).
Proof.
  intros Hm Hf k. unfold bind. specialize (Hm k).
  destruct (m k) as [[a|e|c|p a] k']; simpl in *; auto.
  eapply tidy_step_trans; [exact Hm|apply Hf].
Qed.

Lemma tidy_quiet {A : Type} (m : M A) :
  (forall k, k_environ (snd (m k)) = k_environ k /\
             exists evs, k_trace (snd (m k)) = k_trace k ++ evs /\
                         forall e, In e evs ->
                                   match e with
                                   | EvWrite fd _ => fd = 2
                                   | _ => True
                                   end) ->
  tidy m.
Proof.
  intros H k. destruct (H k) as (E & evs & T & W). split; [exact E|].
  intros fd text I. rewrite T in I. apply in_app_or in I as [I|I]; auto.
  right. exact (W _ I).
Qed.

Ltac quiet_none := split; [reflexivity|]; exists []; rewrite app_nil_r;
                   split; [reflexivity|]; intros ? [].

Lemma tidy_ret {A : Type} (a : A) : tidy (ret a).
Proof. apply tidy_quiet. intros k. simpl. quiet_none. Qed.

Lemma tidy_eprint (msg : str) : tidy (eprint msg).
Proof.
  apply tidy_quiet. intros k. simpl. split; [reflexivity|].
  eexists [_]. split; [reflexivity|]. intros e [<-|[]]. reflexivity.
Qed.

Lemma tidy_os_fork (child : M Empty_set) : tidy (os_fork child).
Proof.
  apply tidy_quiet. intros k. simpl. split; [reflexivity|].
  eexists [_]. split; [reflexivity|]. intros e [<-|[]]. exact I.
Qed.

Lemma tidy_os_waitpid (pid : nat) : tidy (os_waitpid pid).
Proof.
  apply tidy_quiet. intros k. unfold os_waitpid.
  destruct (child_lookup pid (k_children k)); simpl; [|quiet_none].
  split; [reflexivity|].
  eexists [_]. split; [reflexivity|]. intros e [<-|[]]. exact I.
Qed.

Lemma tidy_os_pipe (id : nat) : tidy (os_pipe id).
Proof. apply tidy_quiet. intros k. simpl. quiet_none. Qed.

Lemma tidy_os_close (fd : nat) : tidy (os_close fd).
Proof. apply tidy_quiet. intros k. simpl. quiet_none. Qed.

Lemma tidy_run_builtin (argv : list str) : tidy (run_builtin argv).
Proof.
  intros k. split.
  - destruct (run_builtin_keeps argv k) as (_ & E & _). exact E.
  - apply wos_run_builtin.
Qed.

Create HintDb tidy.

#[local] Hint Resolve tidy_ret tidy_eprint tidy_os_fork tidy_os_waitpid
  tidy_os_pipe tidy_os_close tidy_run_builtin : tidy.

Lemma tidy_make_pipes (count : nat) :
  forall pipes, tidy (make_pipes count pipes).
Proof.
  induction count as [|count IH]; intros pipes; simpl; [auto with tidy|].
  apply tidy_bind; [auto with tidy|]. intros p. apply IH.
Qed.

Lemma tidy_close_pipes (pipes : list (nat * nat)) : tidy (close_pipes pipes).
Proof.
  induction pipes as [|[pr pw] more IH]; simpl; [auto with tidy|].
  repeat (apply tidy_bind; [auto with tidy|intros _]). exact IH.
Qed.

Lemma tidy_spawn_loop (stages : list Stage) :
  forall i n pipes pids, tidy (spawn_loop i n pipes stages pids).
Proof.
  induction stages as [|st more IH]; intros; simpl; [auto with tidy|].
  apply tidy_bind; [auto with tidy|]. intros pid. apply IH.
Qed.

Lemma tidy_wait_loop (todo : list nat) :
  forall last_pid acc, tidy (wait_loop todo last_pid acc).
Proof.
  induction todo as [|p more IH]; intros; simpl; [auto with tidy|].
  apply tidy_bind; [auto with tidy|]. intros s. apply IH.
Qed.

Lemma tidy_run_stages (stages : list Stage) (bg : bool) :
  tidy (run_stages stages bg).
Proof.
  unfold run_stages.
  apply tidy_bind; [apply tidy_make_pipes|intros pipes].
  apply tidy_bind; [apply tidy_spawn_loop|intros pids].
  apply tidy_bind; [apply tidy_close_pipes|intros _].
  destruct bg; [auto with tidy|].
  apply tidy_bind; [apply tidy_wait_loop|auto with tidy].
Qed.

Lemma tidy_run_pipeline (stages : list Stage) (bg : bool) :
  tidy (run_pipeline stages bg).
Proof.
  unfold run_pipeline.
  destruct stages as [|st [|st2 more]]; try apply tidy_run_stages.
  destruct (is_builtin (st_argv st)); [|apply tidy_run_stages].
  destruct (no_redirection st); [auto with tidy|].
  apply tidy_bind; [auto with tidy|intros pid].
  destruct bg; [auto with tidy|].
  apply tidy_bind; auto with tidy.
Qed.

Lemma tidy_report (rc : Z) : tidy (report rc).
Proof. apply tidy_eprint. Qed.

Lemma tidy_dispatch (stages : list Stage) (bg : bool) :
  tidy (dispatch stages bg).
Proof.
  unfold dispatch. destruct stages as [|st more]; [auto with tidy|].
  destruct ((length (st :: more) =? 1) && is_builtin (st_argv st)
            && no_redirection st).
  - apply tidy_bind; [auto with tidy|]. intros rc.
    destruct (negb (rc =? 0)%Z); [apply tidy_report|auto with tidy].
  - apply tidy_bind; [apply tidy_run_pipeline|]. intros rc.
    destruct (negb bg && negb (rc =? 0)%Z);
      [apply tidy_report|auto with tidy].
Qed.

Lemma tidy_main_step (line : str) : tidy (main_step line).
Proof.
  assert (Body : tidy (let line := strip line in
                       if negb (nonempty line) then ret tt
                       else let (stages, is_bg) := parse_line_into_stages line
                            in dispatch stages is_bg)).
  { cbv zeta. destruct (negb (nonempty (strip line))); [auto with tidy|].
    destruct (parse_line_into_stages (strip line)) as [stages bg].
    apply tidy_dispatch. }
  intros k. unfold main_step, try_except. specialize (Body k).
  destruct ((let line := strip line in
             if negb (nonempty line) then ret tt
             else let (stages, is_bg) := parse_line_into_stages line
                  in dispatch stages is_bg) k) as [[a|e|c|p a] k'];
    cbn [snd] in Body; try exact Body.
  eapply tidy_step_trans; [exact Body|apply tidy_eprint].
Qed.

(** X20. Handling a line never writes to the standard output and never
    changes the environment: whatever the interpreter itself writes while
    it parses and runs a line, builtins and error reports included, goes
    to the error stream. *)
Theorem main_step_tidy (line : str) (k : Kernel) :
  let k' := snd (main_step line k) in
  k_environ k' = k_environ k /\
  forall fd text,
    In (EvWrite fd text) (k_trace k') ->
    In (EvWrite fd text) (k_trace k) \/ fd = 2.
Proof. exact (tidy_main_step line k). Qed.

(** A failing [cd] leaves the environment of the small world alone. *)
Lemma main_step_tidy_witness :
  k_environ (snd (main_step (lit "cd /nowhere") demo_kernel))
  = k_environ demo_kernel.
Proof. exact (proj1 (main_step_tidy (lit "cd /nowhere") demo_kernel)). Defined.

Lemma prompt_string_env (k k' : Kernel) :
  k_environ k' = k_environ k -> prompt_string k' = prompt_string k.
Proof. unfold prompt_string. intros ->. reflexivity. Qed.

Lemma prompted_of_tidy (P : Prop) (k k' : Kernel) :
  tidy_step k k' -> prompted P k k'.
Proof.
  intros [E W]. split; [exact E|]. intros fd text I.
  destruct (W fd text I); auto.
Qed.

Lemma prompted_weaken (P Q : Prop) (k k' : Kernel) :
  (P -> Q) -> prompted P k k' -> prompted Q k k'.
Proof.
  intros PQ [E W]. split; [exact E|]. intros fd text I.
  destruct (W fd text I) as [H|[H|[H|(F & T & H)]]]; auto 10.
Qed.

Lemma prompted_trans (P : Prop) (k1 k2 k3 : Kernel) :
  prompted P k1 k2 -> prompted P k2 k3 -> prompted P k1 k3.
Proof.
  intros [E1 W1] [E2 W2]. split; [congruence|].
  intros fd text I.
  destruct (W2 fd text I) as [I2|[->|[(-> & T & N)|H]]]; auto 10.
  rewrite (@prompt_string_env k1 k2 E1) in T. auto 10.
Qed.

Lemma print_prompt_prompted (P : Prop) (k : Kernel) :
  exists k', print_prompt k = (Ret tt, k') /\ prompted P k k'.
Proof.
  unfold print_prompt, bind, read. cbv beta.
  destruct (prompt_string k) as [|c t] eqn:Ps; cbn [nonempty].
  - exists k. split; [reflexivity|]. apply prompted_of_tidy, tidy_step_refl.
  - eexists. split; [reflexivity|]. split; [reflexivity|].
    intros fd text I. simpl in I. apply in_app_or in I as [I|[E|[]]]; auto.
    injection E as <- <-. right. right. left. rewrite Ps.
    repeat split; discriminate || reflexivity.
Qed.

Lemma newline_prompted (k : Kernel) :
  prompted True k (add_event (EvWrite 1 [newline_ch]) k).
Proof.
  split; [reflexivity|]. intros fd text I. simpl in I.
  apply in_app_or in I as [I|[E|[]]]; auto.
  injection E as <- <-. auto 10.
Qed.

Lemma main_loop_prompted (input : list Readline) :
  forall k, prompted (In Interrupt input) k (snd (main_loop input k)).
Proof.
  induction input as [|r more IH]; intros k.
  - simpl. destruct (print_prompt_prompted (In Interrupt []) k)
      as (k' & -> & H). exact H.
  - assert (Later : forall k1,
              prompted (In Interrupt (r :: more)) k1
                (snd (main_loop more k1))).
    { intros k1. apply (@prompted_weaken (In Interrupt more)); [|apply IH].
      intros I. right. exact I. }
    destruct (print_prompt_prompted (In Interrupt (r :: more)) k)
      as (k1 & E & H1).
    destruct r as [line| |msg]; cbn [main_loop];
      erewrite bind_ret by exact E.
    + destruct (negb (nonempty line)); [exact H1|].
      eapply prompted_trans; [exact H1|]. unfold bind.
      pose proof (tidy_main_step line k1) as T.
      destruct (main_step line k1) as [[a|e|c|p a] k2]; cbn [snd] in *;
        try (apply prompted_of_tidy, T).
      eapply prompted_trans; [apply prompted_of_tidy, T|apply Later].
    + eapply prompted_trans; [exact H1|].
      unfold bind, emit. cbv beta iota.
      eapply prompted_trans; [|apply Later].
      apply (@prompted_weaken True); [|apply newline_prompted].
      intros _. left. reflexivity.
    + eapply prompted_trans; [exact H1|].
      assert (Ep : eprint (lit "error: " ++ msg) k1 =
                   (Ret tt, add_event
                      (EvWrite 2 ((lit "error: " ++ msg) ++ [newline_ch]))
                      k1)) by reflexivity.
      erewrite bind_ret by exact Ep.
      eapply prompted_trans; [|apply Later].
      apply prompted_of_tidy. apply (tidy_eprint (lit "error: " ++ msg) k1).
Qed.

(** X21. The loop of [main], on any sequence of lines read, keyboard
    interrupts that arrive while it waits for a line, and read errors:
    to the standard output it writes nothing but the prompt, the value of
    [PS1] or [$ ] when it is not set, never an empty one, and a newline
    after an interrupt; everything else it writes goes to the error stream,
    and the environment stays as it is.  With [PS1] set to the empty
    string and no interrupt, the interpreter itself writes nothing to the
    standard output. *)
Theorem main_loop_output (input : list Readline) (k : Kernel) :
  let k' := snd (main_loop input k) in
  k_environ k' = k_environ k /\
  (forall fd text,
     In (EvWrite fd text) (k_trace k') ->
     In (EvWrite fd text) (k_trace k) \/ fd = 2 \/
     (fd = 1 /\ text = prompt_string k /\ text <> []) \/
     (fd = 1 /\ text = [newline_ch] /\ In Interrupt input)) /\
  (k_environ k (lit "PS1") = Some [] -> ~ In Interrupt input ->
   tidy_step k k') /\
  k_trace (snd (main_loop [Interrupt] k)) =
  k_trace k ++ prompt_events k ++ [EvWrite 1 [newline_ch]]
  ++ prompt_events k /\
  (forall msg,
     k_trace (snd (main_loop [ReadError msg] k)) =
     k_trace k ++ prompt_events k
     ++ [EvWrite 2 ((lit "error: " ++ msg) ++ [newline_ch])]
     ++ prompt_events k).
Proof.
  destruct (main_loop_prompted input k) as [E W].
  split; [exact E|]. split; [exact W|]. split.
  - intros PS1 NI. split; [exact E|].
    intros fd text I.
    destruct (W fd text I) as [H|[H|[(_ & T & N)|(_ & _ & H)]]]; auto.
    + unfold prompt_string in T. rewrite PS1 in T. contradiction.
    + contradiction.
  - assert (Pr : forall e,
              k_trace (snd ((print_prompt ;;; emit e ;;; print_prompt) k)) =
              k_trace k ++ prompt_events k ++ [e] ++ prompt_events k).
    { intros e. unfold print_prompt, prompt_events, bind, read, emit, ret.
      cbv beta iota.
      assert (P2 : forall e1 e2,
                prompt_string (add_event e1 (add_event e2 k))
                = prompt_string k) by reflexivity.
      assert (P1 : forall e1,
                prompt_string (add_event e1 k) = prompt_string k)
        by reflexivity.
      destruct (nonempty (prompt_string k)) eqn:N1; cbv beta iota.
      - rewrite !P2, N1. cbn [snd k_trace add_event].
        rewrite <- !app_assoc. reflexivity.
      - rewrite !P1, N1. cbn [snd k_trace add_event]. reflexivity. }
    split; [exact (Pr _)|]. intros msg. exact (Pr _).
Qed.

Lemma main_loop_output_witness :
  tidy_step (mkKernel [] (fun _ => Some []) [] 1 [] [] [] [] demo_oracle)
    (snd (main_loop [Line (lit "zzz"); ReadError (lit "bad");
                     Line (lit "cd /nowhere")]
            (mkKernel [] (fun _ => Some []) [] 1 [] [] [] [] demo_oracle))).
Proof.
  apply (main_loop_output [Line (lit "zzz"); ReadError (lit "bad");
                           Line (lit "cd /nowhere")]); [reflexivity|].
  simpl. intros [H|[H|[H|[]]]]; discriminate H.
Defined.

(** X22. What [main] reports for a pipeline whose stages run in children:
    in the foreground it creates the children, waits for them and writes
    one line to the error stream exactly when the status of the last stage
    is not 0; in the background it creates the children and writes
    nothing. *)
Theorem dispatch_reports (stages : list Stage) (k : Kernel) :
  kernel_wf k -> runs_in_process stages = false -> stages <> [] ->
  let pids := map c_pid (spawned_by stages k) in
  let rc := status_to_exitcode (last (map c_status (spawned_by stages k)) 0%Z)
  in
  (exists k',
     dispatch stages false k = (Ret tt, k') /\
     k_trace k' =
     k_trace k ++ map EvFork pids ++ map EvWait pids
     ++ (if (rc =? 0)%Z then [] else [report_line rc])) /\
  (exists k',
     dispatch stages true k = (Ret tt, k') /\
     k_trace k' = k_trace k ++ map EvFork pids).
Proof.
  intros W R N pids rc.
  assert (D : forall bg,
            dispatch stages bg =
            (rc <- run_pipeline stages bg ;;
             if negb bg && negb (rc =? 0)%Z then report rc else ret tt)).
  { intros bg. unfold dispatch, runs_in_process in *.
    destruct stages as [|st [|st2 more]]; [congruence| |].
    - cbn [length Nat.eqb andb]. rewrite R. reflexivity.
    - cbn [length Nat.eqb andb]. reflexivity. }
  split; rewrite D.
  - destruct (@run_pipeline_foreground stages k W R)
      as (k1 & E & _ & _ & T & _).
    erewrite bind_ret by exact E. fold rc. cbn [negb andb].
    destruct (rc =? 0)%Z; cbn [negb].
    + exists k1. rewrite app_nil_r. auto.
    + exists (add_event (report_line rc) k1). split; [reflexivity|].
      unfold add_event. cbn [k_trace]. rewrite T.
      rewrite <- !app_assoc. reflexivity.
  - destruct (@run_pipeline_background stages k R)
      as (k1 & E & _ & _ & T & _).
    erewrite bind_ret by exact E. exists k1. auto.
Qed.

(** [false] in the small world: one child, one wait, and the line for
    status 1. *)
Lemma dispatch_reports_witness :
  k_trace (snd (dispatch [mkStage [lit "false"] None None] false demo_kernel))
  = [EvFork 100; EvWait 100; report_line 1].
Proof.
  assert (W : kernel_wf demo_kernel) by constructor.
  destruct (@dispatch_reports [mkStage [lit "false"] None None] demo_kernel
              W eq_refl ltac:(discriminate)) as [(k' & E & T) _].
  rewrite E. cbn [snd]. rewrite T. reflexivity.
Defined.

(* ================================================================= *)
(** ** One external command, from the line to the status *)






(* ================================================================= *)
(** ** [exit] and the text of a number *)

Lemma digits_of_uint (d : Decimal.uint) :
  forallb is_digit (lit (DecimalString.NilEmpty.string_of_uint d)) = true.
Proof. induction d; [reflexivity|..]; cbn; exact IHd. Qed.

Lemma is_digit_not_int_space (c : ascii) :
  is_digit c = true -> int_space c = false.
Proof. all_chars c. Qed.

Lemma int_digits_acc (d : Decimal.uint) (acc : positive) :
  int_digits (lit (DecimalString.NilEmpty.string_of_uint d)) (Zpos acc) true
  = Some (Zpos (Pos.of_uint_acc d acc)).
Proof.
  revert acc. induction d; intros acc; [reflexivity|..];
    cbn [DecimalString.NilEmpty.string_of_uint lit
         String.list_ascii_of_string int_digits Pos.of_uint_acc];
    match goal with
    | |- context [is_digit ?c] => change (is_digit c) with true; cbv iota
    end;
    match goal with
    | |- int_digits _ ?a true = Some (Zpos (Pos.of_uint_acc _ ?b)) =>
        replace a with (Zpos b)
          by (match goal with
              | |- context [Z.of_nat ?n] =>
                  let v := eval vm_compute in (Z.of_nat n) in
                  change (Z.of_nat n) with v
              end; lia)
    end; apply IHd.
Qed.

Lemma int_digits_zero (d : Decimal.uint) :
  int_digits (lit (DecimalString.NilEmpty.string_of_uint d)) 0%Z true
  = Some (Z.of_N (Pos.of_uint d)).
Proof.
  induction d; [reflexivity|exact IHd|..];
    cbn [DecimalString.NilEmpty.string_of_uint lit
         String.list_ascii_of_string int_digits Pos.of_uint];
    match goal with
    | |- context [is_digit ?c] => change (is_digit c) with true; cbv iota
    end;
    apply (int_digits_acc d).
Qed.

Lemma int_digits_start (d : Decimal.uint) :
  d <> Decimal.Nil ->
  int_digits (lit (DecimalString.NilEmpty.string_of_uint d)) 0%Z false
  = Some (Z.of_N (Pos.of_uint d)).
Proof.
  intros N. rewrite <- (int_digits_zero d).
  destruct d; [contradiction|..]; reflexivity.
Qed.

Lemma int_strip_keep (l : str) :
  (forall c, In c l -> int_space c = false) -> int_strip l = l.
Proof.
  intros H. destruct l as [|c t]; [reflexivity|].
  unfold int_strip. cbn [int_lstrip]. rewrite (H c) by (left; reflexivity).
  destruct (@exists_last _ (c :: t)) as (p & x & E); [discriminate|].
  rewrite E in *. rewrite rev_app_distr. cbn [rev app int_lstrip].
  rewrite (H x) by (apply in_or_app; right; left; reflexivity).
  cbn [rev]. rewrite rev_involutive. reflexivity.
Qed.

Lemma uint_text_no_space (d : Decimal.uint) (c : ascii) :
  In c (lit (DecimalString.NilEmpty.string_of_uint d)) -> int_space c = false.
Proof.
  intros H. apply is_digit_not_int_space.
  pose proof (digits_of_uint d) as F. rewrite forallb_forall in F.
  apply F, H.
Qed.

Lemma uint_text_digits (d : Decimal.uint) :
  filter is_digit (lit (DecimalString.NilEmpty.string_of_uint d))
  = lit (DecimalString.NilEmpty.string_of_uint d).
Proof.
  apply filter_all. pose proof (digits_of_uint d) as F.
  rewrite forallb_forall in F. exact F.
Qed.

Lemma nilzero_text (d : Decimal.uint) :
  d <> Decimal.Nil ->
  DecimalString.NilZero.string_of_uint d
  = DecimalString.NilEmpty.string_of_uint d.
Proof. destruct d; [contradiction|..]; reflexivity. Qed.

(** *** The number of digits and the size of the number *)

Lemma of_uint_acc_bounds (d : Decimal.uint) (acc : positive) :
  let n := Z.of_nat
             (length (lit (DecimalString.NilEmpty.string_of_uint d))) in
  (Zpos acc * 10 ^ n <= Zpos (Pos.of_uint_acc d acc)
   < (Zpos acc + 1) * 10 ^ n)%Z.
Proof.
  unfold lit. revert acc. induction d; intros acc; cbv zeta;
    [simpl; lia|..];
    cbn [DecimalString.NilEmpty.string_of_uint
         String.list_ascii_of_string length Pos.of_uint_acc];
    rewrite Nat2Z.inj_succ, Z.pow_succ_r by lia;
    match goal with
    | |- context [Pos.of_uint_acc d ?b] =>
        specialize (IHd b); cbv zeta in IHd;
        assert (C : (0 <= Zpos b - 10 * Zpos acc <= 9)%Z) by lia;
        set (c := (Zpos b - 10 * Zpos acc)%Z) in *;
        replace (Zpos b) with (c + 10 * Zpos acc)%Z in IHd
          by (unfold c; lia);
        generalize dependent (Zpos (Pos.of_uint_acc d b))
    end;
    set (m := (10 ^ Z.of_nat
                 (length (String.list_ascii_of_string
                            (DecimalString.NilEmpty.string_of_uint d))))%Z);
    assert (M : (0 < m)%Z) by (apply Z.pow_pos_nonneg; lia);
    intros V IH;
    pose proof (Z.mul_nonneg_nonneg c m ltac:(lia) ltac:(lia)) as Q1;
    pose proof (Z.mul_le_mono_nonneg_r c 9 m ltac:(lia) ltac:(lia)) as Q2;
    replace ((c + 10 * Zpos acc) * m)%Z
      with (c * m + 10 * (Zpos acc * m))%Z in IH by ring;
    replace ((c + 10 * Zpos acc + 1) * m)%Z
      with (c * m + 10 * (Zpos acc * m) + m)%Z in IH by ring;
    replace (Zpos acc * (10 * m))%Z with (10 * (Zpos acc * m))%Z by ring;
    replace ((Zpos acc + 1) * (10 * m))%Z
      with (10 * (Zpos acc * m) + 10 * m)%Z by ring;
    lia.
Qed.

Lemma nzhead_not_zero_headed (d d' : Decimal.uint) :
  Decimal.nzhead d <> Decimal.D0 d'.
Proof. induction d; simpl; try discriminate. exact IHd. Qed.

(** The decimal text of a positive number starts with a digit that is
    not 0. *)
Lemma to_uint_head (p : positive) :
  exists d' i,
    (1 <= Zpos i <= 9)%Z /\
    Zpos p = Zpos (Pos.of_uint_acc d' i) /\
    length (lit (DecimalString.NilEmpty.string_of_uint (Pos.to_uint p)))
    = S (length (lit (DecimalString.NilEmpty.string_of_uint d'))).
Proof.
  pose proof (DecimalPos.Unsigned.of_to p) as O.
  pose proof (DecimalPos.Unsigned.to_of (Pos.to_uint p)) as U.
  rewrite O in U. cbn [N.to_uint] in U.
  destruct (Pos.to_uint p) as [|d|d|d|d|d|d|d|d|d|d];
    [discriminate O| |..];
    try (cbn [Pos.of_uint] in O; injection O as O;
         eexists d, _; split; [|split; [rewrite <- O; reflexivity|reflexivity]];
         lia).
  exfalso. unfold Decimal.unorm in U. cbn [Decimal.nzhead] in U.
  destruct (Decimal.nzhead d) eqn:H;
    try (rewrite <- H in U; exact (@nzhead_not_zero_headed _ _ (eq_sym U))).
  injection U as U. subst d. discriminate O.
Qed.

Lemma digits_bound (p : positive) (m : nat) :
  length (lit (DecimalString.NilEmpty.string_of_uint (Pos.to_uint p))) <= m
  <-> (Zpos p < 10 ^ Z.of_nat m)%Z.
Proof.
  destruct (to_uint_head p) as (d' & i & I & -> & ->).
  pose proof (of_uint_acc_bounds d' i) as B. cbv zeta in B.
  set (n := length (lit (DecimalString.NilEmpty.string_of_uint d'))) in *.
  generalize dependent (Zpos (Pos.of_uint_acc d' i)). intros V B.
  assert (P : (0 < 10 ^ Z.of_nat n)%Z) by (apply Z.pow_pos_nonneg; lia).
  split.
  - intros L.
    assert (M : (10 ^ Z.of_nat (S n) <= 10 ^ Z.of_nat m)%Z)
      by (apply Z.pow_le_mono_r; lia).
    rewrite Nat2Z.inj_succ, Z.pow_succ_r in M by lia. nia.
  - intros L. destruct (Nat.le_gt_cases (S n) m) as [H|H]; [exact H|].
    exfalso.
    assert (M : (10 ^ Z.of_nat m <= 10 ^ Z.of_nat n)%Z)
      by (apply Z.pow_le_mono_r; lia).
    nia.
Qed.

(** [int] of the decimal text of a number gives the number back as long
    as the text has no more digits than the limit allows. *)
Lemma py_int_str_of_Z (n : Z) :
  py_int (str_of_Z n) =
  if (Z.abs n <? 10 ^ Z.of_nat int_max_str_digits)%Z then Some n else None.
Proof.
  unfold str_of_Z. destruct n as [|p|p].
  - assert (P : (0 < 10 ^ Z.of_nat int_max_str_digits)%Z)
      by (apply Z.pow_pos_nonneg; lia).
    apply Z.ltb_lt in P. cbn [Z.abs]. rewrite P. reflexivity.
  - cbn [Z.to_int DecimalString.NilZero.string_of_int Z.abs].
    rewrite nilzero_text by apply DecimalPos.Unsigned.to_uint_nonnil.
    unfold py_int.
    rewrite int_strip_keep by apply uint_text_no_space.
    rewrite uint_text_digits.
    pose proof (digits_bound p int_max_str_digits) as B.
    destruct (Nat.ltb_spec int_max_str_digits
                (length (lit (DecimalString.NilEmpty.string_of_uint
                                (Pos.to_uint p))))) as [L|L].
    + destruct (Z.ltb_spec (Zpos p) (10 ^ Z.of_nat int_max_str_digits));
        [|reflexivity].
      apply B in H. lia.
    + apply B in L. apply Z.ltb_lt in L. rewrite L.
      pose proof (@int_digits_start _
                    (DecimalPos.Unsigned.to_uint_nonnil p)) as S.
      rewrite DecimalPos.Unsigned.of_to in S. cbn [Z.of_N] in S.
      rewrite <- S.
      destruct (Pos.to_uint p); reflexivity.
  - cbn [Z.to_int DecimalString.NilZero.string_of_int Z.abs].
    rewrite nilzero_text by apply DecimalPos.Unsigned.to_uint_nonnil.
    change (lit (String.String "-"%char
                   (DecimalString.NilEmpty.string_of_uint (Pos.to_uint p))))
      with ("-"%char
              :: lit (DecimalString.NilEmpty.string_of_uint (Pos.to_uint p))).
    unfold py_int.
    rewrite int_strip_keep
      by (intros c [<-|H]; [reflexivity|apply (uint_text_no_space _ _ H)]).
    cbn [filter]. change (is_digit "-"%char) with false. cbv iota.
    rewrite uint_text_digits.
    pose proof (digits_bound p int_max_str_digits) as B.
    destruct (Nat.ltb_spec int_max_str_digits
                (length (lit (DecimalString.NilEmpty.string_of_uint
                                (Pos.to_uint p))))) as [L|L].
    + destruct (Z.ltb_spec (Zpos p) (10 ^ Z.of_nat int_max_str_digits));
        [|reflexivity].
      apply B in H. lia.
    + apply B in L. apply Z.ltb_lt in L. rewrite L.
      change (Ascii.eqb "-"%char (ascii_of_nat 45)) with true. cbv iota.
      rewrite (@int_digits_start _ (DecimalPos.Unsigned.to_uint_nonnil p)).
      rewrite DecimalPos.Unsigned.of_to. reflexivity.
Qed.

Lemma str_of_Z_chars (n : Z) (x : ascii) :
  In x (str_of_Z n) -> int_space x = false.
Proof.
  unfold str_of_Z. destruct n as [|p|p];
    cbn [Z.to_int DecimalString.NilZero.string_of_int].
  - intros [<-|[]]. reflexivity.
  - rewrite nilzero_text by apply DecimalPos.Unsigned.to_uint_nonnil.
    apply uint_text_no_space.
  - rewrite nilzero_text by apply DecimalPos.Unsigned.to_uint_nonnil.
    intros [<-|H]; [reflexivity|apply (uint_text_no_space _ _ H)].
Qed.

Lemma str_of_Z_nonempty (n : Z) : str_of_Z n <> [].
Proof.
  unfold str_of_Z. destruct n as [|p|p];
    cbn [Z.to_int DecimalString.NilZero.string_of_int]; try discriminate.
  rewrite nilzero_text by apply DecimalPos.Unsigned.to_uint_nonnil.
  pose proof (DecimalPos.Unsigned.to_uint_nonnil p) as N.
  destruct (Pos.to_uint p); [contradiction|..]; discriminate.
Qed.

Lemma int_lstrip_keep (l : str) :
  (forall x, In x l -> int_space x = false) -> int_lstrip l = l.
Proof.
  intros H. destruct l as [|x t]; [reflexivity|].
  simpl. rewrite (H x) by (left; reflexivity). reflexivity.
Qed.

Lemma int_strip_around (c : ascii) (l : str) :
  int_space c = true -> l <> [] ->
  (forall x, In x l -> int_space x = false) ->
  int_strip (c :: l ++ [c]) = l.
Proof.
  intros C N H. unfold int_strip.
  assert (L : int_lstrip (c :: l ++ [c]) = l ++ [c]).
  { cbn [int_lstrip]. rewrite C. destruct l as [|x t]; [contradiction|].
    simpl. rewrite (H x) by (left; reflexivity). reflexivity. }
  rewrite L, rev_app_distr. cbn [rev app int_lstrip]. rewrite C.
  rewrite int_lstrip_keep by (intros x I; apply H, in_rev, I).
  apply rev_involutive.
Qed.

Lemma py_int_strip (a b : str) :
  int_strip a = int_strip b -> py_int a = py_int b.
Proof. unfold py_int. intros ->. reflexivity. Qed.

Lemma int_digits_bad_end (c : ascii) (l : str) :
  is_digit c = false -> Ascii.eqb c (ascii_of_nat 95) = false ->
  forall acc b, int_digits (l ++ [c]) acc b = None.
Proof.
  intros D U. induction l as [|x l IH]; intros acc b; simpl.
  - rewrite D, U. reflexivity.
  - destruct (is_digit x); [apply IH|].
    destruct (Ascii.eqb x (ascii_of_nat 95) && b); [apply IH|reflexivity].
Qed.

Lemma int_lstrip_end (c : ascii) (l : str) :
  int_space c = false -> exists l2, int_lstrip (l ++ [c]) = l2 ++ [c].
Proof.
  intros C. induction l as [|x l IH]; simpl.
  - rewrite C. exists []. reflexivity.
  - destruct (int_space x); [exact IH|]. exists (x :: l). reflexivity.
Qed.

(** A character that is neither a digit nor white space for [int], nor
    a sign or an underscore, at either end of a text: no number. *)
Lemma py_int_bad_end (c : ascii) (a : str) :
  is_digit c = false -> int_space c = false ->
  Ascii.eqb c (ascii_of_nat 95) = false ->
  Ascii.eqb c (ascii_of_nat 45) = false ->
  Ascii.eqb c (ascii_of_nat 43) = false ->
  py_int (c :: a) = None /\ py_int (a ++ [c]) = None.
Proof.
  intros D S U Mi Pl. split.
  - unfold py_int, int_strip. cbn [int_lstrip]. rewrite S. cbn [rev].
    destruct (@int_lstrip_end c (rev a) S) as (l2 & ->).
    rewrite rev_app_distr. cbn [rev app].
    destruct (_ <? _); [reflexivity|].
    rewrite Mi, Pl. cbn [int_digits]. rewrite D, U. reflexivity.
  - unfold py_int, int_strip.
    destruct (@int_lstrip_end c a S) as (l2 & ->).
    rewrite rev_app_distr. cbn [rev app int_lstrip]. rewrite S.
    cbn [rev]. rewrite rev_involutive.
    destruct (_ <? _); [reflexivity|].
    destruct l2 as [|x t]; cbn [app].
    + rewrite Mi, Pl. cbn [int_digits]. rewrite D, U. reflexivity.
    + destruct (Ascii.eqb x (ascii_of_nat 45));
        [rewrite (@int_digits_bad_end c t D U); reflexivity|].
      destruct (Ascii.eqb x (ascii_of_nat 43));
        [apply (@int_digits_bad_end c t D U)|].
      apply (@int_digits_bad_end c (x :: t) D U).
Qed.

(** X24. [exit] ends the interpreter with [sys.exit(code)], whatever
    follows its first argument and without touching the kernel state.
    When the argument is the decimal text of the integer [n], [code] is [n]
    as long as the text has no more than 4300 digits, that is for [n]
    between [-10^4300] and [10^4300], and 1 beyond.  [code] is 0 when there
    is no argument and 1 when [int] refuses the argument; [int] takes TAB,
    LF, VT, FF, CR, the space, NEL and NBSP around the number, not FS, GS,
    RS and US.  The same holds when the line is dispatched, alone and
    without redirection, also when it was marked as background. *)
Theorem exit_status (k : Kernel) :
  (forall n rest,
     run_builtin (lit "exit" :: str_of_Z n :: rest) k =
     (Exited (if (Z.abs n <? 10 ^ Z.of_nat int_max_str_digits)%Z
              then n else 1%Z), k)) /\
  run_builtin [lit "exit"] k = (Exited 0%Z, k) /\
  (forall a rest, py_int a = None ->
     run_builtin (lit "exit" :: a :: rest) k = (Exited 1%Z, k)) /\
  (forall c n,
     int_space c = true ->
     (Z.abs n < 10 ^ Z.of_nat int_max_str_digits)%Z ->
     py_int (c :: str_of_Z n ++ [c]) = Some n) /\
  (forall c a,
     In (nat_of_ascii c) [28; 29; 30; 31] ->
     py_int (c :: a) = None /\ py_int (a ++ [c]) = None) /\
  (forall args is_bg, exists code,
     dispatch [mkStage (lit "exit" :: args) None None] is_bg k
     = (Exited code, k) /\
     run_builtin (lit "exit" :: args) k = (Exited code, k)).
Proof.
  split; [|split; [|split; [|split; [|split]]]].
  - intros n rest. cbn [run_builtin].
    change (str_eqb (lit "exit") (lit "exit")) with true. cbv iota.
    rewrite py_int_str_of_Z.
    destruct (Z.abs n <? 10 ^ Z.of_nat int_max_str_digits)%Z; reflexivity.
  - reflexivity.
  - intros a rest E. cbn [run_builtin].
    change (str_eqb (lit "exit") (lit "exit")) with true. cbv iota.
    rewrite E. reflexivity.
  - intros c n C L.
    rewrite (@py_int_strip (c :: str_of_Z n ++ [c]) (str_of_Z n)).
    + rewrite py_int_str_of_Z. apply Z.ltb_lt in L. rewrite L. reflexivity.
    + rewrite (@int_strip_around c (str_of_Z n) C (@str_of_Z_nonempty n)
                 (@str_of_Z_chars n)).
      symmetry. apply int_strip_keep, str_of_Z_chars.
  - intros c a I.
    assert (E : c = ascii_of_nat (nat_of_ascii c))
      by (symmetry; apply ascii_nat_embedding).
    simpl in I.
    destruct I as [I|[I|[I|[I|[]]]]]; rewrite <- I in E; subst c;
      apply py_int_bad_end; reflexivity.
  - intros args is_bg.
    exists (match args with
            | a1 :: _ => match py_int a1 with Some n => n | None => 1%Z end
            | [] => 0%Z
            end).
    split; reflexivity.
Qed.

(** [exit 3] with NBSP around the number ends with 3. *)
Lemma exit_status_witness :
  py_int (ascii_of_nat 160 :: lit "3" ++ [ascii_of_nat 160]) = Some 3%Z.
Proof.
  apply (proj1 (proj2 (proj2 (proj2 (exit_status demo_kernel))))
           (ascii_of_nat 160) 3%Z eq_refl).
  vm_compute. reflexivity.
Defined.

(* ================================================================= *)
(** ** How many stages a line has *)

Lemma split_pipeline_loop_count (line : str) :
  forall in_s in_d buf segs,
    length (fst (split_pipeline_loop line in_s in_d buf segs))
    <= length segs + count_occ ascii_dec line pipe_ch.
Proof.
  induction line as [|ch rest IH]; intros; [simpl; lia|].
  cbn [split_pipeline_loop].
  assert (M : count_occ ascii_dec rest pipe_ch
              <= count_occ ascii_dec (ch :: rest) pipe_ch).
  { simpl. destruct (ascii_dec ch pipe_ch); lia. }
  destruct (Ascii.eqb ch squote && negb in_d);
    [etransitivity; [apply IH|lia]|].
  destruct (Ascii.eqb ch dquote && negb in_s);
    [etransitivity; [apply IH|lia]|].
  destruct (Ascii.eqb ch pipe_ch && negb in_s && negb in_d) eqn:P;
    [|etransitivity; [apply IH|lia]].
  apply andb_true_iff in P as [P _]. apply andb_true_iff in P as [P _].
  apply Ascii.eqb_eq in P. subst ch.
  etransitivity; [apply IH|]. rewrite length_app. simpl.
  destruct (ascii_dec pipe_ch pipe_ch); [lia|contradiction].
Qed.

Lemma filter_shorter (A : Type) (f : A -> bool) (l : list A) :
  length (filter f l) <= length l.
Proof.
  induction l as [|x l IH]; [reflexivity|]. simpl.
  destruct (f x); simpl; lia.
Qed.

Lemma split_pipeline_count (line : str) :
  length (split_pipeline line) <= S (count_occ ascii_dec line pipe_ch).
Proof.
  unfold split_pipeline.
  pose proof (split_pipeline_loop_count line false false [] []) as H.
  destruct (split_pipeline_loop line false false [] []) as [segs buf].
  cbn [fst length] in H.
  etransitivity; [apply filter_shorter|].
  destruct (nonempty buf); [rewrite length_app; simpl|]; lia.
Qed.

Lemma stages_of_segments_count (segs : list str) :
  length (stages_of_segments segs) <= length segs.
Proof.
  induction segs as [|seg more IH]; [reflexivity|].
  cbn [stages_of_segments].
  destruct (tokenize seg) as [|t ts]; [simpl; lia|].
  destruct (parse_redirections (t :: ts)) as [[a i] o]. simpl. lia.
Qed.

Lemma parse_background_prefix (line : str) :
  exists rest, line = fst (parse_background line) ++ rest.
Proof.
  unfold parse_background.
  destruct (endswith_ch (rstrip line) amp_ch) eqn:E; cbn [fst];
    [|exists []; rewrite app_nil_r; reflexivity].
  destruct (rstrip_split line) as (ws & L & _).
  apply endswith_ch_last in E as (p & E).
  destruct (rstrip_split (removelast (rstrip line))) as (ws2 & L2 & _).
  exists (ws2 ++ [amp_ch] ++ ws).
  transitivity ((removelast (rstrip line) ++ [amp_ch]) ++ ws).
  - rewrite E, removelast_last, <- E. exact L.
  - transitivity ((rstrip (removelast (rstrip line)) ++ ws2)
                  ++ [amp_ch] ++ ws).
    + rewrite <- L2, <- app_assoc. reflexivity.
    + rewrite <- app_assoc. reflexivity.
Qed.

(** X25. A line has at most one stage more than it has pipe characters,
    and a line without a pipe character at most one. *)
Theorem parse_line_into_stages_count (line : str) :
  length (fst (parse_line_into_stages line))
  <= S (count_occ ascii_dec line pipe_ch) /\
  (~ In pipe_ch line -> length (fst (parse_line_into_stages line)) <= 1).
Proof.
  assert (H : length (fst (parse_line_into_stages line))
              <= S (count_occ ascii_dec line pipe_ch)).
  { unfold parse_line_into_stages.
    destruct (parse_background_prefix line) as (rest & L).
    destruct (parse_background line) as [line2 bg]. cbn [fst] in *.
    etransitivity; [apply stages_of_segments_count|].
    etransitivity; [apply split_pipeline_count|].
    rewrite L, count_occ_app. lia. }
  split; [exact H|]. intros N.
  apply (count_occ_not_In ascii_dec) in N. rewrite N in H. exact H.
Qed.

(** [echo hello &] has at most one stage. *)
Lemma parse_line_into_stages_count_witness :
  length (fst (parse_line_into_stages (lit "echo hello &"))) <= 1.
Proof.
  apply (proj2 (parse_line_into_stages_count (lit "echo hello &"))).
  vm_compute. intuition discriminate.
Defined.
